(** * js-utility-scripts: the tree reader and the tree writer

    A shallow embedding of [generateNodeJsProjectStructureFiles.js], which
    holds two Node.js scripts: [generate-project.js] (the tree writer,
    function [generateProject]) and [read-project.js] (the tree reader,
    function [readDirectoryStructure], with its demonstration scaffold
    [createDummyProject]).

    The file system is a finite tree of nodes; a JavaScript object is a
    finite map from property names to values; an exception is a value of
    the error monad [result].

    The scripts run on Node.js (14.14 to 22, where [rmSync] is the
    JavaScript of [lib/internal/fs/rimraf.js]) on Linux, as a user other
    than [root].  The functions of the library that the scripts call and
    whose text is not theirs ([JSON.parse], [JSON.stringify], and the
    calls of [fs] on an absolute path that is not normalised) are
    parameters of the development: its statements hold whatever these
    functions do. *)

From Stdlib Require Import Ascii String.
From stdpp Require Import gmap strings list fin_maps.

Set Warnings "-register-all".
Open Scope string_scope.
Open Scope list_scope.

(** ** Exceptions and the error monad *)

(** The three constructors the scripts can tell apart: [generateProject]
    tests [error instanceof SyntaxError]; every other exception is only
    read through its [message]. *)
Inductive exn :=
| SyntaxError (message : string)
| TypeError (message : string)
| Error (message : string).

Definition message (e : exn) : string :=
  match e with SyntaxError m | TypeError m | Error m => m end.

Inductive result (A : Type) :=
| Ok (a : A)
| Throw (e : exn).
Arguments Ok {A} a.
Arguments Throw {A} e.

#[global] Instance result_bind : MBind result := λ A B k r,
  match r with Ok a => k a | Throw e => Throw e end.

Definition succeeds {A} (r : result A) : bool :=
  match r with Ok _ => true | Throw _ => false end.

(** ** JavaScript values *)

Module Js.

(** The values [JSON.parse] can produce, which are also the values the
    reader builds.  [undefined] is the absence of a value ([None] where a
    property is read).  Only whether a number is zero is observed by the
    scripts, so numbers are integers.

    A string is held as the bytes Node.js makes of it when it writes it
    or hands it to a system call (UTF-8).  [VStr s] is the well-formed
    string whose UTF-8 text is [s]: what [writeFileSync] writes of it,
    [readFileSync] reads back unchanged.  [VLossy s] is a string that is
    not well-formed (it has a lone surrogate, as [JSON.parse] makes of
    the escape [\ud800]): [s] is what Node.js writes for it, with each
    lone surrogate replaced by U+FFFD, and what is read back from these
    bytes is another string.  The scripts observe a string through these
    bytes only (and whether it is empty, which a string with a lone
    surrogate is not). *)
Inductive value :=
| VNull
| VBool (b : bool)
| VNum (n : Z)
| VStr (s : string)
| VLossy (s : string)
| VArr (items : list value)
| VObj (props : gmap string value).

(** [!v] is false. *)
Definition truthy (v : option value) : bool :=
  match v with
  | None | Some VNull => false
  | Some (VBool b) => b
  | Some (VNum n) => bool_decide (n ≠ 0%Z)
  | Some (VStr s) | Some (VLossy s) => bool_decide (s ≠ "")
  | Some (VArr _) | Some (VObj _) => true
  end.

(** [v.k] for one of the names the scripts read ([project_files], [name],
    [content], none of which is inherited from a prototype): an own
    property of an object, [undefined] on every other value, and a
    [TypeError] on [null]. *)
Definition get (v : value) (k : string) : result (option value) :=
  match v with
  | VNull => Throw (TypeError ("Cannot read properties of null (reading '" +:+ k +:+ "')"))
  | VObj props => Ok (props !! k)
  | _ => Ok None
  end.

(** [obj[k] = v] on an object created by the literal [{}].  The name
    [__proto__] is an accessor inherited from [Object.prototype]: assigning
    to it changes the prototype (or nothing, when [v] is a string) and
    creates no own property, so it never shows in the keys of the object
    nor in [JSON.stringify]. *)
Definition set (k : string) (v : value) (obj : gmap string value) : gmap string value :=
  if decide (k = "__proto__") then obj else <[k := v]> obj.

(** [Array.isArray(v)]. *)
Definition isArray (v : option value) : bool :=
  match v with Some (VArr _) => true | _ => false end.

(** The bytes of a string value, where the value is one. *)
Definition text (v : option value) : option string :=
  match v with
  | Some (VStr s) | Some (VLossy s) => Some s
  | _ => None
  end.

Arguments text : simpl never.

(** Descend through nested objects along a list of property names. *)
Fixpoint at_path (names : list string) (v : value) : option value :=
  match names with
  | [] => Some v
  | k :: rest =>
      match v with
      | VObj props => props !! k ≫= at_path rest
      | _ => None
      end
  end.

End Js.
Export Js.

(** ** Paths (module [path] of Node.js, POSIX flavour) *)

Module Path.

(** An absolute, normalised path is the list of its segments below [/]. *)
Definition path := list string.

(** Split a string on the separator [/]. *)
Fixpoint split (s : string) : list string :=
  match s with
  | EmptyString => [""]
  | String c rest =>
      if decide (c = "/"%char) then "" :: split rest
      else match split rest with
           | [] => [String c ""]
           | seg :: segs => String c seg :: segs
           end
  end.

Definition isAbsolute (s : string) : bool :=
  match s with
  | String c _ => bool_decide (c = "/"%char)
  | EmptyString => false
  end.

(** One step of normalisation: empty segments and [.] are dropped, [..]
    removes the last segment (and stays at [/] when there is none). *)
Definition step (base : path) (seg : string) : path :=
  if decide (seg = "" ∨ seg = ".") then base
  else if decide (seg = "..") then removelast base
  else base ++ [seg].

Definition walk (base : path) (segs : list string) : path :=
  foldl step base segs.

(** [path.resolve(s)] in the working directory [cwd]. *)
Definition resolve (cwd : path) (s : string) : path :=
  walk (if isAbsolute s then [] else cwd) (split s).

(** [path.join(dir, s)] for an absolute normalised [dir]: the normalised
    segments, and whether the result keeps a trailing separator (which
    [path.normalize] preserves, except on [/] itself). *)
Record joined := { segments : path; trailing : bool }.

Definition join (dir : path) (s : string) : joined :=
  {| segments := walk dir (split s);
     trailing := bool_decide (last (split s) = Some "") |}.

(** [path.dirname]: trailing separators are ignored. *)
Definition dirname (p : path) : path := removelast p.

(** The text of a path, for messages and for the system calls. *)
Definition show (p : path) : string :=
  match p with
  | [] => "/"
  | _ => foldr (λ seg acc, "/" +:+ seg +:+ acc) "" p
  end.

(** The number of bytes of a text. *)
Definition size (s : string) : N := N.of_nat (String.length s).

End Path.
Export Path(path).

(** ** The file system *)

Module Fs.

(** What a directory entry can be, as far as the scripts can observe it:
    - [File]: a regular file that the process may read and write, with
      its content as UTF-8 text;
    - [Dir]: a directory that the process may list, search and write;
    - [NoReadFile]: a regular file without permissions: [readFileSync]
      throws, and so does [writeFileSync];
    - [NoListDir]: a directory without permissions: [readdirSync] throws,
      nothing can be reached or made below it, and it holds entries (so
      it cannot be removed);
    - [NoStat]: an entry on which [statSync] throws: a symbolic link that
      cannot be followed.  The reader only calls [statSync] on it, which
      throws on every broken link.  The calls that open or make something
      would go through a link whose target is merely missing, so for
      them the link is one that no call can follow (it points to
      itself): they throw as well;
    - [Special]: an entry that is neither a file nor a directory and
      cannot be opened (a socket).
    Names in a directory are unique: its entries are a finite map.  The
    disk is a tree: hard links and the symbolic links a call can follow,
    which give one file several paths, are outside of it. *)
Inductive node :=
| File (content : string)
| Dir (entries : gmap string node)
| NoReadFile (msg : string)
| NoListDir (msg : string)
| NoStat (msg : string)
| Special.

Inductive stats := IsDirectory | IsFile | IsOther.

Fixpoint lookup (p : path) (n : node) : option node :=
  match p with
  | [] => Some n
  | x :: rest =>
      match n with
      | Dir entries => entries !! x ≫= lookup rest
      | _ => None
      end
  end.

(** [fs.statSync] on the entry itself. *)
Definition stat (n : node) : result stats :=
  match n with
  | File _ | NoReadFile _ => Ok IsFile
  | Dir _ | NoListDir _ => Ok IsDirectory
  | Special => Ok IsOther
  | NoStat msg => Throw (Error msg)
  end.

(** [fs.readFileSync(_, 'utf8')] on the entry itself. *)
Definition readFile (n : node) : result string :=
  match n with
  | File content => Ok content
  | NoReadFile msg => Throw (Error msg)
  | Dir _ | NoListDir _ => Throw (Error "EISDIR: illegal operation on a directory, read")
  | NoStat msg => Throw (Error msg)
  | Special => Throw (Error "ENXIO: no such device or address, open")
  end.

(** *** The names a call takes *)

(** A name of more than 255 bytes ([NAME_MAX]) is refused where the path
    is resolved. *)
Definition short (x : string) : bool := (Path.size x <=? 255)%N.

Definition has_nul (x : string) : bool :=
  existsb (λ c, bool_decide (c = "000"%char)) (list_ascii_of_string x).

(** What every call of [fs] checks of its path before anything else: a
    null byte is a [TypeError] of Node.js, a text of 4096 bytes or more
    ([PATH_MAX]) is refused by the kernel. *)
Definition accepts (p : path) : result unit :=
  if existsb has_nul p
  then Throw (TypeError
    "The argument 'path' must be a string, Uint8Array, or URL without null bytes.")
  else if (4096 <=? Path.size (Path.show p))%N
  then Throw (Error "ENAMETOOLONG: name too long")
  else Ok ().

(** A path no call refuses for its text. *)
Definition nameable (p : path) : bool := succeeds (accepts p) && forallb short p.

(** The exception of a call that has to go below [n], which is no
    directory it can search. *)
Definition below (n : node) (call : string) : exn :=
  match n with
  | NoListDir _ => Error ("EACCES: permission denied, " +:+ call)
  | NoStat _ => Error ("ELOOP: too many symbolic links encountered, " +:+ call)
  | _ => Error ("ENOTDIR: not a directory, " +:+ call)
  end.

(** [fs.existsSync]: false for whatever reason [statSync] fails. *)
Definition existsSync (fs : node) (p : path) : bool :=
  nameable p &&
  match lookup p fs with
  | Some n => succeeds (stat n)
  | None => false
  end.

(** [fs.readFileSync(p, 'utf8')]. *)
Definition readSync (p : path) (fs : node) : result string :=
  accepts p;;
  match lookup p fs with
  | Some n => readFile n
  | None => Throw (Error "ENOENT: no such file or directory, open")
  end.

(** *** The calls, once the text of the path is accepted *)

(** [fs.mkdirSync(p)]: the parent must be a directory and the name free. *)
Fixpoint mkdir (p : path) (fs : node) : result node :=
  match p, fs with
  | [], _ => Throw (Error "EEXIST: file already exists, mkdir")
  | [x], Dir entries =>
      if short x then
        match entries !! x with
        | None => Ok (Dir (<[x := Dir ∅]> entries))
        | Some _ => Throw (Error "EEXIST: file already exists, mkdir")
        end
      else Throw (Error "ENAMETOOLONG: name too long, mkdir")
  | x :: rest, Dir entries =>
      if short x then
        match entries !! x with
        | Some child => child' ← mkdir rest child; Ok (Dir (<[x := child']> entries))
        | None => Throw (Error "ENOENT: no such file or directory, mkdir")
        end
      else Throw (Error "ENAMETOOLONG: name too long, mkdir")
  | _ :: _, _ => Throw (below fs "mkdir")
  end.

(** [fs.mkdirSync(p, { recursive: true })] where it succeeds: missing
    directories are created from the top; an existing directory is no
    error; anything else on the way is. *)
Fixpoint mkdirp (p : path) (fs : node) : result node :=
  match p, fs with
  | [], (Dir _ | NoListDir _) => Ok fs
  | [], NoStat _ => Throw (Error "ELOOP: too many symbolic links encountered, mkdir")
  | [], _ => Throw (Error "EEXIST: file already exists, mkdir")
  | x :: rest, Dir entries =>
      if short x then
        child' ← mkdirp rest (default (Dir ∅) (entries !! x));
        Ok (Dir (<[x := child']> entries))
      else Throw (Error "ENAMETOOLONG: name too long, mkdir")
  | _ :: _, _ => Throw (below fs "mkdir")
  end.

(** The segments of a path before the first name that is too long. *)
Fixpoint short_prefix (p : path) : path :=
  match p with
  | x :: rest => if short x then x :: short_prefix rest else []
  | [] => []
  end.

(** What [fs.mkdirSync(p, { recursive: true })] leaves when it throws.
    It makes the directories one by one from the top, and the ones made
    before the exception stay: those above the first name that is too
    long, when nothing else is in the way. *)
Definition made (p : path) (fs : node) : node :=
  match mkdirp (short_prefix p) fs with
  | Ok fs' => fs'
  | Throw _ => fs
  end.

(** [fs.writeFileSync(p, data, 'utf8')] for a path without trailing
    separator: the parent must be a directory; a missing file is created, a
    regular file is replaced; a directory is never replaced, and the
    entries that cannot be opened cannot be written either. *)
Fixpoint writeFile (p : path) (data : string) (fs : node) : result node :=
  match p, fs with
  | [], _ => Throw (Error "EISDIR: illegal operation on a directory, open")
  | [x], Dir entries =>
      if short x then
        match entries !! x with
        | None | Some (File _) => Ok (Dir (<[x := File data]> entries))
        | Some (Dir _ | NoListDir _) =>
            Throw (Error "EISDIR: illegal operation on a directory, open")
        | Some (NoReadFile _) => Throw (Error "EACCES: permission denied, open")
        | Some (NoStat _) =>
            Throw (Error "ELOOP: too many symbolic links encountered, open")
        | Some Special => Throw (Error "ENXIO: no such device or address, open")
        end
      else Throw (Error "ENAMETOOLONG: name too long, open")
  | x :: rest, Dir entries =>
      if short x then
        match entries !! x with
        | Some child =>
            child' ← writeFile rest data child; Ok (Dir (<[x := child']> entries))
        | None => Throw (Error "ENOENT: no such file or directory, open")
        end
      else Throw (Error "ENAMETOOLONG: name too long, open")
  | _ :: _, _ => Throw (below fs "open")
  end.

(** What [rimrafSync] does to an entry: [None] when the entry and all
    below it are removed, and otherwise the exception and what is left of
    the entry.  A directory is emptied entry by entry, in the order of
    its listing (here the order [map_fold] takes, as in the reader), up
    to the first entry that cannot be removed. *)
Fixpoint purge (n : node) : option (exn * node) :=
  match n with
  | Dir entries =>
      match map_fold
              (λ item child (acc : option exn * gmap string node),
                 match acc with
                 | (Some e, remain) => (Some e, remain)
                 | (None, remain) =>
                     match purge child with
                     | None => (None, delete item remain)
                     | Some (e, child') => (Some e, <[item := child']> remain)
                     end
                 end)
              (None, entries) entries with
      | (None, _) => None
      | (Some e, remain) => Some (e, Dir remain)
      end
  | NoListDir _ => Some (Error "EACCES: permission denied, scandir", n)
  | File _ | NoReadFile _ | NoStat _ | Special => None
  end.

(** [fs.rmSync(p, { recursive: true, force: true })]: a missing path is
    no error; what was removed before an exception stays removed. *)
Fixpoint rm (p : path) (fs : node) : result unit * node :=
  match p, fs with
  | [], _ => (Throw (Error "EBUSY: resource busy or locked, rmdir"), fs)
  | [x], Dir entries =>
      if short x then
        match entries !! x with
        | None => (Ok (), fs)
        | Some child =>
            match purge child with
            | None => (Ok (), Dir (delete x entries))
            | Some (e, child') => (Throw e, Dir (<[x := child']> entries))
            end
        end
      else (Throw (Error "ENAMETOOLONG: name too long, lstat"), fs)
  | x :: rest, Dir entries =>
      if short x then
        match entries !! x with
        | Some child =>
            let (r, child') := rm rest child in (r, Dir (<[x := child']> entries))
        | None => (Ok (), fs)
        end
      else (Throw (Error "ENAMETOOLONG: name too long, lstat"), fs)
  | _ :: _, _ => (Throw (below fs "lstat"), fs)
  end.

(** *** The calls *)

(** A call that changes the disk: its result, and the disk it leaves,
    also when it throws. *)
Definition call : Type := node → result unit * node.

(** A call that changes nothing when it throws. *)
Definition atomic (p : path) (op : node → result node) : call := λ fs,
  match accepts p;; op fs with
  | Ok fs' => (Ok (), fs')
  | Throw e => (Throw e, fs)
  end.

Definition mkdirSync (p : path) : call := atomic p (mkdir p).

Definition writeSync (p : path) (data : string) : call := atomic p (writeFile p data).

Definition mkdirpSync (p : path) : call := λ fs,
  match accepts p with
  | Throw e => (Throw e, fs)
  | Ok _ =>
      match mkdirp p fs with
      | Ok fs' => (Ok (), fs')
      | Throw e => (Throw e, made p fs)
      end
  end.

Definition rmSync (p : path) : call := λ fs,
  match accepts p with
  | Throw e => (Throw e, fs)
  | Ok _ => rm p fs
  end.

End Fs.
Export Fs.

(** ** The tree reader *)

Module Reader.

(** The object returned when the directory itself cannot be read. *)
Definition error_marker (e : exn) : value :=
  VObj {[ "error" := VStr ("Error reading directory: " +:+ message e) ]}.

(** The body of [items.forEach(item => ...)] for one item, where [child]
    is the entry at [path.join(dirPath, item)], [recur] is the recursive
    call and [acc] is the object [result] built so far, or the exception
    that left the loop. *)
Definition visit (recur : node → value) (item : string) (child : node)
    (acc : result (gmap string value)) : result (gmap string value) :=
  obj ← acc;
  st ← stat child;
  match st with
  | IsDirectory => Ok (Js.set item (recur child) obj)
  | IsFile =>
      match readFile child with
      | Ok content => Ok (Js.set item (VStr content) obj)
      | Throw readError =>
          Ok (Js.set item (VStr ("Error reading file: " +:+ message readError)) obj)
      end
  | IsOther => Ok obj
  end.

(** [readDirectoryStructure] on the node found at [dirPath].  The listing
    [fs.readdirSync] of a directory is the enumeration of its entries; the
    diagnostics written to the console during the walk are not part of the
    embedding.  The text of every path of the walk is taken to be one the
    calls accept (shorter than [PATH_MAX]). *)
Fixpoint read_node (n : node) : value :=
  match n with
  | Dir entries =>
      match map_fold (visit read_node) (Ok ∅) entries with
      | Ok obj => VObj obj
      | Throw dirError => error_marker dirError
      end
  | NoListDir msg => error_marker (Error msg)
  | NoStat msg => error_marker (Error msg)
  | File _ | NoReadFile _ | Special =>
      error_marker (Error "ENOTDIR: not a directory, scandir")
  end.

Definition readDirectoryStructure (fs : node) (dirPath : path) : value :=
  match lookup dirPath fs with
  | Some n => read_node n
  | None => error_marker (Error "ENOENT: no such file or directory, scandir")
  end.

End Reader.
Export Reader.

(** ** The process: disk, console, and the monad of the scripts *)

Module Process.

(** The console calls of the two scripts; the text of the message is what
    the constructor and its arguments say.  [WriterUsage] and
    [ReaderUsage] stand for the error line and the usage lines that
    follow it, [GeneratedJson] for the heading and the JSON text of the
    value. *)
Inductive line :=
(* generate-project.js *)
| ReadingFrom (resolvedJsonPath : path)
| GeneratingIn (projectRoot : path)
| CreatedRoot (outputDir : string)
| SkippingInvalid (file : value)
| CreatedDirectory (projectRoot dirName : path)
| CreatedFile (name : string)
| GenerationComplete
| InvalidJson (msg : string)
| ErrorOccurred (msg : string)
| WriterUsage
(* read-project.js *)
| ReaderUsage
| DummyCreated
| GeneratedJson (directoryJSON : value)
| SavedJson
| SaveFailed (msg : string)
| Uncaught (e : exn).

(** Which lines go through [console.warn] and [console.error]. *)
Definition is_warning (l : line) : bool :=
  match l with SkippingInvalid _ => true | _ => false end.

Definition is_error (l : line) : bool :=
  match l with
  | InvalidJson _ | ErrorOccurred _ | WriterUsage | ReaderUsage
  | SaveFailed _ | Uncaught _ => true
  | _ => false
  end.

Record world := { disk : node; console : list line }.

(** A computation runs in a world and leaves a world, also when it
    throws: what was written before the exception stays written. *)
Definition io (A : Type) : Type := world → result A * world.

#[global] Instance io_ret : MRet io := λ A a w, (Ok a, w).

#[global] Instance io_bind : MBind io := λ A B k m w,
  match m w with
  | (Ok a, w') => k a w'
  | (Throw e, w') => (Throw e, w')
  end.

Definition throw {A} (e : exn) : io A := λ w, (Throw e, w).

Definition lift {A} (r : result A) : io A := λ w, (r, w).

(** [try { m } catch (e) { handler e }]. *)
Definition catch {A} (m : io A) (handler : exn → io A) : io A := λ w,
  match m w with
  | (Ok a, w') => (Ok a, w')
  | (Throw e, w') => handler e w'
  end.

Definition log (l : line) : io unit := λ w,
  (Ok (), {| disk := disk w; console := console w ++ [l] |}).

(** A system call that changes the disk. *)
Definition syscall (op : Fs.call) : io unit := λ w,
  ((op (disk w)).1, {| disk := (op (disk w)).2; console := console w |}).

Definition existsSync (p : path) : io bool := λ w, (Ok (Fs.existsSync (disk w) p), w).

(** Reading the disk without changing it. *)
Definition inspect {A} (f : node → A) : io A := λ w, (Ok (f (disk w)), w).

Definition readFileSync (p : path) : io string := λ w, (Fs.readSync p (disk w), w).

Definition mkdirSync (p : path) : io unit := syscall (Fs.mkdirSync p).

Definition mkdirSync_recursive (p : path) : io unit := syscall (Fs.mkdirpSync p).

Definition rmSync (p : path) : io unit := syscall (Fs.rmSync p).

(** [fs.writeFileSync] on the result of [path.join]: a path that ends in a
    separator names no file. *)
Definition writeFileSync (filePath : Path.joined) (data : string) : io unit :=
  if Path.trailing filePath
  then throw (Error "EISDIR: illegal operation on a directory, open")
  else syscall (Fs.writeSync (Path.segments filePath) data).

(** [array.forEach(f)]: an exception in [f] leaves the loop. *)
Fixpoint forEach {A} (f : A → io unit) (items : list A) : io unit :=
  match items with
  | [] => mret ()
  | item :: rest => f item;; forEach f rest
  end.

(** How a script ends. *)
Inductive completion := Returned | Exited (code : Z).

End Process.
Export Process.

(** ** The tree writer, [generate-project.js] *)

Module Writer.

(** [path.join(projectRoot, file.name)]: every argument must be a string. *)
Definition path_join (projectRoot : path) (name : option value) : io Path.joined :=
  match Js.text name with
  | Some s => mret (Path.join projectRoot s)
  | None => throw (TypeError "The path argument must be of type string")
  end.

(** [fs.writeFileSync(filePath, file.content, 'utf8')]: the data must be a
    string, which is checked before the file is opened. *)
Definition write_content (filePath : Path.joined) (content : option value) : io unit :=
  match Js.text content with
  | Some data => writeFileSync filePath data
  | None => throw (TypeError "The data argument must be of type string")
  end.

(** The body of [projectData.project_files.forEach(file => ...)]. *)
Definition process_file (projectRoot : path) (file : value) : io unit :=
  name ← lift (Js.get file "name");
  if negb (truthy name) then log (SkippingInvalid file) else
  content ← lift (Js.get file "content");
  if bool_decide (content = None) then log (SkippingInvalid file) else
  filePath ← path_join projectRoot name;
  let dirName := Path.dirname (Path.segments filePath) in
  dir_exists ← existsSync dirName;
  (if negb dir_exists
   then mkdirSync_recursive dirName;; log (CreatedDirectory projectRoot dirName)
   else mret ());;
  write_content filePath content;;
  log (CreatedFile (default "" (Js.text name))).

Section script.

(** [JSON.parse], on the bytes of the input file. *)
Variable parse : string → result value.

(** Step 2 of [generateProject]: the document is read from the disk. *)
Definition read_json (resolvedJsonPath : path) : io value :=
  present ← existsSync resolvedJsonPath;
  if negb present
  then throw (Error ("Input file not found at: " +:+ Path.show resolvedJsonPath))
  else
    rawData ← readFileSync resolvedJsonPath;
    lift (parse rawData).

(** The [try] block of [generateProject]. *)
Definition generate (cwd : path) (jsonFilePath outputDir : string) : io unit :=
  let resolvedJsonPath := Path.resolve cwd jsonFilePath in
  let projectRoot := Path.resolve cwd outputDir in
  log (ReadingFrom resolvedJsonPath);;
  log (GeneratingIn projectRoot);;
  projectData ← read_json resolvedJsonPath;
  project_files ← lift (Js.get projectData "project_files");
  if negb (truthy project_files) || negb (isArray project_files)
  then throw (Error "JSON file must have a root key project_files which is an array.")
  else
    root_exists ← existsSync projectRoot;
    (if negb root_exists
     then mkdirSync projectRoot;; log (CreatedRoot outputDir)
     else mret ());;
    forEach (process_file projectRoot)
      (match project_files with Some (VArr files) => files | _ => [] end);;
    log GenerationComplete.

(** [generateProject], with its [catch] block. *)
Definition generateProject (cwd : path) (jsonFilePath outputDir : string) (w : world)
    : completion * world :=
  match generate cwd jsonFilePath outputDir w with
  | (Ok _, w') => (Returned, w')
  | (Throw error, w') =>
      let report :=
        match error with
        | SyntaxError msg => InvalidJson msg
        | _ => ErrorOccurred (message error)
        end in
      (Exited 1, {| disk := disk w'; console := console w' ++ [report] |})
  end.

(** The script: [argv2] and [argv3] are [process.argv[2]] and
    [process.argv[3]]; a script that runs to its end exits with code 0. *)
Definition main (cwd : path) (argv2 argv3 : option string) (w : world) : Z * world :=
  let outputDir :=
    match argv3 with
    | Some s => if bool_decide (s = "") then "generated-project" else s
    | None => "generated-project"
    end in
  match argv2 with
  | Some jsonFilePath =>
      if bool_decide (jsonFilePath = "")
      then (1%Z, {| disk := disk w; console := console w ++ [WriterUsage] |})
      else
        match generateProject cwd jsonFilePath outputDir w with
        | (Returned, w') => (0%Z, w')
        | (Exited code, w') => (code, w')
        end
  | None => (1%Z, {| disk := disk w; console := console w ++ [WriterUsage] |})
  end.

End script.

End Writer.

(** ** The tree reader script, [read-project.js] *)

Module ReadProject.

Definition dq : string := String "034"%char "".
Definition nl : string := String "010"%char "".

Definition package_json : string :=
  "{" +:+ nl +:+ "  " +:+ dq +:+ "name" +:+ dq +:+ ": " +:+ dq +:+ "dummy-project" +:+ dq
  +:+ "," +:+ nl +:+ "  " +:+ dq +:+ "version" +:+ dq +:+ ": " +:+ dq +:+ "1.0.0" +:+ dq
  +:+ nl +:+ "}".

Definition index_js : string :=
  "console.log(" +:+ dq +:+ "Hello, World!" +:+ dq +:+ ");".

Definition utils_js : string := "const add = (a, b) => a + b;".

Definition utils_test_js : string := "// Test cases for utils.js".

(** A path built by [path.join(dir, name, ...)] from plain names. *)
Definition under (dir : path) (names : list string) : Path.joined :=
  {| Path.segments := dir ++ names; Path.trailing := false |}.

(** [projectPath]: a relative argument goes through [path.resolve]; an
    absolute one is handed to the calls of [fs] as typed.  Where that text
    is normalised already, the path it names is the list of its segments;
    where it is not ([..] after a component, [.], a doubled or a trailing
    separator), each call of [fs] takes the text apart on the disk in its
    own way. *)
Inductive handed :=
| Plain (p : path)
| Typed (s : string).

Definition hand (cwd : path) (targetPath : string) : handed :=
  if Path.isAbsolute targetPath
  then if bool_decide (Path.show (Path.resolve [] targetPath) = targetPath)
       then Plain (Path.resolve [] targetPath)
       else Typed targetPath
  else Plain (Path.resolve cwd targetPath).

(** What [path.join(projectPath, ...)] starts from: [path.join]
    normalises its result. *)
Definition joined_root (projectPath : handed) : path :=
  match projectPath with
  | Plain p => p
  | Typed s => Path.resolve [] s
  end.

(** The calls of [fs] on an absolute path that is not normalised. *)
Record typed_calls := {
  typed_exists : string → node → bool;
  typed_rm : string → Fs.call;
  typed_mkdirp : string → Fs.call;
  typed_readdir : string → node → result (list string);
}.

Section script.

(** [JSON.stringify(_, null, 2)]. *)
Variable stringify : value → string.

Variable typed : typed_calls.

(** [readDirectoryStructure] on a text that is not normalised:
    [readdirSync] takes the text as typed, and each item is then reached
    through [path.join(dirPath, item)], which normalises. *)
Definition read_typed (s : string) (fs : node) : value :=
  match typed_readdir typed s fs with
  | Throw dirError => error_marker dirError
  | Ok items =>
      match foldl (λ acc item,
                     match lookup (Path.resolve [] s ++ [item]) fs with
                     | Some child => visit read_node item child acc
                     | None =>
                         acc;; Throw (Error "ENOENT: no such file or directory, stat")
                     end)
                  (Ok ∅) items with
      | Ok obj => VObj obj
      | Throw dirError => error_marker dirError
      end
  end.

(** [readDirectoryStructure(projectPath)]. *)
Definition read (projectPath : handed) : io value :=
  inspect (λ fs,
    match projectPath with
    | Plain p => readDirectoryStructure fs p
    | Typed s => read_typed s fs
    end).

Definition createDummyProject (projectPath : handed) : io unit :=
  present ← match projectPath with
            | Plain p => existsSync p
            | Typed s => inspect (typed_exists typed s)
            end;
  (if (present : bool)
   then match projectPath with
        | Plain p => rmSync p
        | Typed s => syscall (typed_rm typed s)
        end
   else mret ());;
  match projectPath with
  | Plain p => mkdirSync_recursive p
  | Typed s => syscall (typed_mkdirp typed s)
  end;;
  mkdirSync (joined_root projectPath ++ ["src"]);;
  mkdirSync (joined_root projectPath ++ ["test"]);;
  writeFileSync (under (joined_root projectPath) ["package.json"]) package_json;;
  writeFileSync (under (joined_root projectPath) ["src"; "index.js"]) index_js;;
  writeFileSync (under (joined_root projectPath) ["src"; "utils.js"]) utils_js;;
  writeFileSync (under (joined_root projectPath) ["test"; "utils.test.js"]) utils_test_js;;
  log DummyCreated.

(** The statements of the script after the argument check; [dirname] is
    [__dirname], the directory of the script. *)
Definition scan (cwd dirname : path) (targetPath : string) : io unit :=
  let projectPath := hand cwd targetPath in
  directoryJSON ← read projectPath;
  createDummyProject projectPath;;
  directoryJSON ← read projectPath;
  let jsonOutput := stringify directoryJSON in
  log (GeneratedJson directoryJSON);;
  catch
    (writeFileSync (under dirname ["project-structure.json"]) jsonOutput;;
     log SavedJson)
    (λ writeError, log (SaveFailed (message writeError))).

(** The script: [argv2] is [process.argv[2]]; an exception nobody catches
    ends the process with code 1, the end of the script with code 0. *)
Definition main (cwd dirname : path) (argv2 : option string) (w : world) : Z * world :=
  match argv2 with
  | Some targetPath =>
      if bool_decide (targetPath = "")
      then (1%Z, {| disk := disk w; console := console w ++ [ReaderUsage] |})
      else
        match scan cwd dirname targetPath w with
        | (Ok _, w') => (0%Z, w')
        | (Throw e, w') => (1%Z, {| disk := disk w'; console := console w' ++ [Uncaught e] |})
        end
  | None => (1%Z, {| disk := disk w; console := console w ++ [ReaderUsage] |})
  end.

End script.

End ReadProject.

(** * Vocabulary of the properties *)

(** ** The reader *)

(** What the reader binds to the name of an entry whose [statSync]
    succeeds; [None] when it binds nothing. *)
Definition entry_value (child : node) : option value :=
  match child with
  | Dir _ | NoListDir _ => Some (read_node child)
  | File content => Some (VStr content)
  | NoReadFile msg => Some (VStr ("Error reading file: " +:+ msg))
  | Special | NoStat _ => None
  end.

Definition stat_ok (child : node) : Prop :=
  match child with NoStat _ => False | _ => True end.

(** ** The writer *)

Import Writer.

(** Whether the way to [p] is clear: no entry above [p] is anything but a
    directory, and [p] itself is free or a regular file. *)
Fixpoint clear_way (p : path) (fs : node) : bool :=
  match p, fs with
  | [], _ => false
  | [x], Dir entries =>
      match entries !! x with
      | None | Some (File _) => true
      | Some _ => false
      end
  | x :: rest, Dir entries =>
      match entries !! x with
      | None => true
      | Some child => clear_way rest child
      end
  | _ :: _, _ => false
  end.

(** Whether [p] can be written as a file, missing directories created on
    the way: no call refuses the text of [p] (no null byte, no name of
    more than 255 bytes, less than 4096 bytes in all), and the way to [p]
    is clear. *)
Definition writable (p : path) (fs : node) : bool := nameable p && clear_way p fs.

(** Replacing the content of the file at [p]. *)
Fixpoint put (p : path) (data : string) (fs : node) : node :=
  match p, fs with
  | [x], Dir entries => Dir (<[x := File data]> entries)
  | x :: rest, Dir entries =>
      match entries !! x with
      | Some child => Dir (<[x := put rest data child]> entries)
      | None => fs
      end
  | _, _ => fs
  end.

Definition is_dir (n : option node) : Prop := ∃ entries, n = Some (Dir entries).

Definition is_file (n : option node) : Prop := ∃ content, n = Some (File content).

(** What [process_file] is about to do with an entry, which depends on the
    entry alone: warn and go on, throw before any system call, or make the
    directory of [target] and write [data] there ([data] is the exception
    to throw in place of the write when the content is no string or the
    path ends in a separator). *)
Inductive plan :=
| Skip
| Abort (e : exn)
| Store (target : path) (data : result string).

Definition payload (filePath : Path.joined) (content : option value) : result string :=
  match Js.text content with
  | Some data =>
      if Path.trailing filePath
      then Throw (Error "EISDIR: illegal operation on a directory, open")
      else Ok data
  | None => Throw (TypeError "The data argument must be of type string")
  end.

Definition classify (projectRoot : path) (file : value) : plan :=
  match Js.get file "name" with
  | Throw e => Abort e
  | Ok name =>
      if negb (truthy name) then Skip else
      match Js.get file "content" with
      | Throw e => Abort e
      | Ok None => Skip
      | Ok content =>
          match Js.text name with
          | Some s =>
              let filePath := Path.join projectRoot s in
              Store (Path.segments filePath) (payload filePath content)
          | None => Abort (TypeError "The path argument must be of type string")
          end
      end
  end.

(** Making the directory of [target] where it does not exist. *)
Definition prepare (target : path) : Fs.call := λ fs,
  if Fs.existsSync fs (Path.dirname target) then (Ok (), fs)
  else Fs.mkdirpSync (Path.dirname target) fs.

(** The effect of a plan on the disk. *)
Definition exec_plan (pl : plan) (fs : node) : result unit * node :=
  match pl with
  | Skip => (Ok (), fs)
  | Abort e => (Throw e, fs)
  | Store target data =>
      match prepare target fs with
      | (Throw e, fs1) => (Throw e, fs1)
      | (Ok _, fs1) =>
          match data with
          | Throw e => (Throw e, fs1)
          | Ok s => Fs.writeSync target s fs1
          end
      end
  end.

Fixpoint exec_plans (pls : list plan) (fs : node) : result unit * node :=
  match pls with
  | [] => (Ok (), fs)
  | pl :: rest =>
      match exec_plan pl fs with
      | (Ok _, fs1) => exec_plans rest fs1
      | (Throw e, fs1) => (Throw e, fs1)
      end
  end.

(** The result and the disk of a computation started in [w]. *)
Definition outcome {A} (m : io A) (w : world) : result A * node :=
  (fst (m w), disk (snd (m w))).

(** What step 2 of [generateProject] finds at the path of the input
    file: no file, a file that cannot be read, a text that [JSON.parse]
    refuses, or a value. *)
Inductive json_file :=
| Absent
| Unreadable (e : exn)
| Garbled (msg : string)
| Parsed (projectData : value).

Definition input (parse : string → result value) (fs : node) (p : path) : json_file :=
  if Fs.existsSync fs p then
    match Fs.readSync p fs with
    | Throw e => Unreadable e
    | Ok rawData =>
        match parse rawData with
        | Ok projectData => Parsed projectData
        | Throw (SyntaxError msg) => Garbled msg
        | Throw e => Unreadable e
        end
    end
  else Absent.

(** The entries of an input the validation accepts. *)
Definition accepted (input : json_file) : option (list value) :=
  match input with
  | Parsed projectData =>
      match Js.get projectData "project_files" with
      | Ok (Some (VArr files)) => Some files
      | _ => None
      end
  | _ => None
  end.

(** The effect of a whole run on the disk, for the entries [files]. *)
Definition exec_run (projectRoot : path) (files : list value) (fs : node)
    : result unit * node :=
  match (if Fs.existsSync fs projectRoot then (Ok (), fs)
         else Fs.mkdirSync projectRoot fs) with
  | (Throw e, fs1) => (Throw e, fs1)
  | (Ok _, fs1) => exec_plans (map (classify projectRoot) files) fs1
  end.

(** An input the validation turns down: text that is no JSON, a value
    without the key [project_files] ([null] has no keys at all), or a
    [project_files] that is no array. *)
Inductive rejected : json_file → Prop :=
| rejected_garbled msg : rejected (Garbled msg)
| rejected_null : rejected (Parsed VNull)
| rejected_no_key projectData :
    Js.get projectData "project_files" = Ok None → rejected (Parsed projectData)
| rejected_no_array projectData v :
    Js.get projectData "project_files" = Ok (Some v) → isArray (Some v) = false →
    rejected (Parsed projectData).

(** The paths at which a run of plans wrote a file. *)
Fixpoint written (pls : list plan) (fs : node) : list path :=
  match pls with
  | [] => []
  | pl :: rest =>
      match exec_plan pl fs with
      | (Ok _, fs1) =>
          match pl with
          | Store target _ => target :: written rest fs1
          | _ => written rest fs1
          end
      | (Throw _, _) => []
      end
  end.

(** Several contents replaced, the first of the list last. *)
Definition puts (changes : list (path * string)) (fs : node) : node :=
  foldr (λ change acc, put change.1 change.2 acc) fs changes.

(** [process.argv[3] || 'generated-project']. *)
Definition default_dir (argv3 : option string) : string :=
  match argv3 with
  | Some s => if bool_decide (s = "") then "generated-project" else s
  | None => "generated-project"
  end.

(** The bytes of the text of a path, but for [/] itself. *)
Definition weight (p : path) : nat :=
  foldr (λ seg acc, S (String.length seg + acc)) 0%nat p.

(** ** Writing, then reading *)

(** A name whose segments are plain: none is empty, [.] or [..] (so the
    name neither starts nor ends with a separator and [path.join] keeps it
    as it is), and none is [__proto__] (which the reader cannot bind). *)
Definition plain_segment (seg : string) : Prop :=
  seg ≠ "" ∧ seg ≠ "." ∧ seg ≠ ".." ∧ seg ≠ "__proto__".

Definition plain (name : string) : Prop :=
  Forall plain_segment (Path.split name).

(** The entry [{ "name": name, "content": content }] and the document
    [{ "project_files": files }]. *)
Definition entry (name content : string) : value :=
  VObj {[ "name" := VStr name; "content" := VStr content ]}.

Definition document (files : list value) : json_file :=
  Parsed (VObj {[ "project_files" := VArr files ]}).


(** [file] has a name that is a string, of bytes [s], and a content that
    is a string, of bytes [data]: well-formed or not. *)
Definition named (file : value) (s : string) : Prop :=
  ∃ name, Js.get file "name" = Ok name ∧ Js.text name = Some s.

Definition holds (file : value) (data : string) : Prop :=
  ∃ content, Js.get file "content" = Ok content ∧ Js.text content = Some data.




(** ** The reader script *)

Import ReadProject.

(** The tree [createDummyProject] leaves at the path it is given. *)
Definition dummy_project : node :=
  Dir {[ "package.json" := File package_json;
         "src" := Dir {[ "index.js" := File index_js; "utils.js" := File utils_js ]};
         "test" := Dir {[ "utils.test.js" := File utils_test_js ]} ]}.

(** ** The texts of the examples *)

(** A name of 256 bytes, and the three bytes of U+FFFD, which Node.js
    writes in place of a lone surrogate. *)
Definition long_name : string := String.concat "" (replicate 256 "n").

Definition replacement : string :=
  String "239"%char (String "191"%char (String "189"%char "")).

(** The JSON text of a string without control characters: the quotation
    mark and the backslash are escaped. *)
Fixpoint escape (s : string) : string :=
  match s with
  | EmptyString => ""
  | String c rest =>
      if bool_decide (c = "034"%char ∨ c = "\"%char)
      then String "\"%char (String c (escape rest))
      else String c (escape rest)
  end.

Definition jstr (s : string) : string := dq +:+ escape s +:+ dq.

Definition jarr (items : list string) : string :=
  "[" +:+ String.concat "," items +:+ "]".

Definition jobj (props : list (string * string)) : string :=
  "{" +:+ String.concat "," (map (λ kv, jstr kv.1 +:+ ":" +:+ kv.2) props) +:+ "}".

(** The text of the document that lists the entries [es] (name and
    content). *)
Definition document_text (es : list (string * string)) : string :=
  jobj [("project_files",
         jarr (map (λ e, jobj [("name", jstr e.1); ("content", jstr e.2)]) es))].

(** [JSON.parse] as far as an example needs it: the texts the example
    reads, each with its value. *)
Definition parse_table (table : list (string * value)) (rawData : string)
    : result value :=
  match list_find (λ kv, kv.1 = rawData) table with
  | Some (_, kv) => Ok kv.2
  | None => Throw (SyntaxError "Unexpected token")
  end.

(** [JSON.parse] on the documents that list the given entries. *)
Definition parse_documents (docs : list (list (string * string))) : string → result value :=
  parse_table (map (λ es, (document_text es, match document (map (λ e, entry e.1 e.2) es) with
                                              | Parsed v => v
                                              | _ => VNull
                                              end)) docs).

(** A disk that holds a document at [/in.json], beside [entries]. *)
Definition with_document (text : string) (entries : gmap string node) : node :=
  Dir (<["in.json" := File text]> entries).

(** ** More vocabulary *)


(** An element of [project_files] that [process_file] neither skips nor
    can ever write: [null]; an entry with a content whose name is truthy
    and no string; an entry with a name whose content is defined and no
    string; an entry with a content whose name ends in a separator. *)
Inductive unwritable : value → Prop :=
| unwritable_null : unwritable VNull
| unwritable_name file name c :
    Js.get file "name" = Ok name → truthy name = true →
    Js.text name = None → Js.get file "content" = Ok (Some c) →
    unwritable file
| unwritable_content file name s c :
    Js.get file "name" = Ok name → Js.text name = Some s → s ≠ "" →
    Js.get file "content" = Ok (Some c) → Js.text (Some c) = None →
    unwritable file
| unwritable_trailing file name s c :
    Js.get file "name" = Ok name → Js.text name = Some s → s ≠ "" →
    Js.get file "content" = Ok (Some c) → last (Path.split s) = Some "" →
    unwritable file.

(** An element of [project_files] that [process_file] skips: its name is
    falsy (missing, [null], [false], [0] or the empty string), or it has
    no content. *)
Definition skipped (file : value) : Prop :=
  ∃ name, Js.get file "name" = Ok name ∧
          (truthy name = false ∨ Js.get file "content" = Ok None).


(** A plan that fails on every disk. *)
Definition failing (pl : plan) : Prop :=
  match pl with
  | Abort _ | Store _ (Throw _) => True
  | _ => False
  end.

(** [error instanceof SyntaxError]. *)
Definition is_syntax_error (e : exn) : bool :=
  match e with SyntaxError _ => true | _ => false end.

(** What [readDirectoryStructure] returns on the tree of
    [createDummyProject]. *)
Definition dummy_reading : value :=
  VObj {[ "package.json" := VStr package_json;
          "src" := VObj {[ "index.js" := VStr index_js; "utils.js" := VStr utils_js ]};
          "test" := VObj {[ "utils.test.js" := VStr utils_test_js ]} ]}.

(** Whether [rmSync] can remove a tree: no directory in it is without
    permissions. *)
Fixpoint removable (n : node) : bool :=
  match n with
  | Dir entries => map_fold (λ _ child acc, removable child && acc) true entries
  | NoListDir _ => false
  | _ => true
  end.

(** How deep a tree is. *)
Fixpoint depth (n : node) : nat :=
  match n with
  | Dir entries => S (map_fold (λ _ child acc, depth child `max` acc) 0%nat entries)
  | _ => 0%nat
  end.

(** The calls of [fs] on a text that is not normalised, where every
    component the text names before a [..] is a directory: there the text
    leads where its normalised form leads. *)
Definition lexical_calls : typed_calls :=
  {| typed_exists s fs := Fs.existsSync fs (Path.resolve [] s);
     typed_rm s := Fs.rmSync (Path.resolve [] s);
     typed_mkdirp s := Fs.mkdirpSync (Path.resolve [] s);
     typed_readdir s fs :=
       match lookup (Path.resolve [] s) fs with
       | Some (Dir entries) => Ok (map fst (map_to_list entries))
       | Some (NoListDir msg) | Some (NoStat msg) => Throw (Error msg)
       | Some _ => Throw (Error "ENOTDIR: not a directory, scandir")
       | None => Throw (Error "ENOENT: no such file or directory, scandir")
       end |}.

(** The root handed to the reader cannot be listed. *)
Definition unlistable (typed : typed_calls) (projectPath : handed) (fs : node) : Prop :=
  match projectPath with
  | Plain p => ∀ entries, lookup p fs ≠ Some (Dir entries)
  | Typed s => ∃ e, typed_readdir typed s fs = Throw e
  end.

(** The paths [createDummyProject] uses below [p] are names the calls
    take. *)
Definition fits (p : path) : bool :=
  forallb (λ q, nameable (p ++ q))
    [["package.json"]; ["src"; "index.js"]; ["src"; "utils.js"]; ["test"; "utils.test.js"]].

(** The file the reader script saves the JSON to. *)
Definition save_path (dirname : path) : path := dirname ++ ["project-structure.json"].

(** [JSON.stringify] as far as an example needs it: the text saved is not
    looked at. *)
Definition stringify_any (v : value) : string := "{}".

(** * Properties *)

(** ** The reader on one directory *)

Lemma read_node_Dir entries :
  read_node (Dir entries) =
    match map_fold (visit read_node) (Ok ∅) entries with
    | Ok obj => VObj obj
    | Throw dirError => error_marker dirError
    end.
Proof. reflexivity. Qed.

Lemma visit_Throw recur item child e :
  visit recur item child (Throw e) = Throw e.
Proof. reflexivity. Qed.

Lemma visit_Ok item child obj :
  visit read_node item child (Ok obj) =
    match child with
    | NoStat msg => Throw (Error msg)
    | _ => Ok (match entry_value child with
               | Some v => Js.set item v obj
               | None => obj
               end)
    end.
Proof. by destruct child. Qed.

(** The loop over a directory, characterised: either some entry cannot be
    statted and the loop leaves with that exception, or every entry has
    its value under its name, the name [__proto__] excepted. *)
Lemma forEach_visit entries :
  match map_fold (visit read_node) (Ok ∅) entries with
  | Ok obj =>
      (∀ k child, entries !! k = Some child → stat_ok child) ∧
      (∀ k, obj !! k =
            if decide (k = "__proto__") then None else entries !! k ≫= entry_value)
  | Throw e => ∃ k msg, entries !! k = Some (NoStat msg) ∧ e = Error msg
  end.
Proof.
  apply (map_fold_weak_ind (λ r m,
    match r with
    | Ok obj =>
        (∀ k child, m !! k = Some child → stat_ok child) ∧
        (∀ k, obj !! k =
              if decide (k = "__proto__") then None else m !! k ≫= entry_value)
    | Throw e => ∃ k msg, m !! k = Some (NoStat msg) ∧ e = Error msg
    end)).
  - split; [intros k child; by rewrite lookup_empty|].
    intros k. rewrite !lookup_empty. by case_decide.
  - intros i x m [obj|e] Hi IH.
    + destruct IH as [Hstat Hobj]. rewrite visit_Ok.
      assert (Hcase : (∃ msg, x = NoStat msg) ∨ stat_ok x)
        by (destruct x; simpl; eauto).
      destruct Hcase as [[msg ->]|Hok].
      { exists i, msg. by rewrite lookup_insert_eq. }
      replace (match x with NoStat msg => Throw (Error msg) | _ => _ end)
        with (Ok (A:=gmap string value)
                (match entry_value x with Some v => Js.set i v obj | None => obj end))
        by (by destruct x).
      split.
      { intros k child. rewrite lookup_insert. case_decide; naive_solver. }
      intros k. rewrite lookup_insert. unfold Js.set.
      destruct (entry_value x) as [v|] eqn:Hv;
        repeat case_decide; simplify_eq;
        rewrite ?lookup_insert_eq, ?lookup_insert_ne by done;
        rewrite ?Hobj; repeat case_decide; simplify_eq/=; try done.
      all: try (by rewrite Hv). all: try (by rewrite Hi).
    + destruct IH as (k & msg & Hk & ->). rewrite visit_Throw.
      exists k, msg. split; [|done].
      rewrite lookup_insert_ne; [done|]. intros ->. by rewrite Hi in Hk.
Qed.

Lemma read_node_listed entries :
  (∀ k child, entries !! k = Some child → stat_ok child) →
  ∃ obj, read_node (Dir entries) = VObj obj ∧
    ∀ k, obj !! k =
         if decide (k = "__proto__") then None else entries !! k ≫= entry_value.
Proof.
  intros Hstat. rewrite read_node_Dir.
  pose proof (forEach_visit entries) as Hloop.
  destruct (map_fold _ _ entries) as [obj|e].
  - exists obj. by destruct Hloop.
  - destruct Hloop as (k & msg & Hk & _). by destruct (Hstat _ _ Hk).
Qed.

Lemma read_node_stat_failure entries item msg :
  entries !! item = Some (NoStat msg) →
  ∃ item' msg', entries !! item' = Some (NoStat msg') ∧
    read_node (Dir entries) = error_marker (Error msg').
Proof.
  intros Hitem. rewrite read_node_Dir.
  pose proof (forEach_visit entries) as Hloop.
  destruct (map_fold _ _ entries) as [obj|e].
  - destruct Hloop as [Hstat _]. by destruct (Hstat _ _ Hitem).
  - destruct Hloop as (k & msg' & Hk & ->). eauto.
Qed.

Lemma at_path_error_marker e k :
  k ≠ "error" → Js.at_path [k] (error_marker e) = None.
Proof. intros Hk. simpl. by rewrite lookup_singleton_ne. Qed.

(** The reader never raises: when the directory cannot be listed, the
    result is the error marker. *)
Lemma unlistable_gives_marker fs dirPath :
  (∀ entries, lookup dirPath fs ≠ Some (Dir entries)) →
  ∃ e, readDirectoryStructure fs dirPath = error_marker e.
Proof.
  intros Hdir. unfold readDirectoryStructure.
  destruct (lookup dirPath fs) as [[]|]; simpl; eauto. by destruct (Hdir entries).
Qed.

(** Isolation of a failing file read: in a directory whose entries can all
    be statted, the value of every entry is bound to its name, the error
    text for the file that cannot be read, the name [__proto__] excepted. *)
Lemma file_read_failure_is_isolated fs dirPath entries :
  lookup dirPath fs = Some (Dir entries) →
  (∀ k child, entries !! k = Some child → stat_ok child) →
  ∃ obj, readDirectoryStructure fs dirPath = VObj obj ∧
    (∀ k content, k ≠ "__proto__" → entries !! k = Some (File content) →
       obj !! k = Some (VStr content)) ∧
    (∀ k msg, k ≠ "__proto__" → entries !! k = Some (NoReadFile msg) →
       obj !! k = Some (VStr ("Error reading file: " +:+ msg))) ∧
    (∀ k sub, k ≠ "__proto__" → entries !! k = Some (Dir sub) →
       obj !! k = Some (read_node (Dir sub))) ∧
    (∀ k, entries !! k = None → obj !! k = None).
Proof.
  intros Hdir Hstat. unfold readDirectoryStructure. rewrite Hdir.
  destruct (read_node_listed entries Hstat) as (obj & -> & Hobj).
  exists obj. split; [done|].
  repeat split; intros k; intros; rewrite Hobj; case_decide; simplify_eq;
    try done; by simplify_option_eq.
Qed.

(** ** What the specification says of the reader *)

(** C9. If [statSync] fails on any single entry of a directory (a dangling
    link, say), [readDirectoryStructure] returns for that whole directory
    one error-marker object, built from the message of a failing entry: no
    sibling, read before or not, has an entry in it. *)
Theorem stat_failure_discards_directory fs dirPath entries item msg :
  lookup dirPath fs = Some (Dir entries) →
  entries !! item = Some (NoStat msg) →
  (∃ item' msg', entries !! item' = Some (NoStat msg') ∧
     readDirectoryStructure fs dirPath = error_marker (Error msg')) ∧
  (∀ sibling, sibling ≠ "error" →
     Js.at_path [sibling] (readDirectoryStructure fs dirPath) = None).
Proof.
  intros Hdir Hitem. unfold readDirectoryStructure. rewrite Hdir.
  destruct (read_node_stat_failure _ _ _ Hitem) as (item' & msg' & Hitem' & Hread).
  split; [eauto|].
  intros sibling Hsibling. rewrite Hread. by apply at_path_error_marker.
Qed.

Lemma stat_failure_discards_directory_witness :
  let entries : gmap string node :=
    {[ "a.txt" := File "alpha"; "dangling" := NoStat "ENOENT: no such file or directory, stat" ]} in
  let fs := Dir {[ "proj" := Dir entries ]} in
  (∃ item' msg', entries !! item' = Some (NoStat msg') ∧
     readDirectoryStructure fs ["proj"] = error_marker (Error msg')) ∧
  (∀ sibling, sibling ≠ "error" →
     Js.at_path [sibling] (readDirectoryStructure fs ["proj"]) = None).
Proof.
  intros entries fs.
  apply (stat_failure_discards_directory fs ["proj"] entries "dangling"
           "ENOENT: no such file or directory, stat"); reflexivity.
Defined.

(** C4, evaluated where it fails.  A directory holds [a.txt], a file
    [b.txt] whose read fails, and a readable file named [__proto__]: the
    failing file has its error text and [a.txt] its content, but the
    sibling [__proto__] has no entry in the mapping returned. *)
Theorem proto_sibling_is_lost :
  let fs := Dir {[ "proj" := Dir {[ "a.txt" := File "alpha";
                                    "b.txt" := NoReadFile "EACCES: permission denied, open";
                                    "__proto__" := File "omega" ]} ]} in
  readDirectoryStructure fs ["proj"] =
    VObj {[ "a.txt" := VStr "alpha";
            "b.txt" := VStr "Error reading file: EACCES: permission denied, open" ]} ∧
  Js.at_path ["__proto__"] (readDirectoryStructure fs ["proj"]) = None.
Proof. split; vm_compute; reflexivity. Qed.

(** ** The system calls on the tree *)

Lemma lookup_cons x rest entries :
  lookup (x :: rest) (Dir entries) = entries !! x ≫= lookup rest.
Proof. reflexivity. Qed.

Lemma lookup_cons_Some x rest n m :
  lookup (x :: rest) n = Some m →
  ∃ entries child, n = Dir entries ∧ entries !! x = Some child ∧ lookup rest child = Some m.
Proof.
  destruct n; simpl; try done. intros H.
  destruct (entries !! x) as [child|] eqn:Hx; simpl in H; [|done]. eauto.
Qed.

Lemma lookup_app p q n :
  lookup (p ++ q) n = lookup p n ≫= lookup q.
Proof.
  revert n. induction p as [|x p IH]; intros n; [done|].
  destruct n; simpl; try done.
  destruct (entries !! x); simpl; [apply IH|done].
Qed.

Lemma lookup_below_file p q content n :
  lookup p n = Some (File content) → q ≠ [] → lookup (p ++ q) n = None.
Proof.
  intros Hp Hq. rewrite lookup_app, Hp. simpl. by destruct q.
Qed.

Lemma bind_Ok {A B} (r : result A) (k : A → result B) b :
  r ≫= k = Ok b → ∃ a, r = Ok a ∧ k a = Ok b.
Proof. destruct r as [a|e]; [eauto|done]. Qed.

(** *** [writeFile] *)

Lemma writeFile_inv x rest data fs fs' :
  writeFile (x :: rest) data fs = Ok fs' →
  ∃ entries, fs = Dir entries ∧
    ((rest = [] ∧ (entries !! x = None ∨ is_file (entries !! x)) ∧
      fs' = Dir (<[x := File data]> entries)) ∨
     (rest ≠ [] ∧ ∃ child child', entries !! x = Some child ∧
      writeFile rest data child = Ok child' ∧ fs' = Dir (<[x := child']> entries))).
Proof.
  intros H. destruct fs; try (by destruct rest).
  exists entries. split; [done|]. destruct rest as [|y rest].
  - left. simpl in H. unfold is_file. destruct (short x); [|done].
    destruct (entries !! x) as [[]|]; simplify_eq; eauto.
  - right. split; [done|].
    change (writeFile (x :: y :: rest) data (Dir entries))
      with (if short x then
              match entries !! x with
              | Some child => writeFile (y :: rest) data child ≫=
                              λ child', Ok (Dir (<[x := child']> entries))
              | None => Throw (Error "ENOENT: no such file or directory, open")
              end
            else Throw (Error "ENAMETOOLONG: name too long, open")) in H.
    destruct (short x); [|done].
    destruct (entries !! x) as [child|]; [|done].
    apply bind_Ok in H as (child' & Hchild & ?). simplify_eq. eauto.
Qed.

Lemma writeFile_long x rest data entries :
  short x = false →
  writeFile (x :: rest) data (Dir entries)
    = Throw (Error "ENAMETOOLONG: name too long, open").
Proof. intros Hx. destruct rest; simpl; by rewrite Hx. Qed.

Lemma writeFile_short p data fs fs' :
  writeFile p data fs = Ok fs' → forallb short p = true.
Proof.
  revert fs fs'. induction p as [|x rest IH]; intros fs fs' H; [done|].
  destruct fs; try (by destruct rest). simpl.
  destruct (short x) eqn:Hx; [|by rewrite writeFile_long in H]. simpl.
  apply writeFile_inv in H
    as (entries' & _ & [(-> & _)|(_ & child & child' & _ & Hchild & _)]); [done|].
  by eapply IH.
Qed.

Lemma writeFile_last x data entries :
  short x = true → entries !! x = None ∨ is_file (entries !! x) →
  writeFile [x] data (Dir entries) = Ok (Dir (<[x := File data]> entries)).
Proof. simpl. intros ->. by intros [->|[c ->]]. Qed.

Lemma writeFile_step x y rest data entries child child' :
  short x = true → entries !! x = Some child →
  writeFile (y :: rest) data child = Ok child' →
  writeFile (x :: y :: rest) data (Dir entries) = Ok (Dir (<[x := child']> entries)).
Proof.
  intros Hshort Hx Hchild.
  change (writeFile (x :: y :: rest) data (Dir entries))
    with (if short x then
            match entries !! x with
            | Some child => writeFile (y :: rest) data child ≫=
                            λ child', Ok (Dir (<[x := child']> entries))
            | None => Throw (Error "ENOENT: no such file or directory, open")
            end
          else Throw (Error "ENAMETOOLONG: name too long, open")).
  by rewrite Hshort, Hx, Hchild.
Qed.

Lemma writeFile_target p data fs fs' :
  writeFile p data fs = Ok fs' → lookup p fs' = Some (File data).
Proof.
  revert fs fs'. induction p as [|x rest IH]; intros fs fs' H; [done|].
  apply writeFile_inv in H
    as (entries & -> & [(-> & _ & ->)|(_ & child & child' & Hx & Hchild & ->)]);
    rewrite lookup_cons, lookup_insert_eq; simpl; eauto.
Qed.

(** Everything above the file written was a directory, and is one. *)
Lemma writeFile_above p data fs fs' q :
  writeFile p data fs = Ok fs' → q `prefix_of` p → q ≠ p →
  is_dir (lookup q fs) ∧ is_dir (lookup q fs').
Proof.
  revert fs fs' q. induction p as [|x rest IH]; intros fs fs' q H Hq Hne.
  { apply prefix_nil_inv in Hq. done. }
  apply writeFile_inv in H
    as (entries & -> & [(-> & _ & ->)|(_ & child & child' & Hx & Hchild & ->)]).
  - destruct q as [|y q]; [unfold is_dir; simpl; eauto|].
    pose proof (prefix_cons_inv_1 _ _ _ _ Hq) as ->.
    apply prefix_cons_inv_2, prefix_nil_inv in Hq as ->. done.
  - destruct q as [|y q]; [unfold is_dir; simpl; eauto|].
    pose proof (prefix_cons_inv_1 _ _ _ _ Hq) as ->.
    apply prefix_cons_inv_2 in Hq.
    rewrite !lookup_cons, lookup_insert_eq, Hx. simpl.
    apply (IH child child' q); [done..|]. by intros ->.
Qed.

(** Nothing else changes. *)
Lemma writeFile_frame p data fs fs' q :
  writeFile p data fs = Ok fs' → ¬ q `prefix_of` p →
  lookup q fs' = lookup q fs.
Proof.
  revert fs fs' q. induction p as [|x rest IH]; intros fs fs' q H Hq; [done|].
  destruct q as [|y q]; [by destruct Hq; apply prefix_nil|].
  apply writeFile_inv in H
    as (entries & -> & [(-> & Hx & ->)|(_ & child & child' & Hx & Hchild & ->)]);
    rewrite !lookup_cons; destruct (decide (y = x)) as [->|Hy];
    rewrite ?lookup_insert_eq, ?lookup_insert_ne by done; try done; simpl.
  - destruct q as [|z q]; [by destruct Hq|].
    destruct Hx as [->|[c ->]]; done.
  - rewrite Hx. simpl. apply (IH child); [done|].
    intros Hp. apply Hq. by apply prefix_cons.
Qed.

(** *** [mkdirp] and [mkdir] *)

Lemma mkdirp_inv_nil fs fs' : mkdirp [] fs = Ok fs' → fs' = fs ∧ stat fs = Ok IsDirectory.
Proof. destruct fs; simpl; intros; by simplify_eq. Qed.

Lemma mkdirp_short p fs fs' : mkdirp p fs = Ok fs' → forallb short p = true.
Proof.
  revert fs fs'. induction p as [|x rest IH]; intros fs fs' H; [done|].
  destruct fs; try done. simpl in *. destruct (short x); [|done]. simpl.
  destruct (mkdirp rest _) as [child'|] eqn:Hchild; [|done]. by eapply IH.
Qed.

Lemma mkdirp_inv x rest fs fs' :
  mkdirp (x :: rest) fs = Ok fs' →
  ∃ entries child', fs = Dir entries ∧
    mkdirp rest (default (Dir ∅) (entries !! x)) = Ok child' ∧
    fs' = Dir (<[x := child']> entries).
Proof.
  destruct fs; try done. intros H. simpl in H. destruct (short x); [|done].
  apply bind_Ok in H as (child' & Hchild & ?). simplify_eq. eauto.
Qed.

Lemma mkdirp_cons x rest entries child' :
  short x = true →
  mkdirp rest (default (Dir ∅) (entries !! x)) = Ok child' →
  mkdirp (x :: rest) (Dir entries) = Ok (Dir (<[x := child']> entries)).
Proof. intros Hx H. simpl. by rewrite Hx, H. Qed.

Lemma lookup_empty_dir q : q ≠ [] → lookup q (Dir ∅) = None.
Proof. destruct q; [done|]. intros _. by rewrite lookup_cons, lookup_empty. Qed.

Lemma mkdirp_frame p fs fs' q :
  mkdirp p fs = Ok fs' → ¬ q `prefix_of` p → lookup q fs' = lookup q fs.
Proof.
  revert fs fs' q. induction p as [|x rest IH]; intros fs fs' q H Hq.
  { by apply mkdirp_inv_nil in H as [-> _]. }
  destruct q as [|y q]; [by destruct Hq; apply prefix_nil|].
  apply mkdirp_inv in H as (entries & child' & -> & Hchild & ->).
  rewrite !lookup_cons. destruct (decide (y = x)) as [->|Hy].
  - rewrite lookup_insert_eq. simpl.
    assert (Hq' : ¬ q `prefix_of` rest) by (intros Hp; apply Hq; by apply prefix_cons).
    rewrite (IH _ _ q Hchild Hq').
    destruct (entries !! x); simpl; [done|].
    apply lookup_empty_dir. intros ->. apply Hq', prefix_nil.
  - by rewrite lookup_insert_ne.
Qed.

(** The directory asked for exists afterwards, and so does everything
    above it. *)
Lemma mkdirp_target p fs fs' :
  mkdirp p fs = Ok fs' → ∃ n, lookup p fs' = Some n ∧ stat n = Ok IsDirectory.
Proof.
  revert fs fs'. induction p as [|x rest IH]; intros fs fs' H.
  { apply mkdirp_inv_nil in H as [-> ?]. eauto. }
  apply mkdirp_inv in H as (entries & child' & -> & Hchild & ->).
  rewrite lookup_cons, lookup_insert_eq. simpl. eauto.
Qed.

Lemma mkdirp_above p fs fs' q :
  mkdirp p fs = Ok fs' → q `prefix_of` p → q ≠ p → is_dir (lookup q fs').
Proof.
  revert fs fs' q. induction p as [|x rest IH]; intros fs fs' q H Hq Hne.
  { by apply prefix_nil_inv in Hq. }
  apply mkdirp_inv in H as (entries & child' & -> & Hchild & ->).
  destruct q as [|y q]; [unfold is_dir; simpl; eauto|].
  pose proof (prefix_cons_inv_1 _ _ _ _ Hq) as ->.
  apply prefix_cons_inv_2 in Hq.
  rewrite lookup_cons, lookup_insert_eq. simpl.
  apply (IH _ child' q Hchild Hq). by intros ->.
Qed.

(** What was on the way to the directory asked for was a directory. *)
Lemma mkdirp_way p fs fs' q n :
  mkdirp p fs = Ok fs' → q `prefix_of` p → lookup q fs = Some n →
  stat n = Ok IsDirectory.
Proof.
  revert fs fs' q. induction p as [|x rest IH]; intros fs fs' q H Hq Hn.
  { apply prefix_nil_inv in Hq as ->. apply mkdirp_inv_nil in H as [_ ?].
    by simplify_eq/=. }
  apply mkdirp_inv in H as (entries & child' & -> & Hchild & ->).
  destruct q as [|y q]; [by simplify_eq/=|].
  pose proof (prefix_cons_inv_1 _ _ _ _ Hq) as ->.
  apply prefix_cons_inv_2 in Hq.
  rewrite lookup_cons in Hn. destruct (entries !! x) as [child|]; [|done].
  simpl in *. by apply (IH child child' q).
Qed.

Lemma mkdirp_existing p fs n :
  forallb short p = true →
  lookup p fs = Some n → stat n = Ok IsDirectory → mkdirp p fs = Ok fs.
Proof.
  revert fs. induction p as [|x rest IH]; intros fs Hshort Hn Hstat.
  { simpl in Hn. simplify_eq. by destruct n. }
  apply andb_true_iff in Hshort as [Hx' Hshort].
  apply lookup_cons_Some in Hn as (entries & child & -> & Hx & Hchild).
  rewrite (mkdirp_cons x rest entries child).
  - by rewrite insert_id.
  - done.
  - rewrite Hx. simpl. by apply IH.
Qed.

Lemma mkdir_inv x rest fs fs' :
  mkdir (x :: rest) fs = Ok fs' →
  ∃ entries, fs = Dir entries ∧
    ((rest = [] ∧ entries !! x = None ∧ fs' = Dir (<[x := Dir ∅]> entries)) ∨
     (rest ≠ [] ∧ ∃ child child', entries !! x = Some child ∧
      mkdir rest child = Ok child' ∧ fs' = Dir (<[x := child']> entries))).
Proof.
  intros H. destruct fs; try (by destruct rest).
  exists entries. split; [done|]. destruct rest as [|y rest].
  - left. simpl in H. destruct (short x); [|done].
    destruct (entries !! x); simplify_eq; eauto.
  - right. split; [done|].
    change (mkdir (x :: y :: rest) (Dir entries))
      with (if short x then
              match entries !! x with
              | Some child => mkdir (y :: rest) child ≫=
                              λ child', Ok (Dir (<[x := child']> entries))
              | None => Throw (Error "ENOENT: no such file or directory, mkdir")
              end
            else Throw (Error "ENAMETOOLONG: name too long, mkdir")) in H.
    destruct (short x); [|done].
    destruct (entries !! x) as [child|]; [|done].
    apply bind_Ok in H as (child' & Hchild & ?). simplify_eq. eauto.
Qed.

Lemma mkdir_long x rest entries :
  short x = false →
  mkdir (x :: rest) (Dir entries) = Throw (Error "ENAMETOOLONG: name too long, mkdir").
Proof. intros Hx. destruct rest; simpl; by rewrite Hx. Qed.

Lemma mkdir_short p fs fs' : mkdir p fs = Ok fs' → forallb short p = true.
Proof.
  revert fs fs'. induction p as [|x rest IH]; intros fs fs' H; [done|].
  destruct fs; try (by destruct rest). simpl.
  destruct (short x) eqn:Hx; [|by rewrite mkdir_long in H]. simpl.
  apply mkdir_inv in H
    as (entries' & _ & [(-> & _)|(_ & child & child' & _ & Hchild & _)]); [done|].
  by eapply IH.
Qed.

(** Where [mkdir] succeeds, [mkdirp] does the same. *)
Lemma mkdir_mkdirp p fs fs' : mkdir p fs = Ok fs' → mkdirp p fs = Ok fs'.
Proof.
  revert fs fs'. induction p as [|x rest IH]; intros fs fs' H; [done|].
  pose proof (mkdir_short _ _ _ H) as [Hshort _]%andb_true_iff.
  apply mkdir_inv in H
    as (entries & -> & [(-> & Hx & ->)|(_ & child & child' & Hx & Hchild & ->)]).
  - apply mkdirp_cons; [done|]. by rewrite Hx.
  - apply mkdirp_cons; [done|]. rewrite Hx. simpl. by apply IH.
Qed.

Lemma mkdir_target p fs fs' : mkdir p fs = Ok fs' → lookup p fs' = Some (Dir ∅).
Proof.
  revert fs fs'. induction p as [|x rest IH]; intros fs fs' H; [done|].
  apply mkdir_inv in H
    as (entries & -> & [(-> & Hx & ->)|(_ & child & child' & Hx & Hchild & ->)]);
    rewrite lookup_cons, lookup_insert_eq; simpl; eauto.
Qed.

(** *** When a file can be written *)

Lemma clear_way_inv x rest fs :
  clear_way (x :: rest) fs = true →
  ∃ entries, fs = Dir entries ∧
    match rest with
    | [] => entries !! x = None ∨ is_file (entries !! x)
    | _ :: _ => entries !! x = None ∨
                ∃ child, entries !! x = Some child ∧ clear_way rest child = true
    end.
Proof.
  destruct fs; try (by destruct rest). intros H. exists entries. split; [done|].
  destruct rest as [|y rest].
  - simpl in H. unfold is_file. destruct (entries !! x) as [[]|]; simplify_eq; eauto.
  - change (match entries !! x with
            | None => true
            | Some child => clear_way (y :: rest) child
            end = true) in H.
    destruct (entries !! x); eauto.
Qed.

Lemma clear_way_cons x y rest entries child :
  entries !! x = Some child →
  clear_way (x :: y :: rest) (Dir entries) = clear_way (y :: rest) child.
Proof.
  intros Hx.
  change (clear_way (x :: y :: rest) (Dir entries))
    with (match entries !! x with
          | None => true
          | Some child => clear_way (y :: rest) child
          end).
  by rewrite Hx.
Qed.

Lemma clear_way_empty p : p ≠ [] → clear_way p (Dir ∅) = true.
Proof.
  destruct p as [|x [|y rest]]; [done|..]; intros _.
  - simpl. by rewrite lookup_empty.
  - change (match (∅ : gmap string node) !! x with
            | None => true
            | Some child => clear_way (y :: rest) child
            end = true).
    by rewrite lookup_empty.
Qed.

(** The directory of a path whose way is clear can be made, and the way
    stays clear. *)
Lemma clear_way_mkdirp p fs :
  forallb short (removelast p) = true → clear_way p fs = true →
  ∃ fs1, mkdirp (removelast p) fs = Ok fs1 ∧ clear_way p fs1 = true ∧
         is_dir (lookup (removelast p) fs1).
Proof.
  revert fs. induction p as [|x rest IH]; intros fs Hshort Hw; [done|].
  apply clear_way_inv in Hw as (entries & -> & Hw).
  destruct rest as [|y rest].
  { exists (Dir entries). repeat split; unfold is_dir; simpl; eauto.
    destruct Hw as [->|[c ->]]; done. }
  change (removelast (x :: y :: rest)) with (x :: removelast (y :: rest)) in Hshort.
  apply andb_true_iff in Hshort as [Hx Hshort].
  assert (Hchild : clear_way (y :: rest) (default (Dir ∅) (entries !! x)) = true).
  { destruct Hw as [->|(child & -> & ?)]; [by apply clear_way_empty|done]. }
  destruct (IH _ Hshort Hchild) as (child1 & Hmk & Hw1 & Hdir).
  exists (Dir (<[x := child1]> entries)).
  change (removelast (x :: y :: rest)) with (x :: removelast (y :: rest)).
  split; [by apply mkdirp_cons|]. split.
  - by rewrite (clear_way_cons _ _ _ _ child1) by apply lookup_insert_eq.
  - by rewrite lookup_cons, lookup_insert_eq.
Qed.

Lemma clear_way_writeFile p data fs :
  forallb short p = true →
  clear_way p fs = true → is_dir (lookup (removelast p) fs) →
  ∃ fs', writeFile p data fs = Ok fs'.
Proof.
  revert fs. induction p as [|x rest IH]; intros fs Hshort Hw Hdir; [done|].
  apply andb_true_iff in Hshort as [Hx' Hshort].
  apply clear_way_inv in Hw as (entries & -> & Hw).
  destruct rest as [|y rest].
  { rewrite writeFile_last by done. eauto. }
  change (removelast (x :: y :: rest)) with (x :: removelast (y :: rest)) in Hdir.
  rewrite lookup_cons in Hdir.
  destruct Hw as [Hx|(child & Hx & Hw)]; rewrite Hx in Hdir; [by destruct Hdir|].
  destruct (IH child Hshort Hw Hdir) as (child' & Hchild).
  rewrite (writeFile_step _ _ _ _ _ _ _ Hx' Hx Hchild). eauto.
Qed.

(** Where the way to a path is clear and its directory exists, that
    directory is one. *)
Lemma clear_way_there p fs n :
  clear_way p fs = true → lookup (removelast p) fs = Some n →
  is_dir (lookup (removelast p) fs).
Proof.
  revert fs. induction p as [|x rest IH]; intros fs Hw Hex; [done|].
  apply clear_way_inv in Hw as (entries & -> & Hw).
  destruct rest as [|y rest]; [unfold is_dir; simpl; eauto|].
  change (removelast (x :: y :: rest)) with (x :: removelast (y :: rest)) in *.
  rewrite lookup_cons in *.
  destruct Hw as [Hx|(child & Hx & Hw)]; rewrite Hx in *; [done|].
  simpl in *. by apply IH.
Qed.

(** *** [existsSync] *)

Lemma existsSync_inv fs p :
  Fs.existsSync fs p = true →
  nameable p = true ∧ ∃ n, lookup p fs = Some n ∧ succeeds (stat n) = true.
Proof.
  unfold Fs.existsSync. intros [Hname Hthere]%andb_true_iff. split; [done|].
  destruct (lookup p fs) as [n|]; [eauto|done].
Qed.

Lemma existsSync_there fs p n :
  nameable p = true → lookup p fs = Some n → succeeds (stat n) = true →
  Fs.existsSync fs p = true.
Proof. unfold Fs.existsSync. by intros -> -> ->. Qed.

Lemma existsSync_false fs p :
  nameable p = true → Fs.existsSync fs p = false →
  lookup p fs = None ∨ ∃ msg, lookup p fs = Some (NoStat msg).
Proof.
  unfold Fs.existsSync. intros ->. simpl.
  destruct (lookup p fs) as [[]|]; simpl; try done; eauto.
Qed.

Lemma clear_way_existing p fs :
  clear_way p fs = true → Fs.existsSync fs (removelast p) = true →
  is_dir (lookup (removelast p) fs).
Proof.
  intros Hw (_ & n & Hn & _)%existsSync_inv. by eapply clear_way_there.
Qed.

(** *** The names *)

Lemma nameable_inv p :
  nameable p = true → accepts p = Ok () ∧ forallb short p = true.
Proof.
  unfold nameable. intros [Hacc Hshort]%andb_true_iff. split; [|done].
  by destruct (accepts p) as [[]|].
Qed.

Lemma forallb_short_app p q :
  forallb short (p ++ q) = forallb short p && forallb short q.
Proof. apply forallb_app. Qed.

Lemma forallb_short_removelast p :
  forallb short p = true → forallb short (removelast p) = true.
Proof.
  induction p as [|x [|y rest] IH]; [done..|].
  change (removelast (x :: y :: rest)) with (x :: removelast (y :: rest)).
  intros [Hx Hrest]%andb_true_iff. simpl. rewrite Hx. simpl. by apply IH.
Qed.

Lemma short_prefix_id p : forallb short p = true → short_prefix p = p.
Proof.
  induction p as [|x rest IH]; [done|]. intros [Hx Hrest]%andb_true_iff.
  simpl. rewrite Hx. by rewrite IH.
Qed.

Lemma short_prefix_short p : forallb short (short_prefix p) = true.
Proof.
  induction p as [|x rest IH]; [done|]. simpl.
  destruct (short x) eqn:Hx; [|done]. simpl. by rewrite Hx.
Qed.

Lemma short_prefix_prefix p : short_prefix p `prefix_of` p.
Proof.
  induction p as [|x rest IH]; [done|]. simpl.
  destruct (short x); [by apply prefix_cons|apply prefix_nil].
Qed.

(** A successful recursive [mkdirSync] leaves what [made] says. *)
Lemma made_done p fs fs' : mkdirp p fs = Ok fs' → made p fs = fs'.
Proof.
  intros H. unfold made. by rewrite (short_prefix_id _ (mkdirp_short _ _ _ H)), H.
Qed.

(** What a failing recursive [mkdirSync] leaves is the disk as it was, or
    the disk a successful one leaves on a shorter path. *)
Lemma made_inv p fs :
  made p fs = fs ∨ ∃ q, q `prefix_of` p ∧ mkdirp q fs = Ok (made p fs).
Proof.
  unfold made. destruct (mkdirp (short_prefix p) fs) as [fs'|e] eqn:H; [|by left].
  right. exists (short_prefix p). split; [apply short_prefix_prefix|done].
Qed.

(** *** Replacing the content of a file *)

Lemma put_last x data entries :
  put [x] data (Dir entries) = Dir (<[x := File data]> entries).
Proof. reflexivity. Qed.

Lemma put_step x y rest data entries :
  put (x :: y :: rest) data (Dir entries) =
    match entries !! x with
    | Some child => Dir (<[x := put (y :: rest) data child]> entries)
    | None => Dir entries
    end.
Proof. reflexivity. Qed.

Lemma lookup_file_inv x rest fs content :
  lookup (x :: rest) fs = Some (File content) →
  ∃ entries child, fs = Dir entries ∧ entries !! x = Some child ∧
    match rest with
    | [] => child = File content
    | _ :: _ => lookup rest child = Some (File content)
    end.
Proof.
  intros (entries & child & -> & Hx & Hchild)%lookup_cons_Some.
  exists entries, child. repeat split; try done.
  destruct rest; [by simplify_eq/=|done].
Qed.

Lemma lookup_removelast p fs n :
  lookup p fs = Some n → p ≠ [] → is_dir (lookup (removelast p) fs).
Proof.
  revert fs. induction p as [|x rest IH]; intros fs Hn Hp; [done|].
  apply lookup_cons_Some in Hn as (entries & child & -> & Hx & Hchild).
  destruct rest as [|y rest]; [unfold is_dir; simpl; eauto|].
  change (removelast (x :: y :: rest)) with (x :: removelast (y :: rest)).
  rewrite lookup_cons, Hx. simpl. by apply IH.
Qed.

(** Writing over a regular file replaces its content and nothing else. *)
Lemma writeFile_put p data fs :
  forallb short p = true →
  is_file (lookup p fs) → p ≠ [] → writeFile p data fs = Ok (put p data fs).
Proof.
  revert fs. induction p as [|x rest IH]; intros fs Hshort [c Hc] Hp; [done|].
  apply andb_true_iff in Hshort as [Hx' Hshort].
  apply lookup_file_inv in Hc as (entries & child & -> & Hx & Hchild).
  destruct rest as [|y rest].
  - subst child. rewrite put_last. apply writeFile_last; [done|].
    right. unfold is_file. eauto.
  - rewrite put_step, Hx.
    apply (writeFile_step _ _ _ _ _ child); [done..|].
    apply IH; [done|unfold is_file; eauto|done].
Qed.

Lemma put_same p data fs :
  lookup p fs = Some (File data) → put p data fs = fs.
Proof.
  revert fs. induction p as [|x rest IH]; intros fs Hc; [done|].
  apply lookup_file_inv in Hc as (entries & child & -> & Hx & Hchild).
  destruct rest as [|y rest].
  - subst child. by rewrite put_last, insert_id.
  - by rewrite put_step, Hx, IH, insert_id.
Qed.

Lemma put_put p data data' fs :
  put p data (put p data' fs) = put p data fs.
Proof.
  revert fs. induction p as [|x rest IH]; intros fs; [done|].
  destruct fs; try (by destruct rest). destruct rest as [|y rest].
  - by rewrite !put_last, insert_insert_eq.
  - rewrite (put_step _ _ _ data'). destruct (entries !! x) as [child|] eqn:Hx.
    + by rewrite !put_step, lookup_insert_eq, Hx, IH, insert_insert_eq.
    + by rewrite put_step, Hx.
Qed.

(** A file stays a file, with its content when it is another file. *)
Lemma put_file p data fs :
  is_file (lookup p fs) → p ≠ [] → lookup p (put p data fs) = Some (File data).
Proof.
  revert fs. induction p as [|x rest IH]; intros fs [c Hc] Hp; [done|].
  apply lookup_file_inv in Hc as (entries & child & -> & Hx & Hchild).
  destruct rest as [|y rest].
  - by rewrite put_last, lookup_cons, lookup_insert_eq.
  - rewrite put_step, Hx, lookup_cons, lookup_insert_eq. simpl.
    apply IH; [unfold is_file; eauto|done].
Qed.

Lemma put_other p q data fs content :
  is_file (lookup p fs) → lookup q fs = Some (File content) → q ≠ p →
  lookup q (put p data fs) = Some (File content).
Proof.
  revert q fs. induction p as [|x rest IH]; intros q fs [c Hc] Hq Hne; [done|].
  apply lookup_file_inv in Hc as (entries & child & -> & Hx & Hchild).
  destruct q as [|y q]; [done|].
  apply lookup_cons_Some in Hq as (? & child' & ? & Hy & Hq). simplify_eq.
  destruct rest as [|z rest].
  - rewrite put_last, lookup_cons. destruct (decide (y = x)) as [->|Hxy].
    + rewrite Hx in Hy. simplify_eq. by destruct q.
    + by rewrite lookup_insert_ne, Hy by done.
  - rewrite put_step, Hx, lookup_cons. destruct (decide (y = x)) as [->|Hxy].
    + rewrite Hx in Hy. simplify_eq. rewrite lookup_insert_eq. simpl.
      apply IH; [unfold is_file; eauto|done|]. by intros ->.
    + by rewrite lookup_insert_ne, Hy by done.
Qed.

Lemma put_keeps_file p q data fs :
  is_file (lookup p fs) → is_file (lookup q fs) → is_file (lookup q (put p data fs)).
Proof.
  intros Hp [c Hq]. destruct (decide (p = [])) as [->|Hnil]; [unfold is_file; eauto|].
  destruct (decide (q = p)) as [->|Hne].
  - rewrite put_file by done. unfold is_file. eauto.
  - rewrite (put_other _ _ _ _ c) by done. unfold is_file. eauto.
Qed.

Lemma put_comm p q data data' fs :
  p ≠ q → is_file (lookup p fs) → is_file (lookup q fs) →
  put p data (put q data' fs) = put q data' (put p data fs).
Proof.
  revert q fs. induction p as [|x p IH]; intros q fs Hne [c Hp] [c' Hq].
  { simplify_eq/=. by destruct q. }
  destruct q as [|y q]; [by simplify_eq/=|].
  apply lookup_file_inv in Hp as (entries & child & -> & Hx & Hchild).
  apply lookup_file_inv in Hq as (? & child' & ? & Hy & Hchild'). simplify_eq.
  destruct (decide (x = y)) as [->|Hxy].
  - rewrite Hx in Hy. simplify_eq.
    destruct p as [|x' p], q as [|y' q].
    + done.
    + subst child'. done.
    + subst child'. done.
    + rewrite (put_step _ _ _ data'), (put_step _ _ _ data), Hx, !put_step,
        !lookup_insert_eq, !insert_insert_eq.
      do 2 f_equal. apply IH; [by intros ?; simplify_eq| |]; unfold is_file; eauto.
  - destruct p as [|x' p], q as [|y' q];
      rewrite ?put_last, ?put_step, ?Hx, ?Hy, ?put_last, ?put_step,
        ?lookup_insert_ne, ?Hx, ?Hy by done; f_equal; by apply insert_insert_ne.
Qed.

(** ** The calls and the text of their paths *)

Lemma length_append (s1 s2 : string) :
  String.length (s1 +:+ s2) = (String.length s1 + String.length s2)%nat.
Proof. induction s1 as [|c s1 IH]; simpl; [done|]. by rewrite IH. Qed.

Lemma weight_app p q : weight (p ++ q) = (weight p + weight q)%nat.
Proof. induction p as [|x p IH]; simpl; [done|]. rewrite IH. lia. Qed.

Lemma show_length p : p ≠ [] → String.length (Path.show p) = weight p.
Proof.
  intros Hp. destruct p as [|x p]; [done|]. unfold Path.show.
  generalize (x :: p). clear. intros p.
  induction p as [|x p IH]; [done|]. cbn [foldr weight].
  by rewrite !length_append, IH.
Qed.

Lemma show_length_prefix q p :
  q `prefix_of` p → (String.length (Path.show q) ≤ String.length (Path.show p))%nat.
Proof.
  intros [r ->]. destruct q as [|x q].
  - destruct r as [|y r]; [simpl; lia|]. change ([] ++ y :: r) with (y :: r).
    rewrite (show_length (y :: r)) by done. simpl. lia.
  - rewrite (show_length (x :: q)), (show_length ((x :: q) ++ r)) by done.
    rewrite weight_app. lia.
Qed.

Lemma accepts_prefix q p : q `prefix_of` p → accepts p = Ok () → accepts q = Ok ().
Proof.
  intros Hq. pose proof (show_length_prefix _ _ Hq) as Hlen.
  destruct Hq as [r ->]. unfold accepts. rewrite existsb_app.
  destruct (existsb has_nul q); [done|]. simpl.
  destruct (existsb has_nul r); [done|].
  unfold Path.size in *.
  destruct (4096 <=? N.of_nat (String.length (Path.show (q ++ r))))%N eqn:Hp; [done|].
  intros _. apply N.leb_gt in Hp.
  destruct (4096 <=? N.of_nat (String.length (Path.show q)))%N eqn:Hq; [|done].
  apply N.leb_le in Hq. lia.
Qed.

Lemma nameable_prefix q p : q `prefix_of` p → nameable p = true → nameable q = true.
Proof.
  intros Hq [Hacc Hshort]%nameable_inv. unfold nameable.
  rewrite (accepts_prefix _ _ Hq Hacc). simpl.
  destruct Hq as [r ->]. rewrite forallb_app in Hshort.
  by apply andb_true_iff in Hshort as [-> _].
Qed.

Lemma removelast_prefix (p : path) : removelast p `prefix_of` p.
Proof.
  induction p as [|x [|y p] IH]; [done|apply prefix_nil|].
  change (removelast (x :: y :: p)) with (x :: removelast (y :: p)).
  by apply prefix_cons.
Qed.

Lemma nameable_removelast p : nameable p = true → nameable (removelast p) = true.
Proof. apply nameable_prefix, removelast_prefix. Qed.

Lemma nameable_accepts p : nameable p = true → accepts p = Ok ().
Proof. by intros [? _]%nameable_inv. Qed.

Lemma nameable_short p : nameable p = true → forallb short p = true.
Proof. by intros [_ ?]%nameable_inv. Qed.

Lemma nameable_intro p : accepts p = Ok () → forallb short p = true → nameable p = true.
Proof. unfold nameable. by intros -> ->. Qed.

Lemma existsSync_nameable fs p : Fs.existsSync fs p = true → nameable p = true.
Proof. by intros [? _]%existsSync_inv. Qed.

(** *** What a call returns and leaves *)

Lemma atomic_Ok p op fs fs' :
  accepts p = Ok () → op fs = Ok fs' → atomic p op fs = (Ok (), fs').
Proof. unfold atomic. by intros -> ->. Qed.

Lemma atomic_inv p op fs r fs' :
  atomic p op fs = (r, fs') →
  (r = Ok () ∧ accepts p = Ok () ∧ op fs = Ok fs') ∨ (∃ e, r = Throw e ∧ fs' = fs).
Proof.
  unfold atomic. destruct (accepts p) as [[]|e]; simpl.
  - destruct (op fs) as [fs1|e]; intros; simplify_eq; eauto.
  - intros; simplify_eq; eauto.
Qed.

Lemma atomic_Ok_inv p op fs fs' :
  atomic p op fs = (Ok (), fs') → accepts p = Ok () ∧ op fs = Ok fs'.
Proof. intros [(_ & ? & ?)|(e & ? & _)]%atomic_inv; done. Qed.

Lemma atomic_Throw_inv p op fs e fs' :
  atomic p op fs = (Throw e, fs') → fs' = fs.
Proof. intros [(? & _)|(e' & _ & ?)]%atomic_inv; done. Qed.

Lemma mkdirpSync_Ok p fs fs' :
  accepts p = Ok () → mkdirp p fs = Ok fs' → mkdirpSync p fs = (Ok (), fs').
Proof. unfold mkdirpSync. by intros -> ->. Qed.

Lemma mkdirpSync_Ok_inv p fs fs' :
  mkdirpSync p fs = (Ok (), fs') → nameable p = true ∧ mkdirp p fs = Ok fs'.
Proof.
  unfold mkdirpSync. destruct (accepts p) as [[]|e] eqn:Hacc; [|done].
  destruct (mkdirp p fs) as [fs1|e] eqn:Hmk; [|done]. intros [= <-].
  split; [|done]. apply nameable_intro; [done|by eapply mkdirp_short].
Qed.

(** Whatever it returns, the recursive [mkdirSync] leaves the disk as it
    was or as a successful one leaves it. *)
Lemma mkdirpSync_state p fs r fs' :
  mkdirpSync p fs = (r, fs') →
  fs' = fs ∨ ∃ q, q `prefix_of` p ∧ mkdirp q fs = Ok fs'.
Proof.
  unfold mkdirpSync. destruct (accepts p) as [[]|e]; [|intros [= _ <-]; by left].
  destruct (mkdirp p fs) as [fs1|e] eqn:Hmk; intros [= _ <-].
  - right. by exists p.
  - apply made_inv.
Qed.

Lemma prepare_state target fs r fs1 :
  prepare target fs = (r, fs1) →
  fs1 = fs ∨ ∃ q, q `prefix_of` Path.dirname target ∧ mkdirp q fs = Ok fs1.
Proof.
  unfold prepare. destruct (Fs.existsSync fs _); [intros [= _ <-]; by left|].
  apply mkdirpSync_state.
Qed.

Lemma prepare_Ok_inv target fs fs1 :
  prepare target fs = (Ok (), fs1) →
  Fs.existsSync fs1 (Path.dirname target) = true ∧
  (fs1 = fs ∨ mkdirp (Path.dirname target) fs = Ok fs1).
Proof.
  unfold prepare. destruct (Fs.existsSync fs _) eqn:Hex.
  - intros [= <-]. split; [done|by left].
  - intros [Hname Hmk]%mkdirpSync_Ok_inv. split; [|by right].
    destruct (mkdirp_target _ _ _ Hmk) as (n & Hn & Hstat).
    eapply existsSync_there; [done..|by rewrite Hstat].
Qed.

(** ** The writer, entry by entry *)

Ltac io_unfold :=
  unfold mbind, io_bind, mret, io_ret, lift, throw, catch, log, inspect,
    Process.existsSync, readFileSync, mkdirSync, mkdirSync_recursive, rmSync,
    writeFileSync, syscall in *.

(** [process_file] does to the disk what the plan of the entry says,
    whatever the console holds. *)
Lemma process_file_plan projectRoot file w :
  outcome (process_file projectRoot file) w =
    exec_plan (classify projectRoot file) (disk w).
Proof.
  unfold outcome, process_file, classify, write_content, path_join, payload.
  destruct (Js.get file "name") as [name|e]; [|done].
  io_unfold. simpl.
  destruct (truthy name) eqn:Hname; simpl; [|done].
  destruct (Js.get file "content") as [[content|]|e]; simpl; [|done..].
  destruct (Js.text name) as [s|]; simpl; [|done].
  unfold exec_plan, prepare, Path.dirname.
  set (target := Path.walk projectRoot (Path.split s)).
  destruct (Fs.existsSync (disk w) (removelast target)); simpl.
  - destruct (Js.text (Some content)) as [data|]; simpl; [|done].
    destruct (bool_decide _); io_unfold; simpl; [done|].
    by destruct (Fs.writeSync target data (disk w)) as [[[]|e] fs2].
  - destruct (Fs.mkdirpSync (removelast target) (disk w)) as [[[]|e] fs1]; simpl; [|done].
    destruct (Js.text (Some content)) as [data|]; simpl; [|done].
    destruct (bool_decide _); io_unfold; simpl; [done|].
    by destruct (Fs.writeSync target data fs1) as [[[]|e] fs2].
Qed.

Lemma outcome_bind {A B} (m : io A) (k : A → io B) w :
  outcome (m ≫= k) w =
    match m w with
    | (Ok a, w') => outcome (k a) w'
    | (Throw e, w') => (Throw e, disk w')
    end.
Proof. unfold outcome, mbind, io_bind. by destruct (m w) as [[a|e] w']. Qed.

Lemma outcome_log {A} l (k : io A) w :
  outcome (log l;; k) w = outcome k {| disk := disk w; console := console w ++ [l] |}.
Proof. by rewrite outcome_bind. Qed.

Lemma forEach_plans projectRoot files w :
  outcome (forEach (process_file projectRoot) files) w =
    exec_plans (map (classify projectRoot) files) (disk w).
Proof.
  revert w. induction files as [|file files IH]; intros w; [done|].
  simpl. rewrite outcome_bind.
  pose proof (process_file_plan projectRoot file w) as Hfile. unfold outcome in Hfile.
  destruct (process_file projectRoot file w) as [[[]|e] w1]; simpl in Hfile;
    rewrite <- Hfile; [apply IH|done].
Qed.

Lemma validation project_files :
  negb (truthy project_files) || negb (isArray project_files) =
    match project_files with Some (VArr _) => false | _ => true end.
Proof. destruct project_files as [[]|]; simpl; by rewrite ?orb_true_r. Qed.

(** Step 2, by what it finds. *)
Lemma read_json_input parse p w :
  read_json parse p w =
    match input parse (disk w) p with
    | Absent => (Throw (Error ("Input file not found at: " +:+ Path.show p)), w)
    | Unreadable e => (Throw e, w)
    | Garbled msg => (Throw (SyntaxError msg), w)
    | Parsed projectData => (Ok projectData, w)
    end.
Proof.
  unfold read_json, input. io_unfold.
  destruct (Fs.existsSync (disk w) p); simpl; [|done].
  destruct (Fs.readSync p (disk w)) as [rawData|e]; [|done].
  destruct (parse rawData) as [projectData|[]]; done.
Qed.

Lemma generate_rejected parse cwd jsonFilePath outputDir w :
  accepted (input parse (disk w) (Path.resolve cwd jsonFilePath)) = None →
  ∃ e, outcome (generate parse cwd jsonFilePath outputDir) w = (Throw e, disk w).
Proof.
  intros Hin. unfold generate. rewrite !outcome_log, outcome_bind, read_json_input.
  simpl. destruct (input parse (disk w) _) as [|e|msg|projectData]; simpl; eauto.
  rewrite outcome_bind. unfold lift. simpl in Hin.
  destruct (Js.get projectData "project_files") as [project_files|e]; simpl; eauto.
  rewrite validation. destruct project_files as [[]|]; eauto; done.
Qed.

Lemma generate_accepted parse cwd jsonFilePath outputDir files w :
  accepted (input parse (disk w) (Path.resolve cwd jsonFilePath)) = Some files →
  outcome (generate parse cwd jsonFilePath outputDir) w =
    exec_run (Path.resolve cwd outputDir) files (disk w).
Proof.
  intros Hin. unfold generate. rewrite !outcome_log, outcome_bind, read_json_input.
  simpl. destruct (input parse (disk w) _) as [|e|msg|projectData]; simpl in *; try done.
  rewrite outcome_bind. unfold lift.
  destruct (Js.get projectData "project_files") as [project_files|e]; simpl in *; [|done].
  rewrite validation. destruct project_files as [[]|]; try done.
  simplify_eq. rewrite outcome_bind. unfold exec_run, Process.existsSync. simpl.
  set (projectRoot := Path.resolve cwd outputDir).
  destruct (Fs.existsSync (disk w) projectRoot); simpl.
  - rewrite outcome_bind. simpl. rewrite outcome_bind.
    pose proof (forEach_plans projectRoot files
      {| disk := disk w;
         console := (console w ++ [ReadingFrom (Path.resolve cwd jsonFilePath)])
                    ++ [GeneratingIn projectRoot] |}) as Hloop.
    unfold outcome in Hloop.
    destruct (forEach _ files _) as [[[]|e] w1]; simpl in Hloop; by rewrite <- Hloop.
  - rewrite outcome_bind. unfold mbind at 1, io_bind, mkdirSync, syscall. simpl.
    destruct (Fs.mkdirSync projectRoot (disk w)) as [[[]|e] fs1]; simpl; [|done].
    rewrite outcome_bind.
    pose proof (forEach_plans projectRoot files
      {| disk := fs1;
         console := ((console w ++ [ReadingFrom (Path.resolve cwd jsonFilePath)])
                    ++ [GeneratingIn projectRoot]) ++ [CreatedRoot outputDir] |}) as Hloop.
    unfold outcome in Hloop.
    destruct (forEach _ files _) as [[[]|e] w1]; simpl in Hloop; by rewrite <- Hloop.
Qed.

Lemma outcome_inv {A} (m : io A) w r fs :
  outcome m w = (r, fs) → ∃ w', m w = (r, w') ∧ disk w' = fs.
Proof.
  unfold outcome. destruct (m w) as [r' w']. simpl. intros. simplify_eq. eauto.
Qed.

Lemma rejected_accepted input : rejected input → accepted input = None.
Proof.
  destruct 1 as [| |projectData Hget|projectData v Hget Harr]; simpl; try done.
  - by rewrite Hget.
  - rewrite Hget. by destruct v.
Qed.

Lemma exec_plans_cons pl pls fs :
  exec_plans (pl :: pls) fs =
    match exec_plan pl fs with
    | (Ok _, fs1) => exec_plans pls fs1
    | (Throw e, fs1) => (Throw e, fs1)
    end.
Proof. reflexivity. Qed.

Lemma exec_plans_app pls1 pls2 fs :
  exec_plans (pls1 ++ pls2) fs =
    match exec_plans pls1 fs with
    | (Ok _, fs1) => exec_plans pls2 fs1
    | (Throw e, fs1) => (Throw e, fs1)
    end.
Proof.
  revert fs. induction pls1 as [|pl pls1 IH]; intros fs; [done|].
  simpl. destruct (exec_plan pl fs) as [[[]|e] fs1]; [apply IH|done].
Qed.

Lemma exec_plans_skip pls1 pls2 fs :
  exec_plans (pls1 ++ Skip :: pls2) fs = exec_plans (pls1 ++ pls2) fs.
Proof. by rewrite !exec_plans_app. Qed.

Lemma classify_invalid projectRoot file :
  Js.get file "name" = Ok None ∨ Js.get file "content" = Ok None →
  classify projectRoot file = Skip.
Proof.
  unfold classify. intros [->|Hcontent]; [done|].
  destruct (Js.get file "name") as [name|e] eqn:Hname; [|by destruct file].
  rewrite Hcontent. by destruct (truthy name).
Qed.

Lemma classify_valid projectRoot file name content :
  Js.get file "name" = Ok (Some (VStr name)) → name ≠ "" →
  Js.get file "content" = Ok (Some (VStr content)) →
  classify projectRoot file =
    Store (Path.segments (Path.join projectRoot name))
          (if Path.trailing (Path.join projectRoot name)
           then Throw (Error "EISDIR: illegal operation on a directory, open")
           else Ok content).
Proof.
  intros Hname Hne Hcontent. unfold classify. rewrite Hname, Hcontent. simpl.
  by rewrite bool_decide_true.
Qed.

(** A store into a writable path succeeds: the file holds the data, what
    is above it is a directory, and the rest of the tree is as before. *)
Lemma exec_store target data fs :
  writable target fs = true →
  ∃ fs', exec_plan (Store target (Ok data)) fs = (Ok (), fs') ∧
    lookup target fs' = Some (File data) ∧
    (∀ q, q `prefix_of` target → q ≠ target → is_dir (lookup q fs')) ∧
    (∀ q, ¬ q `prefix_of` target → lookup q fs' = lookup q fs).
Proof.
  intros [Hname Hw]%andb_true_iff. unfold exec_plan.
  pose proof (nameable_removelast _ Hname) as Hname'.
  assert (∃ fs1, prepare target fs = (Ok (), fs1) ∧
                 clear_way target fs1 = true ∧
                 is_dir (lookup (removelast target) fs1) ∧
                 ∀ q, ¬ q `prefix_of` target → lookup q fs1 = lookup q fs)
    as (fs1 & -> & Hw1 & Hdir & Hframe1).
  { unfold prepare, Path.dirname.
    destruct (Fs.existsSync fs (removelast target)) eqn:Hex.
    - exists fs. eauto using clear_way_existing.
    - destruct (clear_way_mkdirp _ _ (nameable_short _ Hname') Hw)
        as (fs1 & Hmk & Hw1 & Hdir).
      exists fs1. split; [by apply mkdirpSync_Ok; [apply nameable_accepts|]|].
      repeat split; try done.
      intros q Hq. apply (mkdirp_frame _ _ _ _ Hmk).
      intros Hp. apply Hq. etrans; [done|apply removelast_prefix]. }
  destruct (clear_way_writeFile _ data _ (nameable_short _ Hname) Hw1 Hdir)
    as (fs' & Hwrite).
  exists fs'. split; [by apply atomic_Ok; [apply nameable_accepts|]|].
  split; [by eapply writeFile_target|].
  split.
  - intros q Hq Hne. by eapply writeFile_above.
  - intros q Hq. rewrite <- Hframe1 by done. by eapply writeFile_frame.
Qed.

(** The same for an entry with a name and a string content. *)
Lemma process_file_writes projectRoot file name content w :
  Js.get file "name" = Ok (Some (VStr name)) → name ≠ "" →
  Js.get file "content" = Ok (Some (VStr content)) →
  Path.trailing (Path.join projectRoot name) = false →
  writable (Path.segments (Path.join projectRoot name)) (disk w) = true →
  ∃ w', process_file projectRoot file w = (Ok (), w') ∧
    lookup (Path.segments (Path.join projectRoot name)) (disk w') = Some (File content) ∧
    (∀ q, q `prefix_of` Path.segments (Path.join projectRoot name) →
          q ≠ Path.segments (Path.join projectRoot name) → is_dir (lookup q (disk w'))) ∧
    (∀ q, ¬ q `prefix_of` Path.segments (Path.join projectRoot name) →
          lookup q (disk w') = lookup q (disk w)).
Proof.
  intros Hname Hne Hcontent Htrailing Hw.
  destruct (exec_store _ content _ Hw) as (fs' & Hexec & Hfacts).
  pose proof (process_file_plan projectRoot file w) as Hplan.
  rewrite (classify_valid _ _ _ _ Hname Hne Hcontent), Htrailing, Hexec in Hplan.
  apply outcome_inv in Hplan as (w' & Hrun & <-). eauto.
Qed.

Lemma process_file_skips projectRoot file w :
  Js.get file "name" = Ok None ∨ Js.get file "name" = Ok (Some (VStr "")) ∨
  Js.get file "content" = Ok None →
  process_file projectRoot file w =
    (Ok (), {| disk := disk w; console := console w ++ [SkippingInvalid file] |}).
Proof.
  unfold process_file. io_unfold.
  intros [->|[->|Hcontent]]; [done..|].
  destruct (Js.get file "name") as [name|e] eqn:Hname; [|by destruct file].
  simpl. destruct (truthy name); [|done]. by rewrite Hcontent.
Qed.

Lemma last_snoc2 {A} (l : list A) a b : last (l ++ [a; b]) = Some b.
Proof. change [a; b] with ([a] ++ [b]). by rewrite app_assoc, last_snoc. Qed.

(** What a written entry leaves on the console. *)
Lemma process_file_console projectRoot file name content w w' :
  Js.get file "name" = Ok (Some (VStr name)) → name ≠ "" →
  Js.get file "content" = Ok (Some (VStr content)) →
  process_file projectRoot file w = (Ok (), w') →
  console w' = console w ++ [CreatedFile name] ∨
  console w' = console w ++
    [CreatedDirectory projectRoot
       (Path.dirname (Path.segments (Path.join projectRoot name)));
     CreatedFile name].
Proof.
  intros Hname Hne Hcontent. unfold process_file, write_content, path_join.
  rewrite Hname, Hcontent. io_unfold. simpl. rewrite bool_decide_true by done. simpl.
  set (target := Path.walk projectRoot (Path.split name)).
  destruct (Fs.existsSync (disk w) (Path.dirname target)); simpl.
  - destruct (bool_decide _); io_unfold; simpl; [done|].
    destruct (Fs.writeSync target content (disk w)) as [[[]|e] fs2]; simpl;
      intros; simplify_eq. by left.
  - destruct (Fs.mkdirpSync (Path.dirname target) (disk w)) as [[[]|e] fs1]; simpl; [|done].
    destruct (bool_decide _); io_unfold; simpl; [done|].
    destruct (Fs.writeSync target content fs1) as [[[]|e] fs2]; simpl;
      intros; simplify_eq.
    right. by rewrite <- app_assoc.
Qed.

(** ** Running the same plans again *)

Lemma writeFile_keeps p data fs fs' q content :
  writeFile p data fs = Ok fs' → lookup q fs = Some (File content) → q ≠ p →
  lookup q fs' = Some (File content).
Proof.
  intros Hw Hq Hne. destruct (decide (q `prefix_of` p)) as [Hpre|Hpre].
  - destruct (writeFile_above _ _ _ _ q Hw Hpre Hne) as [[entries Hdir] _].
    rewrite Hq in Hdir. done.
  - by rewrite (writeFile_frame _ _ _ _ q Hw Hpre).
Qed.

Lemma mkdirp_keeps p fs fs' q content :
  mkdirp p fs = Ok fs' → lookup q fs = Some (File content) →
  lookup q fs' = Some (File content).
Proof.
  intros Hmk Hq. destruct (decide (q `prefix_of` p)) as [Hpre|Hpre].
  - by pose proof (mkdirp_way _ _ _ _ _ Hmk Hpre Hq).
  - by rewrite (mkdirp_frame _ _ _ _ Hmk Hpre).
Qed.

Lemma prepare_keeps target fs r fs1 q content :
  prepare target fs = (r, fs1) → lookup q fs = Some (File content) →
  lookup q fs1 = Some (File content).
Proof.
  intros [->|(p & _ & Hmk)]%prepare_state Hq; [done|]. by eapply mkdirp_keeps.
Qed.

(** A name that is too long fails the recursive [mkdirSync] the same way
    when the directories above it are made already. *)
Lemma mkdirp_beyond p x rest fs fs1 :
  mkdirp p fs = Ok fs1 → short x = false →
  mkdirp (p ++ x :: rest) fs1 = mkdirp (p ++ x :: rest) fs.
Proof.
  revert fs fs1. induction p as [|y p IH]; intros fs fs1 Hmk Hx.
  { by apply mkdirp_inv_nil in Hmk as [-> _]. }
  pose proof (mkdirp_short _ _ _ Hmk) as [Hy _]%andb_true_iff.
  apply mkdirp_inv in Hmk as (entries & child' & -> & Hchild & ->).
  simpl. rewrite Hy, lookup_insert_eq. simpl.
  rewrite (IH _ _ Hchild Hx).
  destruct (mkdirp (p ++ x :: rest) (default (Dir ∅) (entries !! y)))
    as [child2|e] eqn:Hbeyond; [|done].
  apply mkdirp_short in Hbeyond. rewrite forallb_app in Hbeyond. simpl in Hbeyond.
  rewrite Hx in Hbeyond. by rewrite andb_false_r in Hbeyond.
Qed.

Lemma short_prefix_split p :
  short_prefix p = p ∨ ∃ x rest, p = short_prefix p ++ x :: rest ∧ short x = false.
Proof.
  induction p as [|y p IH]; [by left|]. simpl. destruct (short y) eqn:Hy.
  - destruct IH as [->|(x & rest & Hp & Hx)]; [by left|].
    right. exists x, rest. split; [|done]. simpl. by rewrite <- Hp.
  - right. by exists y, p.
Qed.

(** What a failing recursive [mkdirSync] leaves, it leaves again. *)
Lemma mkdirpSync_again p fs r fs1 :
  mkdirpSync p fs = (r, fs1) → mkdirpSync p fs1 = (r, fs1).
Proof.
  unfold mkdirpSync. destruct (accepts p) as [[]|e0]; [|by intros [= <- <-]].
  destruct (mkdirp p fs) as [fs'|e] eqn:Hmk.
  - intros [= <- <-].
    destruct (mkdirp_target _ _ _ Hmk) as (n & Hn & Hstat).
    by rewrite (mkdirp_existing _ _ _ (mkdirp_short _ _ _ Hmk) Hn Hstat).
  - intros [= <- <-]. unfold made.
    destruct (mkdirp (short_prefix p) fs) as [fs1|e1] eqn:Hsp; [|by rewrite Hmk, Hsp].
    destruct (mkdirp_target _ _ _ Hsp) as (n & Hn & Hstat).
    rewrite (mkdirp_existing _ _ _ (short_prefix_short p) Hn Hstat).
    destruct (short_prefix_split p) as [Hp|(x & rest & Hp & Hx)].
    + rewrite Hp in Hsp. congruence.
    + rewrite Hp at 1. rewrite (mkdirp_beyond _ _ _ _ _ Hsp Hx), <- Hp. by rewrite Hmk.
Qed.

Lemma mkdirpSync_fails p fs e fs1 :
  mkdirpSync p fs = (Throw e, fs1) → Fs.existsSync fs1 p = Fs.existsSync fs p.
Proof.
  unfold mkdirpSync. destruct (accepts p) as [[]|e0] eqn:Hacc; [|by intros [= _ <-]].
  destruct (mkdirp p fs) as [fs'|e'] eqn:Hmk; [done|]. intros [= _ <-]. unfold made.
  destruct (mkdirp (short_prefix p) fs) as [fs1|e1] eqn:Hsp; [|done].
  destruct (short_prefix_split p) as [Hp|(x & rest & Hp & Hx)].
  - rewrite Hp in Hsp. congruence.
  - unfold Fs.existsSync, nameable. rewrite Hp, forallb_app. simpl.
    by rewrite Hx, !andb_false_r.
Qed.

Lemma prepare_again target fs r fs1 :
  prepare target fs = (r, fs1) → prepare target fs1 = (r, fs1).
Proof.
  unfold prepare. destruct (Fs.existsSync fs (Path.dirname target)) eqn:Hex.
  - intros [= <- <-]. by rewrite Hex.
  - intros Hmk. destruct r as [[]|e].
    + pose proof Hmk as [Hname Htree]%mkdirpSync_Ok_inv.
      destruct (mkdirp_target _ _ _ Htree) as (n & Hn & Hstat).
      rewrite (existsSync_there _ _ n); [done..|by rewrite Hstat].
    + rewrite (mkdirpSync_fails _ _ _ _ Hmk), Hex. by eapply mkdirpSync_again.
Qed.

Lemma prepare_file target fs :
  nameable target = true → is_file (lookup target fs) → target ≠ [] →
  prepare target fs = (Ok (), fs).
Proof.
  intros Hname [c Hc] Hne. unfold prepare, Path.dirname.
  destruct (lookup_removelast _ _ _ Hc Hne) as [entries Hdir].
  by rewrite (existsSync_there _ _ _ (nameable_removelast _ Hname) Hdir).
Qed.

(** A plan that failed fails again in the state it left. *)
Lemma exec_plan_failed pl fs e fs0 :
  exec_plan pl fs = (Throw e, fs0) → exec_plan pl fs0 = (Throw e, fs0).
Proof.
  destruct pl as [|e'|target data]; simpl; [done|by intros; simplify_eq|].
  destruct (prepare target fs) as [[[]|e1] fs1] eqn:Hprep.
  - apply prepare_again in Hprep. destruct data as [s|e2].
    + intros Hw. pose proof (atomic_Throw_inv _ _ _ _ _ Hw) as ->.
      by rewrite Hprep.
    + intros; simplify_eq. by rewrite Hprep.
  - intros; simplify_eq. by rewrite (prepare_again _ _ _ _ Hprep).
Qed.

Lemma exec_store_inv target data fs fs0 :
  exec_plan (Store target data) fs = (Ok (), fs0) →
  ∃ s fs1, data = Ok s ∧ prepare target fs = (Ok (), fs1) ∧
           accepts target = Ok () ∧ writeFile target s fs1 = Ok fs0.
Proof.
  simpl. destruct (prepare target fs) as [[[]|e1] fs1]; [|done].
  destruct data as [s|e2]; [|done].
  intros [Hacc Hw]%atomic_Ok_inv. eauto 10.
Qed.

(** After a store that succeeded, the target is a file with the data. *)
Lemma exec_store_target target data fs fs0 :
  exec_plan (Store target data) fs = (Ok (), fs0) →
  ∃ s, data = Ok s ∧ lookup target fs0 = Some (File s) ∧ target ≠ [].
Proof.
  intros (s & fs1 & -> & _ & _ & Hw)%exec_store_inv. exists s.
  split; [done|]. split; [by eapply writeFile_target|]. by intros ->.
Qed.

Lemma exec_store_nameable target data fs fs0 :
  exec_plan (Store target data) fs = (Ok (), fs0) → nameable target = true.
Proof.
  intros (s & fs1 & -> & _ & Hacc & Hw)%exec_store_inv.
  apply nameable_intro; [done|by eapply writeFile_short].
Qed.

Lemma exec_store_file target s fs :
  nameable target = true → is_file (lookup target fs) → target ≠ [] →
  exec_plan (Store target (Ok s)) fs = (Ok (), put target s fs).
Proof.
  intros Hname Hfile Hne. simpl. rewrite prepare_file by done.
  apply atomic_Ok; [by apply nameable_accepts|].
  apply writeFile_put; [by apply nameable_short|done..].
Qed.

(** A file keeps its content through a plan that does not store into it,
    and stays a file in any case. *)
Lemma exec_plan_keeps pl fs r fs0 q content :
  exec_plan pl fs = (r, fs0) → lookup q fs = Some (File content) →
  (∀ data, pl = Store q data → r ≠ Ok ()) →
  lookup q fs0 = Some (File content).
Proof.
  intros Hexec Hq Hpl.
  destruct pl as [|e'|target data]; simpl in Hexec; [by simplify_eq..|].
  destruct (prepare target fs) as [r1 fs1] eqn:Hprep.
  pose proof (prepare_keeps _ _ _ _ _ _ Hprep Hq) as Hq1.
  destruct r1 as [[]|e1]; [|by simplify_eq].
  destruct data as [s|e2]; [|by simplify_eq].
  apply atomic_inv in Hexec as [(-> & _ & Hw)|(e & -> & ->)]; [|done].
  eapply writeFile_keeps; [done..|].
  intros ->. by eapply Hpl.
Qed.

Lemma exec_plan_keeps_file pl fs r fs0 q :
  exec_plan pl fs = (r, fs0) → is_file (lookup q fs) → is_file (lookup q fs0).
Proof.
  intros Hexec [c Hq].
  destruct pl as [|e'|target data]; simpl in Hexec;
    [simplify_eq; unfold is_file; eauto..|].
  destruct (prepare target fs) as [r1 fs1] eqn:Hprep.
  pose proof (prepare_keeps _ _ _ _ _ _ Hprep Hq) as Hq1.
  destruct r1 as [[]|e1]; [|simplify_eq; unfold is_file; eauto].
  destruct data as [s|e2]; [|simplify_eq; unfold is_file; eauto].
  apply atomic_inv in Hexec as [(-> & _ & Hw)|(e & -> & ->)];
    [|unfold is_file; eauto].
  destruct (decide (q = target)) as [->|Hne].
  - rewrite (writeFile_target _ _ _ _ Hw). unfold is_file. eauto.
  - rewrite (writeFile_keeps _ _ _ _ _ _ Hw Hq1 Hne). unfold is_file. eauto.
Qed.

Lemma exec_plans_keeps_file pls fs r fs1 q :
  exec_plans pls fs = (r, fs1) → is_file (lookup q fs) → is_file (lookup q fs1).
Proof.
  revert fs. induction pls as [|pl pls IH]; intros fs Hexec Hq; [by simplify_eq/=|].
  simpl in Hexec. destruct (exec_plan pl fs) as [[[]|e] fs0] eqn:Hpl.
  - eapply IH; [done|]. by eapply exec_plan_keeps_file.
  - simplify_eq. by eapply exec_plan_keeps_file.
Qed.

Lemma exec_plans_keeps pls fs r fs1 q content :
  exec_plans pls fs = (r, fs1) → lookup q fs = Some (File content) →
  q ∉ written pls fs → lookup q fs1 = Some (File content).
Proof.
  revert fs. induction pls as [|pl pls IH]; intros fs Hexec Hq Hw; [by simplify_eq/=|].
  simpl in Hexec, Hw. destruct (exec_plan pl fs) as [[[]|e] fs0] eqn:Hpl.
  - eapply (IH fs0); [done| |].
    + eapply exec_plan_keeps; [done..|]. intros data ->. set_solver.
    + destruct pl; set_solver.
  - simplify_eq. eapply exec_plan_keeps; [done..|]. by intros.
Qed.

(** What a run wrote is a file when the run ends. *)
Lemma written_file pls fs r fs1 q :
  exec_plans pls fs = (r, fs1) → q ∈ written pls fs →
  is_file (lookup q fs1) ∧ q ≠ [].
Proof.
  revert fs. induction pls as [|pl pls IH]; intros fs Hexec Hq; [by set_solver|].
  simpl in Hexec, Hq. destruct (exec_plan pl fs) as [[[]|e] fs0] eqn:Hpl; [|set_solver].
  destruct pl as [|e'|target data]; [by eapply IH..|].
  apply elem_of_cons in Hq as [->|Hq]; [|by eapply IH].
  apply exec_store_target in Hpl as (s & -> & Htarget & Hne).
  split; [|done]. eapply exec_plans_keeps_file; [done|]. unfold is_file. eauto.
Qed.

Lemma puts_keeps_file changes fs q :
  (∀ change, change ∈ changes → is_file (lookup change.1 fs)) →
  is_file (lookup q fs) → is_file (lookup q (puts changes fs)).
Proof.
  revert q. induction changes as [|[p s] changes IH]; intros q Hfiles Hq; [done|].
  assert (Hrest : ∀ change, change ∈ changes → is_file (lookup change.1 fs))
    by (intros; apply Hfiles; set_solver).
  simpl. apply put_keeps_file; apply IH; try done.
  apply (Hfiles (p, s)). set_solver.
Qed.

(** Replacing a content with what the file holds in the end undoes the
    earlier replacements of that content. *)
Lemma put_absorbs target s changes fs :
  lookup target fs = Some (File s) →
  (∀ change, change ∈ changes → is_file (lookup change.1 fs)) →
  put target s (puts changes fs) =
    puts (filter (λ change, change.1 ≠ target) changes) fs.
Proof.
  intros Htarget. induction changes as [|[p s'] changes IH]; intros Hfiles.
  { by apply put_same. }
  assert (Hrest : ∀ change, change ∈ changes → is_file (lookup change.1 fs))
    by (intros; apply Hfiles; set_solver).
  simpl. destruct (decide (p = target)) as [->|Hne].
  - rewrite put_put, filter_cons_False by (simpl; tauto). by apply IH.
  - rewrite filter_cons_True by done. simpl. rewrite <- IH by done.
    apply put_comm; [done|..]; apply puts_keeps_file; try done.
    + unfold is_file. eauto.
    + apply (Hfiles (p, s')). set_solver.
Qed.

(** The heart of idempotence: started again in the state they left, with
    any of the files they wrote holding other contents, the plans end with
    the same result in the same state. *)
Lemma exec_plans_settled pls fs r fs1 changes :
  exec_plans pls fs = (r, fs1) →
  (∀ change, change ∈ changes → change.1 ∈ written pls fs) →
  exec_plans pls (puts changes fs1) = (r, fs1).
Proof.
  revert fs changes. induction pls as [|pl pls IH]; intros fs changes Hexec Hchanges.
  { destruct changes as [|change ?]; [by simplify_eq/=|].
    specialize (Hchanges change). set_solver. }
  assert (Hfiles : ∀ change, change ∈ changes → is_file (lookup change.1 fs1)).
  { intros change Hin. by eapply written_file, Hchanges. }
  simpl in Hexec, Hchanges. destruct (exec_plan pl fs) as [[[]|e] fs0] eqn:Hpl.
  - destruct pl as [|e'|target data]; [|done|].
    + simpl. simpl in Hpl. simplify_eq. by eapply IH.
    + pose proof Hpl as (s & -> & Htarget & Hne)%exec_store_target.
      assert (Hfile1 : is_file (lookup target fs1)).
      { eapply exec_plans_keeps_file; [done|]. unfold is_file. eauto. }
      change (exec_plans (Store target (Ok s) :: pls) (puts changes fs1))
        with (match exec_plan (Store target (Ok s)) (puts changes fs1) with
              | (Ok _, fs2) => exec_plans pls fs2
              | (Throw e, fs2) => (Throw e, fs2)
              end).
      rewrite exec_store_file
        by (by try apply puts_keeps_file; try eapply exec_store_nameable).
      destruct (decide (target ∈ written pls fs0)) as [Hin|Hout].
      * apply (IH fs0 ((target, s) :: changes)); [done|].
        intros change [->|Hc]%elem_of_cons; [done|].
        pose proof (Hchanges _ Hc) as [->|?]%elem_of_cons; done.
      * rewrite put_absorbs by (by try eapply exec_plans_keeps).
        apply (IH fs0); [done|].
        intros change [Hne' Hc]%list_elem_of_filter.
        pose proof (Hchanges _ Hc) as [?|?]%elem_of_cons; done.
  - simplify_eq. destruct changes as [|change ?].
    + simpl. by rewrite (exec_plan_failed _ _ _ _ Hpl).
    + specialize (Hchanges change). set_solver.
Qed.

Lemma exec_plans_again pls fs r fs1 :
  exec_plans pls fs = (r, fs1) → exec_plans pls fs1 = (r, fs1).
Proof. intros Hexec. apply (exec_plans_settled pls fs r fs1 []); set_solver. Qed.

(** What exists keeps existing. *)
Lemma writeFile_exists p data fs fs' q :
  writeFile p data fs = Ok fs' → Fs.existsSync fs q = true → Fs.existsSync fs' q = true.
Proof.
  intros Hw (Hname & n & Hn & Hstat)%existsSync_inv.
  destruct (decide (q = p)) as [->|Hne].
  { eapply existsSync_there; [done|by eapply writeFile_target|done]. }
  destruct (decide (q `prefix_of` p)) as [Hpre|Hpre].
  - destruct (writeFile_above _ _ _ _ q Hw Hpre Hne) as [_ [entries Hdir]].
    by eapply existsSync_there.
  - eapply existsSync_there; [done| |done]. by rewrite (writeFile_frame _ _ _ _ q Hw Hpre).
Qed.

Lemma mkdirp_exists p fs fs' q :
  mkdirp p fs = Ok fs' → Fs.existsSync fs q = true → Fs.existsSync fs' q = true.
Proof.
  intros Hmk (Hname & n & Hn & Hstat)%existsSync_inv.
  destruct (decide (q = p)) as [->|Hne].
  { destruct (mkdirp_target _ _ _ Hmk) as (n' & Hn' & Hstat').
    eapply existsSync_there; [done..|by rewrite Hstat']. }
  destruct (decide (q `prefix_of` p)) as [Hpre|Hpre].
  - destruct (mkdirp_above _ _ _ q Hmk Hpre Hne) as [entries Hdir].
    by eapply existsSync_there.
  - eapply existsSync_there; [done| |done]. by rewrite (mkdirp_frame _ _ _ _ Hmk Hpre).
Qed.

Lemma prepare_exists target fs r fs1 q :
  prepare target fs = (r, fs1) → Fs.existsSync fs q = true → Fs.existsSync fs1 q = true.
Proof.
  intros [->|(p & _ & Hmk)]%prepare_state Hq; [done|]. by eapply mkdirp_exists.
Qed.

Lemma exec_plan_exists pl fs r fs0 q :
  exec_plan pl fs = (r, fs0) → Fs.existsSync fs q = true → Fs.existsSync fs0 q = true.
Proof.
  intros Hexec Hq. destruct pl as [|e'|target data]; simpl in Hexec; [by simplify_eq..|].
  destruct (prepare target fs) as [r1 fs1] eqn:Hprep.
  pose proof (prepare_exists _ _ _ _ _ Hprep Hq) as Hq1.
  destruct r1 as [[]|e1]; [|by simplify_eq].
  destruct data as [s|e2]; [|by simplify_eq].
  apply atomic_inv in Hexec as [(-> & _ & Hw)|(e & -> & ->)]; [|done].
  by eapply writeFile_exists.
Qed.

Lemma exec_plans_exists pls fs r fs1 q :
  exec_plans pls fs = (r, fs1) → Fs.existsSync fs q = true → Fs.existsSync fs1 q = true.
Proof.
  revert fs. induction pls as [|pl pls IH]; intros fs Hexec Hq; [by simplify_eq/=|].
  simpl in Hexec. destruct (exec_plan pl fs) as [[[]|e] fs0] eqn:Hpl.
  - eapply IH; [done|]. by eapply exec_plan_exists.
  - simplify_eq. by eapply exec_plan_exists.
Qed.

Lemma mkdirSync_root p fs fs0 :
  Fs.mkdirSync p fs = (Ok (), fs0) → Fs.existsSync fs0 p = true.
Proof.
  intros [Hacc Hmk]%atomic_Ok_inv.
  eapply existsSync_there; [|by eapply mkdir_target|done].
  apply nameable_intro; [done|by eapply mkdir_short].
Qed.

(** A whole run, started again in the state it left, ends with the same
    result in the same state. *)
Lemma exec_run_again projectRoot files fs r fs1 :
  exec_run projectRoot files fs = (r, fs1) →
  exec_run projectRoot files fs1 = (r, fs1).
Proof.
  unfold exec_run. destruct (Fs.existsSync fs projectRoot) eqn:Hroot.
  - intros Hexec. rewrite (exec_plans_exists _ _ _ _ _ Hexec Hroot).
    by eapply exec_plans_again.
  - destruct (Fs.mkdirSync projectRoot fs) as [[[]|e] fs0] eqn:Hmk.
    + intros Hexec.
      rewrite (exec_plans_exists _ _ _ _ _ Hexec (mkdirSync_root _ _ _ Hmk)).
      by eapply exec_plans_again.
    + intros; simplify_eq. pose proof (atomic_Throw_inv _ _ _ _ _ Hmk) as ->.
      by rewrite Hroot, Hmk.
Qed.

(** The exit code and the disk of the script, from the disk it starts on. *)
Lemma main_disk parse cwd argv2 argv3 w :
  ((Writer.main parse cwd argv2 argv3 w).1, disk (Writer.main parse cwd argv2 argv3 w).2) =
    match argv2 with
    | Some jsonFilePath =>
        if bool_decide (jsonFilePath = "") then (1%Z, disk w)
        else
          match accepted (input parse (disk w) (Path.resolve cwd jsonFilePath)) with
          | Some files =>
              match exec_run (Path.resolve cwd (default_dir argv3)) files (disk w) with
              | (Ok _, fs) => (0%Z, fs)
              | (Throw _, fs) => (1%Z, fs)
              end
          | None => (1%Z, disk w)
          end
    | None => (1%Z, disk w)
    end.
Proof.
  unfold Writer.main. fold (default_dir argv3).
  destruct argv2 as [jsonFilePath|]; [|done]. case_bool_decide; [done|].
  unfold generateProject.
  destruct (accepted (input parse (disk w) _)) as [files|] eqn:Hin.
  - pose proof (generate_accepted parse cwd jsonFilePath (default_dir argv3) files w Hin)
      as Hrun.
    unfold outcome in Hrun.
    destruct (generate parse cwd jsonFilePath (default_dir argv3) w) as [[[]|e] w1];
      simpl in Hrun; by rewrite <- Hrun.
  - destruct (generate_rejected parse cwd jsonFilePath (default_dir argv3) w Hin)
      as (e & Hrun).
    unfold outcome in Hrun.
    destruct (generate parse cwd jsonFilePath (default_dir argv3) w) as [[[]|e'] w1];
      simpl in *; congruence.
Qed.

(** A run is the making of the root, where it is missing, and then the
    plans of the entries. *)
Lemma exec_run_inv projectRoot files fs r fs' :
  exec_run projectRoot files fs = (r, fs') →
  (∃ e, r = Throw e ∧ fs' = fs ∧ Fs.existsSync fs projectRoot = false) ∨
  (∃ fs0, (Fs.existsSync fs projectRoot = true ∧ fs0 = fs ∨
           Fs.existsSync fs projectRoot = false ∧ accepts projectRoot = Ok () ∧
           mkdir projectRoot fs = Ok fs0) ∧
          exec_plans (map (classify projectRoot) files) fs0 = (r, fs')).
Proof.
  unfold exec_run. destruct (Fs.existsSync fs projectRoot) eqn:Hroot.
  - intros Hplans. right. exists fs. eauto.
  - destruct (Fs.mkdirSync projectRoot fs) as [[[]|e] fs0] eqn:Hmk.
    + apply atomic_Ok_inv in Hmk as [Hacc Hmk]. intros Hplans. right. exists fs0. eauto 10.
    + apply atomic_Throw_inv in Hmk as ->. intros [= <- <-]. left. eauto.
Qed.

(** ** Reading what was written *)

Lemma walk_plain base segs :
  Forall plain_segment segs → Path.walk base segs = base ++ segs.
Proof.
  revert base. induction segs as [|seg segs IH]; intros base Hplain.
  { by rewrite app_nil_r. }
  apply Forall_cons in Hplain as [(H1 & H2 & H3 & _) Hrest].
  unfold Path.walk in *. simpl. rewrite IH by done.
  unfold Path.step. rewrite decide_False by tauto. rewrite decide_False by done.
  by rewrite <- app_assoc.
Qed.

Lemma split_nonempty s : Path.split s ≠ [].
Proof.
  destruct s as [|c s]; [done|]. simpl. case_decide; [done|].
  by destruct (Path.split s).
Qed.

Lemma join_plain projectRoot name :
  plain name →
  Path.segments (Path.join projectRoot name) = projectRoot ++ Path.split name ∧
  Path.trailing (Path.join projectRoot name) = false.
Proof.
  intros Hplain. split; [by apply walk_plain|].
  simpl. apply bool_decide_eq_false. intros Hlast.
  apply last_Some in Hlast as [segs Hsegs]. unfold plain in Hplain.
  rewrite Hsegs in Hplain. apply Forall_app in Hplain as [_ Hlast].
  apply Forall_singleton in Hlast as [? _]. done.
Qed.

(** The reader finds a file where the tree has it, when every entry on the
    way can be statted and no name on the way is [__proto__]. *)
Lemma read_file_at p n content :
  lookup p n = Some (File content) → p ≠ [] →
  (∀ q msg, lookup q n ≠ Some (NoStat msg)) →
  Forall (λ seg, seg ≠ "__proto__") p →
  Js.at_path p (read_node n) = Some (VStr content).
Proof.
  revert n. induction p as [|x rest IH]; intros n Hfile Hne Hstat Hnames; [done|].
  apply Forall_cons in Hnames as [Hx Hrest].
  apply lookup_cons_Some in Hfile as (entries & child & -> & Hchild & Hfile).
  destruct (read_node_listed entries) as (obj & -> & Hobj).
  { intros k c Hk. destruct c; try done. destruct (Hstat [k] msg).
    by rewrite lookup_cons, Hk. }
  simpl. rewrite Hobj, decide_False, Hchild by done. simpl.
  destruct rest as [|y rest]; [by simplify_eq/=|].
  pose proof Hfile as (entries' & ? & -> & _)%lookup_cons_Some.
  simpl. rewrite <- read_node_Dir.
  apply IH; try done.
  intros q msg Hq. apply (Hstat (x :: q) msg). by rewrite lookup_cons, Hchild.
Qed.

(** The writer makes no entry that cannot be statted. *)
Lemma writeFile_no_new_nostat p data fs fs' q msg :
  writeFile p data fs = Ok fs' → lookup q fs' = Some (NoStat msg) →
  lookup q fs = Some (NoStat msg).
Proof.
  intros Hw Hq. destruct (decide (q = p)) as [->|Hne].
  { by rewrite (writeFile_target _ _ _ _ Hw) in Hq. }
  destruct (decide (q `prefix_of` p)) as [Hpre|Hpre].
  - destruct (writeFile_above _ _ _ _ q Hw Hpre Hne) as [_ [entries Hdir]].
    by rewrite Hdir in Hq.
  - by rewrite <- (writeFile_frame _ _ _ _ q Hw Hpre).
Qed.

Lemma mkdirp_no_new_nostat p fs fs' q msg :
  mkdirp p fs = Ok fs' → lookup q fs' = Some (NoStat msg) →
  lookup q fs = Some (NoStat msg).
Proof.
  intros Hmk Hq. destruct (decide (q = p)) as [->|Hne].
  { destruct (mkdirp_target _ _ _ Hmk) as (n & Hn & Hstat).
    rewrite Hn in Hq. by simplify_eq. }
  destruct (decide (q `prefix_of` p)) as [Hpre|Hpre].
  - destruct (mkdirp_above _ _ _ q Hmk Hpre Hne) as [entries Hdir].
    by rewrite Hdir in Hq.
  - by rewrite <- (mkdirp_frame _ _ _ _ Hmk Hpre).
Qed.

Lemma exec_plan_no_new_nostat pl fs r fs0 q msg :
  exec_plan pl fs = (r, fs0) → lookup q fs0 = Some (NoStat msg) →
  lookup q fs = Some (NoStat msg).
Proof.
  intros Hexec Hq. destruct pl as [|e'|target data]; simpl in Hexec; [by simplify_eq..|].
  destruct (prepare target fs) as [r1 fs1] eqn:Hprep.
  assert (Hstep : lookup q fs1 = Some (NoStat msg) → lookup q fs = Some (NoStat msg)).
  { apply prepare_state in Hprep as [->|(p & _ & Hmk)]; [done|].
    by eapply mkdirp_no_new_nostat. }
  destruct r1 as [[]|e1]; [|simplify_eq; by apply Hstep].
  destruct data as [s|e2]; [|simplify_eq; by apply Hstep].
  apply atomic_inv in Hexec as [(-> & _ & Hw)|(e & -> & ->)]; [|by apply Hstep].
  apply Hstep. by eapply writeFile_no_new_nostat.
Qed.

Lemma exec_plans_no_new_nostat pls fs r fs1 q msg :
  exec_plans pls fs = (r, fs1) → lookup q fs1 = Some (NoStat msg) →
  lookup q fs = Some (NoStat msg).
Proof.
  revert fs. induction pls as [|pl pls IH]; intros fs Hexec Hq; [by simplify_eq/=|].
  simpl in Hexec. destruct (exec_plan pl fs) as [[[]|e] fs0] eqn:Hpl.
  - eapply exec_plan_no_new_nostat; [done|]. by eapply IH.
  - simplify_eq. by eapply exec_plan_no_new_nostat.
Qed.

Lemma exec_run_no_new_nostat projectRoot files fs r fs1 q msg :
  exec_run projectRoot files fs = (r, fs1) → lookup q fs1 = Some (NoStat msg) →
  lookup q fs = Some (NoStat msg).
Proof.
  intros [(e & -> & -> & _)|(fs0 & Hroot & Hexec)]%exec_run_inv Hq; [done|].
  pose proof (exec_plans_no_new_nostat _ _ _ _ _ _ Hexec Hq) as Hq0.
  destruct Hroot as [[_ ->]|(_ & _ & Hmk)]; [done|].
  eapply mkdirp_no_new_nostat; [by apply mkdir_mkdirp|done].
Qed.

(** What a run wrote is the target of one of its plans. *)
Lemma written_store pls fs q :
  q ∈ written pls fs → ∃ data, Store q data ∈ pls.
Proof.
  revert fs. induction pls as [|pl pls IH]; intros fs Hq; [by set_solver|].
  simpl in Hq. destruct (exec_plan pl fs) as [[[]|e] fs0]; [|set_solver].
  destruct pl as [|e'|target data].
  - destruct (IH _ Hq) as [data ?]. exists data. set_solver.
  - destruct (IH _ Hq) as [data ?]. exists data. set_solver.
  - apply elem_of_cons in Hq as [->|Hq]; [exists data; set_solver|].
    destruct (IH _ Hq) as [data' ?]. exists data'. set_solver.
Qed.

(** In a run that completes, a store that no later plan repeats has its
    data in the file when the run ends. *)
Lemma exec_plans_last_store pls1 target data pls2 fs fs' :
  exec_plans (pls1 ++ Store target data :: pls2) fs = (Ok (), fs') →
  (∀ data', Store target data' ∉ pls2) →
  ∃ s, data = Ok s ∧ lookup target fs' = Some (File s).
Proof.
  intros Hexec Hlater. rewrite exec_plans_app in Hexec.
  destruct (exec_plans pls1 fs) as [[[]|e] fs1]; [|done].
  rewrite exec_plans_cons in Hexec.
  destruct (exec_plan (Store target data) fs1) as [[[]|e] fs2] eqn:Hstore; [|done].
  apply exec_store_target in Hstore as (s & -> & Htarget & _).
  exists s. split; [done|]. eapply exec_plans_keeps; [done..|].
  intros (data' & Hin)%written_store. by eapply Hlater.
Qed.

Lemma plain_nonempty name : plain name → name ≠ "".
Proof.
  intros Hplain ->. unfold plain in Hplain. simpl in Hplain.
  apply Forall_singleton in Hplain as [? _]. done.
Qed.

Lemma classify_store_inv projectRoot file target data :
  classify projectRoot file = Store target data →
  ∃ s, named file s ∧ target = Path.segments (Path.join projectRoot s).
Proof.
  unfold classify, named. destruct (Js.get file "name") as [name|e]; [|done].
  destruct (truthy name); simpl; [|done].
  destruct (Js.get file "content") as [[content|]|e]; try done.
  destruct (Js.text name) as [s|] eqn:Hs; [|done]. intros [= <- _]. eauto.
Qed.

Lemma generateProject_returned parse cwd jsonFilePath outputDir files w w' :
  accepted (input parse (disk w) (Path.resolve cwd jsonFilePath)) = Some files →
  generateProject parse cwd jsonFilePath outputDir w = (Returned, w') →
  exec_run (Path.resolve cwd outputDir) files (disk w) = (Ok (), disk w').
Proof.
  intros Hin Hrun. rewrite <- (generate_accepted parse _ jsonFilePath _ _ _ Hin).
  unfold generateProject in Hrun. unfold outcome.
  destruct (generate parse cwd jsonFilePath outputDir w) as [[[]|e] w1]; by simplify_eq.
Qed.

Lemma exec_run_plans projectRoot files fs fs' :
  exec_run projectRoot files fs = (Ok (), fs') →
  ∃ fs0, exec_plans (map (classify projectRoot) files) fs0 = (Ok (), fs').
Proof.
  intros [(e & ? & _)|(fs0 & _ & Hexec)]%exec_run_inv; [done|eauto].
Qed.

(** In a run that the writer completes, on a disk where no entry under the
    destination root fails [statSync], every listed entry with a string
    content, a name of plain segments and a path that no later entry
    writes again is read back at the position its name gives. *)
Lemma read_back_of_completed_run parse cwd jsonFilePath outputDir before file after
    name content w w' :
  accepted (input parse (disk w) (Path.resolve cwd jsonFilePath))
    = Some (before ++ file :: after) →
  generateProject parse cwd jsonFilePath outputDir w = (Returned, w') →
  (∀ q msg, lookup (Path.resolve cwd outputDir ++ q) (disk w) ≠ Some (NoStat msg)) →
  Js.get file "name" = Ok (Some (VStr name)) →
  Js.get file "content" = Ok (Some (VStr content)) →
  plain name →
  (∀ file' name', file' ∈ after → named file' name' →
     Path.segments (Path.join (Path.resolve cwd outputDir) name')
       ≠ Path.resolve cwd outputDir ++ Path.split name) →
  Js.at_path (Path.split name)
    (readDirectoryStructure (disk w') (Path.resolve cwd outputDir)) = Some (VStr content).
Proof.
  set (projectRoot := Path.resolve cwd outputDir).
  intros Hin Hrun Hstat Hname Hcontent Hplain Hlater.
  pose proof (generateProject_returned _ _ _ _ _ _ _ Hin Hrun) as Hexec.
  fold projectRoot in Hexec.
  destruct (join_plain projectRoot name Hplain) as [Hsegments Htrailing].
  destruct (exec_run_plans _ _ _ _ Hexec) as (fs0 & Hplans).
  rewrite map_app, map_cons,
    (classify_valid _ _ _ _ Hname (plain_nonempty _ Hplain) Hcontent),
    Hsegments, Htrailing in Hplans.
  apply exec_plans_last_store in Hplans as (s & [= <-] & Htarget).
  - rewrite lookup_app in Htarget. unfold readDirectoryStructure.
    destruct (lookup projectRoot (disk w')) as [n|] eqn:Hroot; [|done].
    simpl in Htarget. apply read_file_at; [done|apply split_nonempty| |].
    + intros q msg Hq. apply (Hstat q msg).
      eapply exec_run_no_new_nostat; [done|]. by rewrite lookup_app, Hroot.
    + eapply Forall_impl; [exact Hplain|]. by intros seg (_ & _ & _ & ?).
  - intros data' (file' & Hclass & Hfile')%list_elem_of_fmap.
    symmetry in Hclass. apply classify_store_inv in Hclass as (name' & Hname' & Heq).
    by eapply Hlater.
Qed.

(** ** When a run completes *)








(** Making the root. *)
Lemma mkdir_ready p fs :
  forallb short p = true →
  p ≠ [] → lookup p fs = None → is_dir (lookup (removelast p) fs) →
  ∃ fs', mkdir p fs = Ok fs'.
Proof.
  revert fs. induction p as [|x rest IH]; intros fs Hshort Hne Hfree Hdir; [done|].
  apply andb_true_iff in Hshort as [Hx Hshort].
  destruct rest as [|y rest].
  - destruct Hdir as [entries Hfs]. simpl in Hfs. simplify_eq.
    rewrite lookup_cons in Hfree. simpl. rewrite Hx.
    destruct (entries !! x) as [child|]; [done|]. eauto.
  - change (removelast (x :: y :: rest)) with (x :: removelast (y :: rest)) in Hdir.
    destruct Hdir as [entries' Hdir].
    apply lookup_cons_Some in Hdir as (entries & child & -> & Hchild & Hdir).
    rewrite lookup_cons, Hchild in Hfree. simpl in Hfree.
    destruct (IH child) as (child' & Hmk); [done|done|done|unfold is_dir; eauto|].
    exists (Dir (<[x := child']> entries)).
    change (mkdir (x :: y :: rest) (Dir entries))
      with (if short x then
              match entries !! x with
              | Some child => mkdir (y :: rest) child ≫=
                              λ child', Ok (Dir (<[x := child']> entries))
              | None => Throw (Error "ENOENT: no such file or directory, mkdir")
              end
            else Throw (Error "ENAMETOOLONG: name too long, mkdir")).
    by rewrite Hx, Hchild, Hmk.
Qed.




(** ** What the specification says of the writer *)

(** C3. For every input that is not well-formed JSON, or whose parsed
    value has no top-level key [project_files], or whose [project_files] is
    no array, the writer exits with code 1, its last console line is an
    error message, and the disk is as it was: no root directory made, no
    file written. *)
Theorem schema_rejection parse cwd argv2 argv3 w :
  (∀ jsonFilePath, argv2 = Some jsonFilePath → jsonFilePath ≠ "" →
     rejected (input parse (disk w) (Path.resolve cwd jsonFilePath))) →
  ∃ w', Writer.main parse cwd argv2 argv3 w = (1%Z, w') ∧
        disk w' = disk w ∧
        ∃ l, last (console w') = Some l ∧ is_error l = true.
Proof.
  intros Hin.
  assert (Husage : ∃ w', (1%Z, {| disk := disk w; console := console w ++ [WriterUsage] |})
                         = (1%Z, w') ∧ disk w' = disk w ∧
                         ∃ l, last (console w') = Some l ∧ is_error l = true).
  { exists {| disk := disk w; console := console w ++ [WriterUsage] |}.
    repeat split. exists WriterUsage. simpl. by rewrite last_snoc. }
  unfold Writer.main. destruct argv2 as [jsonFilePath|]; [|done].
  case_bool_decide; [done|]. unfold generateProject.
  set (outputDir := match argv3 with Some s => _ | None => _ end).
  specialize (Hin jsonFilePath eq_refl H). apply rejected_accepted in Hin.
  destruct (generate_rejected parse cwd jsonFilePath outputDir w Hin) as (e & Hrun).
  apply outcome_inv in Hrun as (w1 & -> & Hdisk).
  eexists. split; [done|]. split; [done|]. simpl. rewrite last_snoc.
  destruct e; eauto.
Qed.

(** The document [{ "files": [] }], which has no [project_files]. *)
Lemma schema_rejection_witness :
  let text := jobj [("files", jarr [])] in
  let parse := parse_table [(text, VObj {[ "files" := VArr [] ]})] in
  let w := {| disk := with_document text ∅; console := [] |} in
  ∃ w', Writer.main parse [] (Some "in.json") None w = (1%Z, w') ∧
        disk w' = disk w ∧
        ∃ l, last (console w') = Some l ∧ is_error l = true.
Proof.
  intros text parse w.
  apply (schema_rejection parse [] (Some "in.json") None w).
  intros jsonFilePath [= <-] _. apply rejected_no_key. reflexivity.
Defined.

(** C5. An entry of [project_files] that has no [name], or whose [content]
    is undefined, is skipped with a warning and nothing is written for it;
    the entries before and after it are processed as if it were not
    listed: same result, same disk. *)
Theorem skip_invalid_entry projectRoot file :
  Js.get file "name" = Ok None ∨ Js.get file "content" = Ok None →
  (∀ w, process_file projectRoot file w =
          (Ok (), {| disk := disk w; console := console w ++ [SkippingInvalid file] |})) ∧
  is_warning (SkippingInvalid file) = true ∧
  (∀ before after w,
     outcome (forEach (process_file projectRoot) (before ++ file :: after)) w =
     outcome (forEach (process_file projectRoot) (before ++ after)) w).
Proof.
  intros Hfile. split; [|split; [done|]].
  - intros w. apply process_file_skips. tauto.
  - intros before after w.
    rewrite !forEach_plans, !map_app, map_cons, (classify_invalid _ _ Hfile).
    apply exec_plans_skip.
Qed.

Lemma skip_invalid_entry_witness :
  let file := VObj {[ "content" := VStr "x" ]} in
  (∀ w, process_file ["out"] file w =
          (Ok (), {| disk := disk w; console := console w ++ [SkippingInvalid file] |})) ∧
  is_warning (SkippingInvalid file) = true ∧
  (∀ before after w,
     outcome (forEach (process_file ["out"]) (before ++ file :: after)) w =
     outcome (forEach (process_file ["out"]) (before ++ after)) w).
Proof.
  intros file. apply (skip_invalid_entry ["out"] file). left. reflexivity.
Defined.

(** C6, as the code has it.  For every entry whose name is a non-empty
    well-formed string that does not end in a separator and whose content
    is a well-formed string, on every disk where the path [root/name] is
    writable (no call refuses its text: no null byte, no segment of more
    than 255 bytes, less than 4096 bytes in all; nothing above it is other
    than a directory; the path itself is free or a regular file), the
    writer writes the content verbatim to [root/name]: the file holds it
    afterwards, replacing what it held; every path above it is a
    directory, made if it was missing and kept if it was there; the rest
    of the disk is as before, and the console reports the file. *)
Theorem write_entry projectRoot file name content w :
  Js.get file "name" = Ok (Some (VStr name)) → name ≠ "" →
  Js.get file "content" = Ok (Some (VStr content)) →
  Path.trailing (Path.join projectRoot name) = false →
  writable (Path.segments (Path.join projectRoot name)) (disk w) = true →
  ∃ w', process_file projectRoot file w = (Ok (), w') ∧
    lookup (Path.segments (Path.join projectRoot name)) (disk w') = Some (File content) ∧
    (∀ q, q `prefix_of` Path.segments (Path.join projectRoot name) →
          q ≠ Path.segments (Path.join projectRoot name) → is_dir (lookup q (disk w'))) ∧
    (∀ q, ¬ q `prefix_of` Path.segments (Path.join projectRoot name) →
          lookup q (disk w') = lookup q (disk w)) ∧
    last (console w') = Some (CreatedFile name).
Proof.
  intros Hname Hne Hcontent Htrailing Hw.
  destruct (process_file_writes _ _ _ _ _ Hname Hne Hcontent Htrailing Hw)
    as (w' & Hrun & Htarget & Habove & Hframe).
  exists w'. repeat split; try done.
  destruct (process_file_console _ _ _ _ _ _ Hname Hne Hcontent Hrun) as [-> | ->].
  - by rewrite last_snoc.
  - by rewrite last_snoc2.
Qed.

(** The example of the specification: [a/b/c.txt] under [out], where [a] exists and
    [a/b] does not. *)
Lemma write_entry_witness :
  let file := VObj {[ "name" := VStr "a/b/c.txt"; "content" := VStr "text" ]} in
  let w := {| disk := Dir {[ "out" := Dir {[ "a" := Dir ∅ ]} ]}; console := [] |} in
  ∃ w', process_file ["out"] file w = (Ok (), w') ∧
    lookup ["out"; "a"; "b"; "c.txt"] (disk w') = Some (File "text") ∧
    (∀ q, q `prefix_of` ["out"; "a"; "b"; "c.txt"] →
          q ≠ ["out"; "a"; "b"; "c.txt"] → is_dir (lookup q (disk w'))) ∧
    (∀ q, ¬ q `prefix_of` ["out"; "a"; "b"; "c.txt"] →
          lookup q (disk w') = lookup q (disk w)) ∧
    last (console w') = Some (CreatedFile "a/b/c.txt").
Proof.
  intros file w.
  apply (write_entry ["out"] file "a/b/c.txt" "text" w); by vm_compute.
Defined.

(** C6 as stated fails: an entry with a name and a content is not written
    when its name ends in a separator, when a directory has its name, or
    when its name has a segment of 256 bytes: the run ends there with an
    exception.  And a content with a lone surrogate is not written
    verbatim: the file holds U+FFFD in its place, and what is read back
    is another string. *)
Lemma write_entry_counterexample :
  let w := {| disk := Dir {[ "out" := Dir {[ "docs" := Dir ∅ ]} ]}; console := [] |} in
  let lossy := VObj {[ "name" := VStr "b.txt"; "content" := VLossy ("x" +:+ replacement) ]} in
  outcome (process_file ["out"] (VObj {[ "name" := VStr "a/"; "content" := VStr "x" ]})) w
    = (Throw (Error "EISDIR: illegal operation on a directory, open"), disk w) ∧
  outcome (process_file ["out"] (VObj {[ "name" := VStr "docs"; "content" := VStr "x" ]})) w
    = (Throw (Error "EISDIR: illegal operation on a directory, open"), disk w) ∧
  outcome (process_file ["out"] (VObj {[ "name" := VStr long_name; "content" := VStr "x" ]})) w
    = (Throw (Error "ENAMETOOLONG: name too long, open"), disk w) ∧
  ∃ fs, outcome (process_file ["out"] lossy) w = (Ok (), fs) ∧
        Js.at_path ["b.txt"] (readDirectoryStructure fs ["out"])
          = Some (VStr ("x" +:+ replacement)) ∧
        Js.get lossy "content" ≠ Ok (Some (VStr ("x" +:+ replacement))).
Proof.
  intros w lossy. repeat split; [vm_compute; reflexivity..|].
  eexists. repeat split; [vm_compute; reflexivity..|]. vm_compute. discriminate.
Qed.

(** C10. An entry whose name is the empty string is skipped with a warning
    like an entry without a name, and nothing is written; an entry whose
    content is the empty string is written like any other: where the path
    is writable, the file exists afterwards and is empty, and the console
    reports the file, with no warning. *)
Theorem empty_name_and_empty_content projectRoot file w :
  (Js.get file "name" = Ok (Some (VStr "")) →
   process_file projectRoot file w =
     (Ok (), {| disk := disk w; console := console w ++ [SkippingInvalid file] |})) ∧
  (∀ name,
     Js.get file "name" = Ok (Some (VStr name)) → name ≠ "" →
     Js.get file "content" = Ok (Some (VStr "")) →
     Path.trailing (Path.join projectRoot name) = false →
     writable (Path.segments (Path.join projectRoot name)) (disk w) = true →
     ∃ w', process_file projectRoot file w = (Ok (), w') ∧
       lookup (Path.segments (Path.join projectRoot name)) (disk w') = Some (File "") ∧
       last (console w') = Some (CreatedFile name) ∧
       SkippingInvalid file ∉ drop (length (console w)) (console w')).
Proof.
  split.
  - intros Hname. apply process_file_skips. tauto.
  - intros name Hname Hne Hcontent Htrailing Hw.
    destruct (process_file_writes _ _ _ _ _ Hname Hne Hcontent Htrailing Hw)
      as (w' & Hrun & Htarget & _).
    exists w'. split; [done|]. split; [done|].
    destruct (process_file_console _ _ _ _ _ _ Hname Hne Hcontent Hrun) as [-> | ->];
      rewrite drop_app_length.
    + split; [by rewrite last_snoc|]. by intros ?%list_elem_of_singleton.
    + split; [by rewrite last_snoc2|].
      intros [?|?%list_elem_of_singleton]%elem_of_cons; done.
Qed.

Lemma empty_name_and_empty_content_witness :
  let w := {| disk := Dir {[ "out" := Dir ∅ ]}; console := [] |} in
  let unnamed := VObj {[ "name" := VStr ""; "content" := VStr "x" ]} in
  let blank := VObj {[ "name" := VStr "empty.txt"; "content" := VStr "" ]} in
  process_file ["out"] unnamed w =
    (Ok (), {| disk := disk w; console := console w ++ [SkippingInvalid unnamed] |}) ∧
  ∃ w', process_file ["out"] blank w = (Ok (), w') ∧
    lookup ["out"; "empty.txt"] (disk w') = Some (File "") ∧
    last (console w') = Some (CreatedFile "empty.txt") ∧
    SkippingInvalid blank ∉ drop (length (console w)) (console w').
Proof.
  intros w unnamed blank. split.
  - apply (empty_name_and_empty_content ["out"] unnamed w). reflexivity.
  - apply (proj2 (empty_name_and_empty_content ["out"] blank w) "empty.txt");
      by vm_compute.
Defined.

(** C7, as the code has it.  For every input file and output directory,
    on every disk, when the first run of the writer leaves the input file
    as it found it (absent, unreadable, or with the same document),
    running the writer a second time with the same arguments, on the disk
    the first run left, ends with the same exit code and leaves that disk
    as it is: the same files with the same contents, nothing duplicated,
    and no error from the directories that now exist. *)
Theorem writer_idempotent parse cwd argv2 argv3 w :
  let first := Writer.main parse cwd argv2 argv3 w in
  let second := Writer.main parse cwd argv2 argv3 first.2 in
  (∀ jsonFilePath, argv2 = Some jsonFilePath →
     input parse (disk first.2) (Path.resolve cwd jsonFilePath) =
     input parse (disk w) (Path.resolve cwd jsonFilePath)) →
  second.1 = first.1 ∧ disk second.2 = disk first.2.
Proof.
  intros first second Hsame.
  pose proof (main_disk parse cwd argv2 argv3 w) as H1.
  pose proof (main_disk parse cwd argv2 argv3 first.2) as H2.
  fold first in H1. fold second in H2. clearbody first second.
  assert (Hclose : ∀ (c : Z) fs fs',
    (first.1, disk first.2) = (c, fs) → (second.1, disk second.2) = (c, fs') →
    fs' = disk first.2 → second.1 = first.1 ∧ disk second.2 = disk first.2).
  { intros c fs fs' [= -> ->] [= -> ->] ->. done. }
  destruct argv2 as [jsonFilePath|]; [|by eapply Hclose].
  case_bool_decide; [by eapply Hclose|].
  rewrite (Hsame jsonFilePath eq_refl) in H2.
  destruct (accepted _) as [files|]; [|by eapply Hclose].
  destruct (exec_run _ files (disk w)) as [r fs1] eqn:Hrun.
  assert (Hdisk : disk first.2 = fs1) by (destruct r; by injection H1).
  rewrite Hdisk, (exec_run_again _ _ _ _ _ Hrun) in H2.
  destruct r; by eapply Hclose.
Qed.

(** Two runs on the document that lists [a.txt]. *)
Lemma writer_idempotent_witness :
  let es := [("a.txt", "1")] in
  let parse := parse_documents [es] in
  let w := {| disk := with_document (document_text es) ∅; console := [] |} in
  let first := Writer.main parse [] (Some "in.json") (Some "out") w in
  let second := Writer.main parse [] (Some "in.json") (Some "out") first.2 in
  second.1 = first.1 ∧ disk second.2 = disk first.2.
Proof.
  intros es parse w.
  apply (writer_idempotent parse [] (Some "in.json") (Some "out") w).
  intros jsonFilePath [= <-]. vm_compute. reflexivity.
Defined.

(** C7 as stated fails: the input file is on the disk the writer writes.
    A document whose second entry is named [../in.json] replaces the
    input file by another document; the second run reads that one, and
    [out/a.txt], which held [1] after the first run, holds [2] after the
    second. *)
Lemma writer_idempotent_counterexample :
  let es2 := [("a.txt", "2")] in
  let es1 := [("a.txt", "1"); ("../in.json", document_text es2)] in
  let parse := parse_documents [es1; es2] in
  let w := {| disk := with_document (document_text es1) ∅; console := [] |} in
  let first := Writer.main parse [] (Some "in.json") (Some "out") w in
  let second := Writer.main parse [] (Some "in.json") (Some "out") first.2 in
  first.1 = 0%Z ∧ second.1 = 0%Z ∧
  lookup ["out"; "a.txt"] (disk first.2) = Some (File "1") ∧
  lookup ["out"; "a.txt"] (disk second.2) = Some (File "2").
Proof. vm_compute. repeat split; reflexivity. Qed.




(** ** The demonstration scaffold *)

Lemma mkdir_step x y rest entries child child' :
  short x = true → entries !! x = Some child →
  mkdir (y :: rest) child = Ok child' →
  mkdir (x :: y :: rest) (Dir entries) = Ok (Dir (<[x := child']> entries)).
Proof.
  intros Hshort Hx Hchild.
  change (mkdir (x :: y :: rest) (Dir entries))
    with (if short x then
            match entries !! x with
            | Some child => mkdir (y :: rest) child ≫=
                            λ child', Ok (Dir (<[x := child']> entries))
            | None => Throw (Error "ENOENT: no such file or directory, mkdir")
            end
          else Throw (Error "ENAMETOOLONG: name too long, mkdir")).
  by rewrite Hshort, Hx, Hchild.
Qed.

(** What changes at [p] changes nothing beside [p]. *)
Lemma lookup_beside x p entries child child' r :
  entries !! x = Some child →
  (∀ r, ¬ p `prefix_of` r → ¬ r `prefix_of` p → lookup r child' = lookup r child) →
  ¬ (x :: p) `prefix_of` r → ¬ r `prefix_of` (x :: p) →
  lookup r (Dir (<[x := child']> entries)) = lookup r (Dir entries).
Proof.
  intros Hx Hframe H1 H2. destruct r as [|y r]; [destruct H2; apply prefix_nil|].
  rewrite !lookup_cons. destruct (decide (y = x)) as [->|Hy].
  - rewrite lookup_insert_eq, Hx. simpl. apply Hframe.
    + intros ?. apply H1. by apply prefix_cons.
    + intros ?. apply H2. by apply prefix_cons.
  - by rewrite lookup_insert_ne.
Qed.

(** A system call below [p] acts on the tree at [p]. *)
Lemma mkdir_below p q fs n n' :
  forallb short p = true →
  lookup p fs = Some n → q ≠ [] → mkdir q n = Ok n' →
  ∃ fs', mkdir (p ++ q) fs = Ok fs' ∧ lookup p fs' = Some n' ∧
         ∀ r, ¬ p `prefix_of` r → ¬ r `prefix_of` p → lookup r fs' = lookup r fs.
Proof.
  revert fs. induction p as [|x p IH]; intros fs Hshort Hn Hq Hmk.
  { simpl in *. simplify_eq. exists n'. repeat split; [done|].
    intros r Hr. destruct Hr. apply prefix_nil. }
  apply andb_true_iff in Hshort as [Hx' Hshort].
  apply lookup_cons_Some in Hn as (entries & child & -> & Hx & Hn).
  destruct (IH child Hshort Hn Hq Hmk) as (child' & Hchild & Hn' & Hframe).
  exists (Dir (<[x := child']> entries)). split; [|split].
  - destruct (p ++ q) as [|y rest] eqn:Hpq; [by destruct p, q|].
    simpl. rewrite Hpq. by apply (mkdir_step _ _ _ _ child).
  - by rewrite lookup_cons, lookup_insert_eq.
  - intros r. by apply (lookup_beside _ _ _ child).
Qed.

Lemma writeFile_below p q data fs n n' :
  forallb short p = true →
  lookup p fs = Some n → q ≠ [] → writeFile q data n = Ok n' →
  ∃ fs', writeFile (p ++ q) data fs = Ok fs' ∧ lookup p fs' = Some n' ∧
         ∀ r, ¬ p `prefix_of` r → ¬ r `prefix_of` p → lookup r fs' = lookup r fs.
Proof.
  revert fs. induction p as [|x p IH]; intros fs Hshort Hn Hq Hw.
  { simpl in *. simplify_eq. exists n'. repeat split; [done|].
    intros r Hr. destruct Hr. apply prefix_nil. }
  apply andb_true_iff in Hshort as [Hx' Hshort].
  apply lookup_cons_Some in Hn as (entries & child & -> & Hx & Hn).
  destruct (IH child Hshort Hn Hq Hw) as (child' & Hchild & Hn' & Hframe).
  exists (Dir (<[x := child']> entries)). split; [|split].
  - destruct (p ++ q) as [|y rest] eqn:Hpq; [by destruct p, q|].
    simpl app. rewrite Hpq. by apply (writeFile_step _ _ _ _ _ child).
  - by rewrite lookup_cons, lookup_insert_eq.
  - intros r. by apply (lookup_beside _ _ _ child).
Qed.

(** *** Removing a tree *)

Lemma depth_child entries k child :
  entries !! k = Some child → (depth child < depth (Dir entries))%nat.
Proof.
  change (depth (Dir entries))
    with (S (map_fold (λ (_ : string) child acc, depth child `max` acc) 0%nat entries)).
  intros Hk. apply Nat.lt_succ_r. revert k child Hk.
  apply (map_fold_weak_ind (λ r (m : gmap string node),
    ∀ k child, m !! k = Some child → (depth child ≤ r)%nat)).
  - intros k child. by rewrite lookup_empty.
  - intros i x m r Hi IH k child. rewrite lookup_insert. case_decide.
    + intros [= <-]. lia.
    + intros Hk. specialize (IH _ _ Hk). lia.
Qed.

Lemma removable_child entries k child :
  removable (Dir entries) = true → entries !! k = Some child → removable child = true.
Proof.
  change (removable (Dir entries))
    with (map_fold (λ (_ : string) child acc, removable child && acc) true entries).
  revert k child.
  apply (map_fold_weak_ind (λ r (m : gmap string node),
    ∀ k child, r = true → m !! k = Some child → removable child = true)).
  - intros k child _. by rewrite lookup_empty.
  - intros i x m r Hi IH k child [Hx Hr]%andb_true_iff.
    rewrite lookup_insert. case_decide; [by intros [= <-]|]. by apply IH.
Qed.

(** A directory whose entries can all be removed is emptied. *)
Lemma purge_Dir entries :
  (∀ k child, entries !! k = Some child → purge child = None) →
  purge (Dir entries) = None.
Proof.
  intros Hall.
  set (f := λ (item : string) child (acc : option exn * gmap string node),
              match acc with
              | (Some e, remain) => (Some e, remain)
              | (None, remain) =>
                  match purge child with
                  | None => (None, delete item remain)
                  | Some (e, child') => (Some e, <[item := child']> remain)
                  end
              end).
  change (purge (Dir entries))
    with (match map_fold f (None, entries) entries with
          | (None, _) => None
          | (Some e, remain) => Some (e, Dir remain)
          end).
  assert (∀ init, (map_fold f (None, init) entries).1 = None) as Hfold.
  { intros init. revert Hall.
    apply (map_fold_weak_ind (λ (r : option exn * gmap string node) (m : gmap string node),
      (∀ k child, m !! k = Some child → purge child = None) → r.1 = None)); [done|].
    intros i x m [[e|] remain] Hi IH Hall.
    - exfalso. assert (Some e = None) as Heq; [|done].
      apply IH. intros k child Hk. apply (Hall k).
      rewrite lookup_insert_ne; [done|]. intros ->. by rewrite Hi in Hk.
    - unfold f. by rewrite (Hall i x) by apply lookup_insert_eq. }
  specialize (Hfold entries). by destruct (map_fold f _ entries) as [[e|] remain].
Qed.

Lemma purge_removable n : removable n = true → purge n = None.
Proof.
  assert (∀ d n, (depth n ≤ d)%nat → removable n = true → purge n = None) as Hall.
  { clear n. induction d as [|d IH]; intros [] Hd Hn; try done.
    - simpl in Hd. lia.
    - apply purge_Dir. intros k child Hk. apply IH.
      + pose proof (depth_child _ _ _ Hk). lia.
      + by eapply removable_child. }
  by apply (Hall (depth n)).
Qed.

(** Removing what is at [p], in a directory. *)
Lemma rm_removes p fs :
  p ≠ [] → forallb short p = true → is_dir (lookup (removelast p) fs) →
  (∀ n, lookup p fs = Some n → purge n = None) →
  ∃ fs', rm p fs = (Ok (), fs') ∧ lookup p fs' = None ∧
         is_dir (lookup (removelast p) fs') ∧
         ∀ r, ¬ p `prefix_of` r → ¬ r `prefix_of` p → lookup r fs' = lookup r fs.
Proof.
  revert fs. induction p as [|x rest IH]; intros fs Hne Hshort Hdir Hpurge; [done|].
  apply andb_true_iff in Hshort as [Hx' Hshort].
  destruct rest as [|y rest].
  - destruct Hdir as [entries Hfs]. simpl in Hfs. simplify_eq.
    simpl rm. rewrite Hx'. destruct (entries !! x) as [child|] eqn:Hx.
    + rewrite (Hpurge child) by (by rewrite lookup_cons, Hx).
      exists (Dir (delete x entries)). split; [done|]. split; [|split].
      * by rewrite lookup_cons, lookup_delete_eq.
      * unfold is_dir. simpl. eauto.
      * intros [|z r] H1 H2; [destruct H2; apply prefix_nil|].
        rewrite !lookup_cons. destruct (decide (z = x)) as [->|Hz].
        -- destruct H1. apply prefix_cons, prefix_nil.
        -- by rewrite lookup_delete_ne.
    + exists (Dir entries). split; [done|]. split; [|split].
      * by rewrite lookup_cons, Hx.
      * unfold is_dir. simpl. eauto.
      * done.
  - change (removelast (x :: y :: rest)) with (x :: removelast (y :: rest)) in *.
    destruct Hdir as [entries' Hdir].
    apply lookup_cons_Some in Hdir as (entries & child & -> & Hx & Hdir).
    destruct (IH child) as (child' & Hchild & Hgone & Hdir' & Hframe);
      [done|done|unfold is_dir; eauto| |].
    { intros n Hn. apply Hpurge. by rewrite lookup_cons, Hx. }
    exists (Dir (<[x := child']> entries)). split; [|split; [|split]].
    + change (rm (x :: y :: rest) (Dir entries))
        with (if short x then
                match entries !! x with
                | Some child =>
                    let (r, child') := rm (y :: rest) child in
                    (r, Dir (<[x := child']> entries))
                | None => (Ok (), Dir entries)
                end
              else (Throw (Error "ENAMETOOLONG: name too long, lstat"), Dir entries)).
      by rewrite Hx', Hx, Hchild.
    + by rewrite lookup_cons, lookup_insert_eq.
    + by rewrite lookup_cons, lookup_insert_eq.
    + intros r. by apply (lookup_beside _ _ _ child).
Qed.

(** *** The scaffold *)

Lemma fits_inv p :
  fits p = true →
  nameable p = true ∧ nameable (p ++ ["src"]) = true ∧ nameable (p ++ ["test"]) = true ∧
  nameable (p ++ ["package.json"]) = true ∧ nameable (p ++ ["src"; "index.js"]) = true ∧
  nameable (p ++ ["src"; "utils.js"]) = true ∧
  nameable (p ++ ["test"; "utils.test.js"]) = true.
Proof.
  unfold fits. simpl. rewrite !andb_true_iff. intros (H1 & H2 & H3 & H4 & _).
  repeat split; try done.
  - apply (nameable_prefix _ _ (prefix_app_r p p ["package.json"] (reflexivity p)) H1).
  - refine (nameable_prefix _ _ _ H2). apply prefix_app. by exists ["index.js"].
  - refine (nameable_prefix _ _ _ H4). apply prefix_app. by exists ["utils.test.js"].
Qed.

(** Where the directory above [p] exists, [p] is no link that cannot be
    followed, what [p] holds can be removed and the paths of the scaffold
    are names the calls take, the scaffold completes and leaves its own
    tree at [p], whatever was there; what is beside [p] stays. *)
Lemma scaffold_result typed p w :
  p ≠ [] → fits p = true → is_dir (lookup (removelast p) (disk w)) →
  (∀ msg, lookup p (disk w) ≠ Some (NoStat msg)) →
  (∀ n, lookup p (disk w) = Some n → removable n = true) →
  ∃ w', createDummyProject typed (Plain p) w = (Ok (), w') ∧
        lookup p (disk w') = Some dummy_project ∧
        console w' = console w ++ [DummyCreated] ∧
        ∀ r, ¬ p `prefix_of` r → ¬ r `prefix_of` p →
             lookup r (disk w') = lookup r (disk w).
Proof.
  intros Hne (Hp & Hsrc & Htest & Hpkg & Hindex & Hutils & Hutest)%fits_inv Hdir Hlink Hrm.
  pose proof (nameable_short _ Hp) as Hshort.
  assert (∃ fs1, (if Fs.existsSync (disk w) p then Fs.rmSync p (disk w)
                  else (Ok (), disk w)) = (Ok (), fs1) ∧
                 lookup p fs1 = None ∧ is_dir (lookup (removelast p) fs1) ∧
                 ∀ r, ¬ p `prefix_of` r → ¬ r `prefix_of` p →
                      lookup r fs1 = lookup r (disk w))
    as (fs1 & Hstep1 & Hfree & Hdir1 & Hframe1).
  { destruct (Fs.existsSync (disk w) p) eqn:Hex.
    - unfold Fs.rmSync. rewrite (nameable_accepts _ Hp).
      destruct (rm_removes p (disk w) Hne Hshort Hdir) as (fs1 & ? & ? & ? & ?); [|by eauto].
      intros n Hn. by apply purge_removable, Hrm.
    - exists (disk w). repeat split; try done.
      destruct (existsSync_false _ _ Hp Hex) as [?|[msg Hmsg]]; [done|].
      by destruct (Hlink msg). }
  destruct (mkdir_ready p fs1 Hshort Hne Hfree Hdir1) as (fs2 & Hmk).
  pose proof (mkdir_target _ _ _ Hmk) as Hn2. apply mkdir_mkdirp in Hmk.
  edestruct (mkdir_below p ["src"] fs2) as (fs3 & Hmk3 & Hn3 & Hframe3);
    [done|exact Hn2|done|reflexivity|].
  edestruct (mkdir_below p ["test"] fs3) as (fs4 & Hmk4 & Hn4 & Hframe4);
    [done|exact Hn3|done|reflexivity|].
  edestruct (writeFile_below p ["package.json"] package_json fs4)
    as (fs5 & Hw5 & Hn5 & Hframe5); [done|exact Hn4|done|reflexivity|].
  edestruct (writeFile_below p ["src"; "index.js"] index_js fs5)
    as (fs6 & Hw6 & Hn6 & Hframe6); [done|exact Hn5|done|reflexivity|].
  edestruct (writeFile_below p ["src"; "utils.js"] utils_js fs6)
    as (fs7 & Hw7 & Hn7 & Hframe7); [done|exact Hn6|done|reflexivity|].
  edestruct (writeFile_below p ["test"; "utils.test.js"] utils_test_js fs7)
    as (fs8 & Hw8 & Hn8 & Hframe8); [done|exact Hn7|done|reflexivity|].
  apply (mkdirpSync_Ok _ _ _ (nameable_accepts _ Hp)) in Hmk as Hcall2.
  apply (atomic_Ok _ _ _ _ (nameable_accepts _ Hsrc)) in Hmk3.
  apply (atomic_Ok _ _ _ _ (nameable_accepts _ Htest)) in Hmk4.
  apply (atomic_Ok _ _ _ _ (nameable_accepts _ Hpkg)) in Hw5.
  apply (atomic_Ok _ _ _ _ (nameable_accepts _ Hindex)) in Hw6.
  apply (atomic_Ok _ _ _ _ (nameable_accepts _ Hutils)) in Hw7.
  apply (atomic_Ok _ _ _ _ (nameable_accepts _ Hutest)) in Hw8.
  exists {| disk := fs8; console := console w ++ [DummyCreated] |}.
  split; [|split; [|split]].
  - unfold createDummyProject, under, joined_root. io_unfold.
    unfold Fs.mkdirSync, Fs.writeSync. simpl.
    destruct (Fs.existsSync (disk w) p); simpl;
      [rewrite Hstep1|injection Hstep1 as <-]; simpl;
      rewrite Hcall2; simpl; rewrite Hmk3; simpl; rewrite Hmk4; simpl;
      rewrite Hw5; simpl; rewrite Hw6; simpl; rewrite Hw7; simpl;
      rewrite Hw8; done.
  - simpl. rewrite Hn8. reflexivity.
  - done.
  - intros r H1 H2. simpl.
    rewrite Hframe8, Hframe7, Hframe6, Hframe5, Hframe4, Hframe3 by done.
    rewrite (mkdirp_frame _ _ _ _ Hmk); [by apply Hframe1|].
    intros Hr. by apply H2.
Qed.

(** ** What the specification says of the reader script *)

(** Only the scaffold can make the script throw: neither reading nor
    saving does. *)
Lemma scan_completes stringify typed cwd dirname targetPath w :
  succeeds (scan stringify typed cwd dirname targetPath w).1 =
  succeeds (createDummyProject typed (hand cwd targetPath) w).1.
Proof.
  unfold scan, read. io_unfold. simpl.
  destruct (createDummyProject typed (hand cwd targetPath) w) as [[[]|e] w1]; simpl; [|done].
  by destruct (Fs.writeSync _ _ _) as [[[]|e] fs1].
Qed.

Lemma read_unlistable typed projectPath w :
  unlistable typed projectPath (disk w) →
  ∃ e, (read typed projectPath w).1 = Ok (error_marker e).
Proof.
  unfold read, inspect. destruct projectPath as [p|s]; simpl.
  - intros (e & ->)%unlistable_gives_marker. eauto.
  - intros (e & He). unfold read_typed. rewrite He. eauto.
Qed.

(** C8, as the code has it.  The reader script exits with code 1, after a
    usage error on the console and without touching the disk, when the
    directory argument is missing or empty.  A root that cannot be listed
    is no reason for exit code 1: [readDirectoryStructure] then returns
    the error marker without raising.  With an argument, the exit code is
    0 unless an exception escapes the script, which neither reading the
    root nor saving the JSON can raise. *)
Theorem reader_exit_code stringify typed cwd dirname argv2 w :
  (argv2 = None ∨ argv2 = Some "" →
   ReadProject.main stringify typed cwd dirname argv2 w =
     (1%Z, {| disk := disk w; console := console w ++ [ReaderUsage] |}) ∧
   is_error ReaderUsage = true) ∧
  (∀ targetPath, argv2 = Some targetPath → targetPath ≠ "" →
   (unlistable typed (hand cwd targetPath) (disk w) →
    ∃ e, (read typed (hand cwd targetPath) w).1 = Ok (error_marker e)) ∧
   (ReadProject.main stringify typed cwd dirname argv2 w).1 =
     if succeeds (createDummyProject typed (hand cwd targetPath) w).1
     then 0%Z else 1%Z).
Proof.
  split.
  - by intros [-> | ->].
  - intros targetPath -> Hne. split; [apply read_unlistable|].
    unfold ReadProject.main. rewrite bool_decide_false by done.
    rewrite <- (scan_completes stringify typed cwd dirname targetPath w).
    by destruct (scan stringify typed cwd dirname targetPath w) as [[[]|e] w1].
Qed.

(** A root that is a regular file: it cannot be listed, and the script
    exits with code 0. *)
Lemma reader_exit_code_witness :
  let w := {| disk := Dir {[ "notes.txt" := File "n" ]}; console := [] |} in
  (∃ e, (read lexical_calls (Plain ["notes.txt"]) w).1 = Ok (error_marker e)) ∧
  (ReadProject.main stringify_any lexical_calls [] [] (Some "/notes.txt") w).1 = 0%Z.
Proof.
  intros w.
  destruct (proj2 (reader_exit_code stringify_any lexical_calls [] [] (Some "/notes.txt") w)
              "/notes.txt") as (Hmarker & Hcode); [reflexivity|done|].
  split.
  - apply Hmarker. intros entries. by vm_compute.
  - rewrite Hcode. by vm_compute.
Defined.

(** C8 as stated fails: the root given does not exist, so it cannot be
    listed and the reader returns the error marker, yet the script exits
    with code 0. *)
Lemma reader_exit_code_counterexample :
  let w := {| disk := Dir ∅; console := [] |} in
  readDirectoryStructure (disk w) ["missing"]
    = error_marker (Error "ENOENT: no such file or directory, scandir") ∧
  (ReadProject.main stringify_any lexical_calls [] [] (Some "/missing") w).1 = 0%Z.
Proof. split; vm_compute; reflexivity. Qed.

(** C1, evaluated where it fails.  The script is given the directory
    [/proj], which holds the file [keep.txt].  It exits with code 0, but
    the scaffold has removed [keep.txt] and put its own files in [/proj],
    and the mapping printed is the reading of those files: it has no entry
    for [keep.txt]. *)
Theorem scan_replaces_the_directory stringify typed :
  let w := {| disk := Dir {[ "proj" := Dir {[ "keep.txt" := File "data" ]} ]};
              console := [] |} in
  let out := ReadProject.main stringify typed [] [] (Some "/proj") w in
  out.1 = 0%Z ∧
  lookup ["proj"; "keep.txt"] (disk out.2) = None ∧
  lookup ["proj"; "src"; "index.js"] (disk out.2) = Some (File index_js) ∧
  console out.2 =
    [DummyCreated;
     GeneratedJson (VObj {[ "package.json" := VStr package_json;
                            "src" := VObj {[ "index.js" := VStr index_js;
                                             "utils.js" := VStr utils_js ]};
                            "test" := VObj {[ "utils.test.js" := VStr utils_test_js ]} ]});
     SavedJson].
Proof. vm_compute. repeat split; reflexivity. Qed.

(** * Further properties *)

(** ** The reader, path by path *)








(** X3. The error marker is not told apart from content: a directory whose
    listing fails with message [msg] and a directory that holds the single
    file [error] with the text [Error reading directory: msg] are read as
    the same value. *)
Theorem error_marker_is_ambiguous fs fs' dirPath dirPath' msg :
  lookup dirPath fs = Some (NoListDir msg) →
  lookup dirPath' fs' =
    Some (Dir {[ "error" := File ("Error reading directory: " +:+ msg) ]}) →
  readDirectoryStructure fs dirPath = readDirectoryStructure fs' dirPath'.
Proof.
  intros Hfail Hdir. unfold readDirectoryStructure. rewrite Hfail, Hdir.
  rewrite read_node_Dir, map_fold_singleton, visit_Ok. simpl.
  unfold Js.set. rewrite decide_False by done. by rewrite insert_empty.
Qed.

Lemma error_marker_is_ambiguous_witness :
  readDirectoryStructure (Dir {[ "locked" := NoListDir "EACCES" ]}) ["locked"] =
  readDirectoryStructure
    (Dir {[ "open" := Dir {[ "error" := File "Error reading directory: EACCES" ]} ]})
    ["open"].
Proof.
  apply (error_marker_is_ambiguous _ _ ["locked"] ["open"] "EACCES"); reflexivity.
Defined.

(** ** The writer, run by run *)

Lemma generateProject_accepted parse cwd jsonFilePath outputDir files w :
  accepted (input parse (disk w) (Path.resolve cwd jsonFilePath)) = Some files →
  ∃ r, exec_run (Path.resolve cwd outputDir) files (disk w)
         = (r, disk (generateProject parse cwd jsonFilePath outputDir w).2) ∧
       (generateProject parse cwd jsonFilePath outputDir w).1
         = if succeeds r then Returned else Exited 1.
Proof.
  intros Hin. rewrite <- (generate_accepted _ _ jsonFilePath _ _ _ Hin).
  unfold generateProject, outcome.
  destruct (generate parse cwd jsonFilePath outputDir w) as [[[]|e] w1]; eauto.
Qed.

Lemma generateProject_rejected parse cwd jsonFilePath outputDir w :
  accepted (input parse (disk w) (Path.resolve cwd jsonFilePath)) = None →
  (generateProject parse cwd jsonFilePath outputDir w).1 = Exited 1 ∧
  disk (generateProject parse cwd jsonFilePath outputDir w).2 = disk w.
Proof.
  intros Hin.
  destruct (generate_rejected parse cwd jsonFilePath outputDir w Hin) as (e & Hrun).
  unfold generateProject, outcome in *.
  destruct (generate parse cwd jsonFilePath outputDir w) as [[[]|e'] w1];
    simpl in *; by simplify_eq.
Qed.

Lemma exec_run_exists projectRoot files fs r fs' q :
  exec_run projectRoot files fs = (r, fs') →
  Fs.existsSync fs q = true → Fs.existsSync fs' q = true.
Proof.
  intros [(e & _ & -> & _)|(fs0 & Hroot & Hexec)]%exec_run_inv Hq; [done|].
  eapply exec_plans_exists; [done|].
  destruct Hroot as [[_ ->]|(_ & _ & Hmk)]; [done|].
  eapply mkdirp_exists; [by apply mkdir_mkdirp|done].
Qed.

(** X4. The writer removes nothing: whatever path exists before a run,
    whether the run completes or not, exists after it. *)
Theorem writer_never_removes parse cwd jsonFilePath outputDir w q :
  Fs.existsSync (disk w) q = true →
  Fs.existsSync (disk (generateProject parse cwd jsonFilePath outputDir w).2) q = true.
Proof.
  intros Hq. destruct (accepted (input parse (disk w) (Path.resolve cwd jsonFilePath))) as [files|] eqn:Hin.
  - destruct (generateProject_accepted parse cwd jsonFilePath outputDir files w Hin)
      as (r & Hrun & _).
    by eapply exec_run_exists.
  - by rewrite (proj2 (generateProject_rejected parse cwd jsonFilePath outputDir w Hin)).
Qed.

Lemma writer_never_removes_witness :
  let es := [("new.txt", "new"); ("old.txt/x", "no")] in
  let w := {| disk := with_document (document_text es)
                        {[ "out" := Dir {[ "old.txt" := File "old" ]} ]};
              console := [] |} in
  Fs.existsSync
    (disk (generateProject (parse_documents [es]) [] "in.json" "out" w).2)
    ["out"; "old.txt"] = true.
Proof.
  intros es w. apply writer_never_removes. reflexivity.
Defined.

Lemma exec_run_keeps projectRoot files fs r fs' q content :
  exec_run projectRoot files fs = (r, fs') →
  lookup q fs = Some (File content) →
  (∀ data, Store q data ∉ map (classify projectRoot) files) →
  lookup q fs' = Some (File content).
Proof.
  intros [(e & _ & -> & _)|(fs0 & Hroot & Hexec)]%exec_run_inv Hq Hother; [done|].
  eapply exec_plans_keeps; [done| |].
  - destruct Hroot as [[_ ->]|(_ & _ & Hmk)]; [done|].
    eapply mkdirp_keeps; [by apply mkdir_mkdirp|done].
  - intros (data & Hin)%written_store. by eapply Hother.
Qed.

(** X5. The root is reused, not cleared: on a disk that is a tree (no hard
    link, no symbolic link a call can follow), a regular file that no
    entry of the document names keeps its content through a run, whether
    the run completes or not. *)
Theorem writer_keeps_other_files parse cwd jsonFilePath outputDir w q content :
  lookup q (disk w) = Some (File content) →
  (∀ files file name,
     accepted (input parse (disk w) (Path.resolve cwd jsonFilePath)) = Some files →
     file ∈ files → named file name →
     Path.segments (Path.join (Path.resolve cwd outputDir) name) ≠ q) →
  lookup q (disk (generateProject parse cwd jsonFilePath outputDir w).2)
    = Some (File content).
Proof.
  intros Hq Hother.
  destruct (accepted (input parse (disk w) (Path.resolve cwd jsonFilePath)))
    as [files|] eqn:Hin.
  - destruct (generateProject_accepted parse cwd jsonFilePath outputDir files w Hin)
      as (r & Hrun & _).
    eapply exec_run_keeps; [done..|].
    intros data (file & Hclass & Hfile)%list_elem_of_fmap.
    symmetry in Hclass. apply classify_store_inv in Hclass as (name & Hname & ->).
    by eapply Hother.
  - by rewrite (proj2 (generateProject_rejected parse cwd jsonFilePath outputDir w Hin)).
Qed.

Lemma writer_keeps_other_files_witness :
  let es := [("new.txt", "new")] in
  let w := {| disk := with_document (document_text es)
                        {[ "out" := Dir {[ "old.txt" := File "old" ]} ]};
              console := [] |} in
  lookup ["out"; "old.txt"]
    (disk (generateProject (parse_documents [es]) [] "in.json" "out" w).2)
    = Some (File "old").
Proof.
  intros es w. apply writer_keeps_other_files; [reflexivity|].
  intros files file name Hfiles. vm_compute in Hfiles. injection Hfiles as <-.
  intros ->%list_elem_of_singleton (v & Hname & Htext).
  vm_compute in Hname. injection Hname as <-.
  vm_compute in Htext. injection Htext as <-. by vm_compute.
Defined.

Lemma writeFile_origin p data fs fs' q content :
  writeFile p data fs = Ok fs' → lookup q fs' = Some (File content) →
  q = p ∧ content = data ∨ lookup q fs = Some (File content).
Proof.
  intros Hw Hq. destruct (decide (q = p)) as [->|Hne].
  { rewrite (writeFile_target _ _ _ _ Hw) in Hq. left. by simplify_eq. }
  right. destruct (decide (q `prefix_of` p)) as [Hpre|Hpre].
  - destruct (writeFile_above _ _ _ _ q Hw Hpre Hne) as [_ [entries Hdir]].
    by rewrite Hdir in Hq.
  - by rewrite <- (writeFile_frame _ _ _ _ q Hw Hpre).
Qed.

Lemma mkdirp_origin p fs fs' q content :
  mkdirp p fs = Ok fs' → lookup q fs' = Some (File content) →
  lookup q fs = Some (File content).
Proof.
  intros Hmk Hq. destruct (decide (q = p)) as [->|Hne].
  { destruct (mkdirp_target _ _ _ Hmk) as (n & Hn & Hstat).
    rewrite Hn in Hq. by simplify_eq. }
  destruct (decide (q `prefix_of` p)) as [Hpre|Hpre].
  - destruct (mkdirp_above _ _ _ q Hmk Hpre Hne) as [entries Hdir].
    by rewrite Hdir in Hq.
  - by rewrite <- (mkdirp_frame _ _ _ _ Hmk Hpre).
Qed.

Lemma exec_plan_origin pl fs r fs0 q content :
  exec_plan pl fs = (r, fs0) → lookup q fs0 = Some (File content) →
  pl = Store q (Ok content) ∨ lookup q fs = Some (File content).
Proof.
  intros Hexec Hq.
  destruct pl as [|e'|target data]; simpl in Hexec; [right; by simplify_eq..|].
  destruct (prepare target fs) as [r1 fs1] eqn:Hprep.
  assert (Hstep : lookup q fs1 = Some (File content) → lookup q fs = Some (File content)).
  { destruct (prepare_state _ _ _ _ Hprep) as [->|(q' & _ & Hmk)]; [done|].
    by eapply mkdirp_origin. }
  destruct r1 as [[]|e1]; [|right; simplify_eq; by apply Hstep].
  destruct data as [s|e2]; [|right; simplify_eq; by apply Hstep].
  apply atomic_inv in Hexec as [(_ & _ & Hw)|(e2 & _ & ->)]; [|right; by apply Hstep].
  destruct (writeFile_origin _ _ _ _ _ _ Hw Hq) as [[-> ->]|?];
    [by left|right; by apply Hstep].
Qed.

Lemma exec_plans_origin pls fs r fs1 q content :
  exec_plans pls fs = (r, fs1) → lookup q fs1 = Some (File content) →
  Store q (Ok content) ∈ pls ∨ lookup q fs = Some (File content).
Proof.
  revert fs. induction pls as [|pl pls IH]; intros fs Hexec Hq;
    [right; by simplify_eq/=|].
  rewrite exec_plans_cons in Hexec.
  destruct (exec_plan pl fs) as [[[]|e] fs0] eqn:Hpl.
  - destruct (IH _ Hexec Hq) as [?|Hq0]; [left; set_solver|].
    destruct (exec_plan_origin _ _ _ _ _ _ Hpl Hq0) as [->|?]; [left; set_solver|by right].
  - simplify_eq.
    destruct (exec_plan_origin _ _ _ _ _ _ Hpl Hq) as [->|?]; [left; set_solver|by right].
Qed.

Lemma exec_run_origin projectRoot files fs r fs' q content :
  exec_run projectRoot files fs = (r, fs') → lookup q fs' = Some (File content) →
  Store q (Ok content) ∈ map (classify projectRoot) files ∨
  lookup q fs = Some (File content).
Proof.
  intros [(e & _ & -> & _)|(fs0 & Hroot & Hexec)]%exec_run_inv Hq; [by right|].
  destruct (exec_plans_origin _ _ _ _ _ _ Hexec Hq) as [?|Hq0]; [by left|right].
  destruct Hroot as [[_ ->]|(_ & _ & Hmk)]; [done|].
  eapply mkdirp_origin; [by apply mkdir_mkdirp|done].
Qed.

Lemma classify_store_ok_inv projectRoot file target data :
  classify projectRoot file = Store target (Ok data) →
  ∃ name, named file name ∧ holds file data ∧ name ≠ "" ∧
          target = Path.segments (Path.join projectRoot name) ∧
          Path.trailing (Path.join projectRoot name) = false.
Proof.
  unfold classify, named, holds.
  destruct (Js.get file "name") as [name|e]; [|done].
  destruct (truthy name) eqn:Htruthy; simpl; [|done].
  destruct (Js.get file "content") as [[content|]|e]; try done.
  destruct (Js.text name) as [s|] eqn:Hs; [|done]. unfold payload.
  destruct (Js.text (Some content)) as [text|] eqn:Htext; [|done].
  destruct (Path.trailing (Path.join projectRoot s)) eqn:Htr; [done|].
  intros [= <- <-]. exists s. repeat split; eauto.
  intros ->. by destruct name as [[]|].
Qed.

(** X6. The writer makes no file of its own: on a disk that is a tree (no
    hard link, no symbolic link a call can follow), a regular file found
    after a run, whether the run completes or not, was there before with
    the same content, or is at the path of a listed entry and holds the
    text of that entry's content. *)
Theorem writer_creates_only_listed parse cwd jsonFilePath outputDir w q content :
  lookup q (disk (generateProject parse cwd jsonFilePath outputDir w).2)
    = Some (File content) →
  lookup q (disk w) = Some (File content) ∨
  ∃ files file name,
    accepted (input parse (disk w) (Path.resolve cwd jsonFilePath)) = Some files ∧
    file ∈ files ∧ named file name ∧ holds file content ∧
    Path.segments (Path.join (Path.resolve cwd outputDir) name) = q.
Proof.
  intros Hq.
  destruct (accepted (input parse (disk w) (Path.resolve cwd jsonFilePath)))
    as [files|] eqn:Hin.
  - destruct (generateProject_accepted parse cwd jsonFilePath outputDir files w Hin)
      as (r & Hrun & _).
    destruct (exec_run_origin _ _ _ _ _ _ _ Hrun Hq) as [Hstore|?]; [right|by left].
    apply list_elem_of_fmap in Hstore as (file & Hclass & Hfile).
    symmetry in Hclass.
    apply classify_store_ok_inv in Hclass as (name & Hname & Hcontent & _ & -> & _).
    exists files, file, name. eauto.
  - left. by rewrite (proj2 (generateProject_rejected parse cwd jsonFilePath outputDir w Hin))
      in Hq.
Qed.

Lemma writer_creates_only_listed_witness :
  let es := [("a.txt", "hi"); ("sub/b.txt", "yo")] in
  let parse := parse_documents [es] in
  let w := {| disk := with_document (document_text es) ∅; console := [] |} in
  lookup ["out"; "sub"; "b.txt"] (disk w) = Some (File "yo") ∨
  ∃ files file name,
    accepted (input parse (disk w) (Path.resolve [] "in.json")) = Some files ∧
    file ∈ files ∧ named file name ∧ holds file "yo" ∧
    Path.segments (Path.join (Path.resolve [] "out") name) = ["out"; "sub"; "b.txt"].
Proof.
  intros es parse w.
  apply (writer_creates_only_listed parse [] "in.json" "out" w).
  by vm_compute.
Defined.



Lemma exec_run_app projectRoot files1 files2 fs :
  exec_run projectRoot (files1 ++ files2) fs =
    match exec_run projectRoot files1 fs with
    | (Ok _, fs1) => exec_plans (map (classify projectRoot) files2) fs1
    | (Throw e, fs1) => (Throw e, fs1)
    end.
Proof.
  unfold exec_run.
  destruct (if Fs.existsSync fs projectRoot then _ else _) as [[[]|e] fs0]; [|done].
  by rewrite map_app, exec_plans_app.
Qed.

Lemma exec_plans_stop pls1 pl pls2 fs :
  (exec_plans pls1 fs).1 = Ok () →
  (exec_plans (pls1 ++ [pl]) fs).1 ≠ Ok () →
  exec_plans (pls1 ++ pl :: pls2) fs = exec_plans (pls1 ++ [pl]) fs.
Proof.
  rewrite !exec_plans_app.
  destruct (exec_plans pls1 fs) as [[[]|e] fs1]; [|done]. intros _.
  rewrite !exec_plans_cons. by destruct (exec_plan pl fs1) as [[[]|e] fs2].
Qed.

(** X8. No rollback, and no going on: when the run on the entries [before]
    completes and the entry [file] after them fails, the run on
    [before], [file] and any further entries ends with exit code 1 on the
    disk the failing entry left: nothing of the further entries is
    processed, and every file the run on [before] leaves is still there
    with its content.  (The three documents are three input files of the
    same disk.) *)
Theorem run_stops_at_first_failure parse cwd j0 j1 j outputDir before file after w :
  accepted (input parse (disk w) (Path.resolve cwd j0)) = Some before →
  accepted (input parse (disk w) (Path.resolve cwd j1)) = Some (before ++ [file]) →
  accepted (input parse (disk w) (Path.resolve cwd j)) = Some (before ++ file :: after) →
  (generateProject parse cwd j0 outputDir w).1 = Returned →
  (generateProject parse cwd j1 outputDir w).1 = Exited 1 →
  let full := generateProject parse cwd j outputDir w in
  full.1 = Exited 1 ∧
  disk full.2 = disk (generateProject parse cwd j1 outputDir w).2 ∧
  ∀ q content,
    lookup q (disk (generateProject parse cwd j0 outputDir w).2) = Some (File content) →
    lookup q (disk full.2) = Some (File content).
Proof.
  intros Hin0 Hin1 Hin Hbefore Hfailed full. unfold full. clear full.
  destruct (generateProject_accepted parse cwd j0 outputDir _ w Hin0)
    as (r0 & Hrun0 & Hcode0).
  destruct (generateProject_accepted parse cwd j1 outputDir _ w Hin1)
    as (r1 & Hrun1 & Hcode1).
  destruct (generateProject_accepted parse cwd j outputDir _ w Hin)
    as (r2 & Hrun2 & Hcode2).
  rewrite Hbefore in Hcode0. rewrite Hfailed in Hcode1.
  destruct r0 as [[]|e0]; [|done]. destruct r1 as [[]|e1]; [done|].
  set (projectRoot := Path.resolve cwd outputDir) in *.
  rewrite exec_run_app, Hrun0 in Hrun1.
  change (before ++ file :: after) with (before ++ [file] ++ after) in Hrun2.
  rewrite exec_run_app, Hrun0, map_app, exec_plans_app, Hrun1 in Hrun2.
  simpl in Hrun2. injection Hrun2 as Hr Hdisk. subst r2.
  split; [done|]. split; [done|].
  intros q content Hq. rewrite <- Hdisk.
  simpl in Hrun1.
  destruct (exec_plan (classify projectRoot file) _) as [[[]|e] fs2] eqn:Hpl;
    [done|]. injection Hrun1 as -> <-.
  eapply exec_plan_keeps; [done..|]. by intros.
Qed.

Lemma run_stops_at_first_failure_witness :
  let es0 := [("a", "x")] in
  let es1 := [("a", "x"); ("a/b", "y")] in
  let es := [("a", "x"); ("a/b", "y"); ("c", "z")] in
  let parse := parse_documents [es0; es1; es] in
  let w := {| disk := Dir {[ "in0.json" := File (document_text es0);
                            "in1.json" := File (document_text es1);
                            "in.json" := File (document_text es) ]};
              console := [] |} in
  let full := generateProject parse [] "in.json" "out" w in
  full.1 = Exited 1 ∧
  disk full.2 = disk (generateProject parse [] "in1.json" "out" w).2 ∧
  ∀ q content,
    lookup q (disk (generateProject parse [] "in0.json" "out" w).2)
      = Some (File content) →
    lookup q (disk full.2) = Some (File content).
Proof.
  intros es0 es1 es parse w.
  apply (run_stops_at_first_failure parse [] "in0.json" "in1.json" "in.json" "out"
           [entry "a" "x"] (entry "a/b" "y") [entry "c" "z"] w); by vm_compute.
Defined.

Lemma text_truthy name s : Js.text name = Some s → s ≠ "" → truthy name = true.
Proof.
  unfold Js.text. intros Htext Hne.
  destruct name as [[]|]; simplify_eq; by apply bool_decide_eq_true.
Qed.

Lemma unwritable_failing projectRoot file :
  unwritable file → failing (classify projectRoot file).
Proof.
  unfold classify.
  destruct 1 as [|file name c Hname Htruthy Htext Hcontent
                 |file name s c Hname Htext Hne Hcontent Hc
                 |file name s c Hname Htext Hne Hcontent Hlast]; simpl; [done|..].
  - rewrite Hname, Htruthy, Hcontent. simpl. by rewrite Htext.
  - rewrite Hname, Hcontent, (text_truthy _ _ Htext Hne). simpl.
    rewrite Htext. unfold payload. by rewrite Hc.
  - rewrite Hname, Hcontent, (text_truthy _ _ Htext Hne). simpl.
    rewrite Htext. unfold payload. simpl. rewrite bool_decide_true by done.
    by destruct (Js.text (Some c)).
Qed.

Lemma exec_plan_failing pl fs : failing pl → (exec_plan pl fs).1 ≠ Ok ().
Proof.
  destruct pl as [|e|target [s|e]]; try done. intros _. simpl.
  by destruct (prepare target fs) as [[[]|e1] fs1].
Qed.

Lemma exec_plans_failing pls pl fs :
  pl ∈ pls → failing pl → (exec_plans pls fs).1 ≠ Ok ().
Proof.
  revert fs. induction pls as [|pl' pls IH]; intros fs Hin Hpl; [by set_solver|].
  rewrite exec_plans_cons.
  destruct (exec_plan pl' fs) as [[[]|e] fs0] eqn:Hexec; [|done].
  apply elem_of_cons in Hin as [->|Hin]; [|by apply IH].
  pose proof (exec_plan_failing pl' fs Hpl) as Hfail. by rewrite Hexec in Hfail.
Qed.

(** X9. Only an entry without name or without content is skipped.  A
    document that lists, anywhere, [null], or an entry with a name and a
    content of which the name is no string, the content is no string, or
    the name ends in a separator, makes every run end with exit code 1,
    on every disk. *)
Theorem unwritable_entry_ends_run parse cwd jsonFilePath argv3 files file w :
  accepted (input parse (disk w) (Path.resolve cwd jsonFilePath)) = Some files →
  file ∈ files → unwritable file →
  jsonFilePath ≠ "" →
  (Writer.main parse cwd (Some jsonFilePath) argv3 w).1 = 1%Z.
Proof.
  intros Hin Hfile Hbad Hne.
  pose proof (main_disk parse cwd (Some jsonFilePath) argv3 w) as Hmain.
  cbv beta iota in Hmain. rewrite (bool_decide_false (jsonFilePath = "")), Hin in Hmain by done.
  destruct (exec_run _ files (disk w)) as [r fs'] eqn:Hrun.
  destruct r as [[]|e]; [|by injection Hmain].
  apply exec_run_plans in Hrun as (fs0 & Hplans).
  destruct (exec_plans_failing (map (classify (Path.resolve cwd (default_dir argv3))) files)
              (classify (Path.resolve cwd (default_dir argv3)) file) fs0).
  - apply list_elem_of_fmap. eauto.
  - by apply unwritable_failing.
  - by rewrite Hplans.
Qed.

(** A document whose second entry has the number 7 for a name. *)
Lemma unwritable_entry_ends_run_witness :
  let numbered := VObj {[ "name" := VNum 7; "content" := VStr "y" ]} in
  let text :=
    jobj [("project_files",
           jarr [jobj [("name", jstr "a.txt"); ("content", jstr "x")];
                 jobj [("name", "7"); ("content", jstr "y")]])] in
  let parse :=
    parse_table [(text, VObj {[ "project_files" := VArr [entry "a.txt" "x"; numbered] ]})] in
  (Writer.main parse [] (Some "in.json") (Some "out")
     {| disk := with_document text ∅; console := [] |}).1 = 1%Z.
Proof.
  intros numbered text parse.
  apply (unwritable_entry_ends_run parse [] "in.json" (Some "out")
           [entry "a.txt" "x"; numbered] numbered).
  - by vm_compute.
  - set_solver.
  - by apply (unwritable_name _ (Some (VNum 7)) (VStr "y")).
  - done.
Defined.

Lemma mkdir_needs_parent p fs :
  p ≠ [] → ¬ is_dir (lookup (removelast p) fs) →
  lookup p fs = None ∧ ∃ e, mkdir p fs = Throw e.
Proof.
  revert fs. induction p as [|x [|y rest] IH]; intros fs Hne Hdir; [done|..].
  - destruct fs as [|entries| | | |]; simpl; eauto. destruct Hdir. by eexists.
  - destruct fs as [|entries| | | |]; try (simpl; by eauto).
    change (removelast (x :: y :: rest)) with (x :: removelast (y :: rest)) in Hdir.
    change (lookup (x :: y :: rest) (Dir entries))
      with (entries !! x ≫= lookup (y :: rest)).
    change (lookup (x :: removelast (y :: rest)) (Dir entries))
      with (entries !! x ≫= lookup (removelast (y :: rest))) in Hdir.
    destruct (short x) eqn:Hshort; [|rewrite mkdir_long by done].
    + change (mkdir (x :: y :: rest) (Dir entries))
        with (if short x then
                match entries !! x with
                | Some child =>
                    child' ← mkdir (y :: rest) child; Ok (Dir (<[x := child']> entries))
                | None => Throw (Error "ENOENT: no such file or directory, mkdir")
                end
              else Throw (Error "ENAMETOOLONG: name too long, mkdir")).
      rewrite Hshort.
      destruct (entries !! x) as [child|]; [|simpl; by eauto].
      destruct (IH child) as (Hexists & e & Hmkdir); [done|exact Hdir|].
      rewrite Hmkdir. split; [exact Hexists|by eexists].
    + destruct (entries !! x) as [child|]; [|simpl; by eauto].
      destruct (IH child) as (Hexists & _); [done|exact Hdir|].
      split; [exact Hexists|by eexists].
Qed.

(** X10. The root is made with a plain [mkdirSync], not a recursive one:
    when the directory above the output directory is missing, or is no
    directory, a run on a document that passes the validation ends with
    exit code 1 and leaves the disk as it was. *)
Theorem root_needs_its_parent parse cwd jsonFilePath outputDir files w :
  accepted (input parse (disk w) (Path.resolve cwd jsonFilePath)) = Some files →
  Path.resolve cwd outputDir ≠ [] →
  ¬ is_dir (lookup (removelast (Path.resolve cwd outputDir)) (disk w)) →
  (generateProject parse cwd jsonFilePath outputDir w).1 = Exited 1 ∧
  disk (generateProject parse cwd jsonFilePath outputDir w).2 = disk w.
Proof.
  intros Hin Hroot Hparent.
  destruct (generateProject_accepted parse cwd jsonFilePath outputDir _ w Hin)
    as (r & Hrun & ->).
  destruct (mkdir_needs_parent _ (disk w) Hroot Hparent) as (Hnone & e & Hmkdir).
  unfold exec_run, Fs.existsSync, Fs.mkdirSync, atomic in Hrun.
  rewrite Hnone, andb_false_r, Hmkdir in Hrun.
  destruct (accepts _) as [[]|e0]; by injection Hrun as <- <-.
Qed.

Lemma root_needs_its_parent_witness :
  let es := [("a.txt", "x")] in
  let parse := parse_documents [es] in
  let w := {| disk := Dir {[ "home" := Dir {[ "in.json" := File (document_text es) ]} ]};
              console := [] |} in
  (generateProject parse ["home"] "in.json" "build/out" w).1 = Exited 1 ∧
  disk (generateProject parse ["home"] "in.json" "build/out" w).2 = disk w.
Proof.
  intros es parse w.
  apply (root_needs_its_parent parse ["home"] "in.json" "build/out" [entry "a.txt" "x"] w).
  - by vm_compute.
  - by vm_compute.
  - intros [entries Hdir]. by vm_compute in Hdir.
Defined.

Lemma process_file_skipped projectRoot file w :
  skipped file →
  process_file projectRoot file w =
    (Ok (), {| disk := disk w; console := console w ++ [SkippingInvalid file] |}).
Proof.
  intros (name & Hname & Hwhy). unfold process_file. io_unfold. rewrite Hname. simpl.
  destruct (truthy name) eqn:Htruthy; simpl; [|done].
  destruct Hwhy as [|Hcontent]; [done|]. rewrite Hcontent. by simpl.
Qed.

Lemma forEach_skipped projectRoot files w :
  Forall skipped files →
  forEach (process_file projectRoot) files w =
    (Ok (), {| disk := disk w; console := console w ++ map SkippingInvalid files |}).
Proof.
  intros Hall. revert w. induction Hall as [|file files Hfile _ IH]; intros w.
  - simpl. rewrite app_nil_r. by destruct w.
  - change (forEach (process_file projectRoot) (file :: files) w)
      with (match process_file projectRoot file w with
            | (Ok _, w') => forEach (process_file projectRoot) files w'
            | (Throw e, w') => (Throw e, w')
            end).
    rewrite (process_file_skipped _ _ _ Hfile), IH. simpl. by rewrite <- app_assoc.
Qed.

(** X11. Entries that are skipped cost a warning each and nothing else: on
    a document whose entries all lack a name or a content (the empty list
    is one), with the output directory in place, the run completes, the
    disk is untouched, and the console gets the two opening lines, one
    warning per entry in the order of the list, and the closing line. *)
Theorem skipped_entries_only_warn parse cwd jsonFilePath outputDir files w :
  accepted (input parse (disk w) (Path.resolve cwd jsonFilePath)) = Some files →
  Forall skipped files →
  Fs.existsSync (disk w) (Path.resolve cwd outputDir) = true →
  generateProject parse cwd jsonFilePath outputDir w =
    (Returned,
     {| disk := disk w;
        console := console w ++
          [ReadingFrom (Path.resolve cwd jsonFilePath);
           GeneratingIn (Path.resolve cwd outputDir)] ++
          map SkippingInvalid files ++ [GenerationComplete] |}).
Proof.
  intros Hin Hall Hroot. unfold generateProject, generate.
  io_unfold. simpl. rewrite read_json_input. simpl.
  destruct (input parse (disk w) _) as [| | |projectData]; try done. simpl in Hin.
  destruct (Js.get projectData "project_files") as [[[| | | | |items|]|]|] eqn:Hget;
    try done.
  injection Hin as ->. simpl. rewrite Hroot. simpl.
  rewrite forEach_skipped by done. simpl.
  by rewrite <- !app_assoc.
Qed.

Lemma skipped_entries_only_warn_witness :
  let files := [VObj {[ "content" := VStr "x" ]}; VObj {[ "name" := VStr "a.txt" ]};
                VObj {[ "name" := VNum 0; "content" := VStr "y" ]}; VStr "a.txt"] in
  let text :=
    jobj [("project_files",
           jarr [jobj [("content", jstr "x")]; jobj [("name", jstr "a.txt")];
                 jobj [("name", "0"); ("content", jstr "y")]; jstr "a.txt"])] in
  let parse := parse_table [(text, VObj {[ "project_files" := VArr files ]})] in
  let w := {| disk := with_document text {[ "out" := Dir ∅ ]}; console := [] |} in
  generateProject parse [] "in.json" "out" w =
    (Returned,
     {| disk := disk w;
        console := console w ++
          [ReadingFrom (Path.resolve [] "in.json"); GeneratingIn (Path.resolve [] "out")] ++
          map SkippingInvalid files ++ [GenerationComplete] |}).
Proof.
  intros files text parse w.
  apply (skipped_entries_only_warn parse [] "in.json" "out" files w).
  - by vm_compute.
  - repeat constructor.
    + exists None. split; [reflexivity|by left].
    + exists (Some (VStr "a.txt")). split; [reflexivity|by right].
    + exists (Some (VNum 0)). split; [reflexivity|by left].
    + exists None. split; [reflexivity|by left].
  - reflexivity.
Defined.

Lemma exec_run_root projectRoot files fs fs' :
  exec_run projectRoot files fs = (Ok (), fs') → Fs.existsSync fs' projectRoot = true.
Proof.
  intros Hrun. destruct (exec_run_inv _ _ _ _ _ Hrun) as [(e & ? & _)|(fs0 & Hroot & Hplans)];
    [done|].
  eapply exec_plans_exists; [done|].
  destruct Hroot as [[Hexists ->]|(_ & Hacc & Hmkdir)]; [done|].
  apply mkdirSync_root with fs. by apply atomic_Ok.
Qed.

(** X12. Runs compose: when the run on a first list of entries completes,
    a run on a second list from the disk it leaves ends as the single run
    on both lists in a row does, with the same completion and the same
    disk.  (The three documents are three input files, which the first
    run leaves as they are.) *)
Theorem runs_compose parse cwd j1 j2 j outputDir files1 files2 w :
  let first := generateProject parse cwd j1 outputDir w in
  let second := generateProject parse cwd j2 outputDir first.2 in
  let both := generateProject parse cwd j outputDir w in
  accepted (input parse (disk w) (Path.resolve cwd j1)) = Some files1 →
  accepted (input parse (disk first.2) (Path.resolve cwd j2)) = Some files2 →
  accepted (input parse (disk w) (Path.resolve cwd j)) = Some (files1 ++ files2) →
  first.1 = Returned →
  both.1 = second.1 ∧ disk both.2 = disk second.2.
Proof.
  intros first second both Hin1 Hin2 Hin Hdone. unfold both, second. clear both second.
  destruct (generateProject_accepted parse cwd j1 outputDir _ w Hin1)
    as (r1 & Hrun1 & Hcode1).
  destruct (generateProject_accepted parse cwd j2 outputDir _ first.2 Hin2)
    as (r2 & Hrun2 & ->).
  destruct (generateProject_accepted parse cwd j outputDir _ w Hin)
    as (r & Hrun & ->).
  fold first in Hrun1, Hcode1. rewrite Hdone in Hcode1. destruct r1 as [[]|e1]; [|done].
  rewrite exec_run_app, Hrun1 in Hrun.
  unfold exec_run in Hrun2. rewrite (exec_run_root _ _ _ _ Hrun1) in Hrun2.
  rewrite Hrun2 in Hrun. by injection Hrun as <- <-.
Qed.

Lemma runs_compose_witness :
  let es1 := [("a/b.txt", "x")] in
  let es2 := [("a", "y")] in
  let parse := parse_documents [es1; es2; es1 ++ es2] in
  let w := {| disk := Dir {[ "in1.json" := File (document_text es1);
                            "in2.json" := File (document_text es2);
                            "in.json" := File (document_text (es1 ++ es2)) ]};
              console := [] |} in
  let first := generateProject parse [] "in1.json" "out" w in
  let second := generateProject parse [] "in2.json" "out" first.2 in
  let both := generateProject parse [] "in.json" "out" w in
  both.1 = second.1 ∧ disk both.2 = disk second.2.
Proof.
  intros es1 es2 parse w.
  apply (runs_compose parse [] "in1.json" "in2.json" "in.json" "out"
           [entry "a/b.txt" "x"] [entry "a" "y"] w); by vm_compute.
Defined.




Lemma classify_named projectRoot file name c :
  Js.get file "name" = Ok (Some (VStr name)) → name ≠ "" →
  Js.get file "content" = Ok (Some c) →
  ∃ data, classify projectRoot file
            = Store (Path.segments (Path.join projectRoot name)) data.
Proof.
  intros Hname Hne Hcontent. unfold classify. rewrite Hname, Hcontent. simpl.
  rewrite bool_decide_true by done. simpl. eauto.
Qed.

Lemma exec_store_blocked target data fs q :
  q `prefix_of` target → q ≠ target → is_file (lookup q fs) →
  (exec_plan (Store target data) fs).1 ≠ Ok ().
Proof.
  intros [r ->] Hstrict Hfile.
  destruct (exec_plan (Store (q ++ r) data) fs) as [[[]|e] fs0] eqn:Hplan; [|done].
  destruct (exec_plan_keeps_file _ _ _ _ q Hplan Hfile) as [content Hq].
  destruct (exec_store_target _ _ _ _ Hplan) as (s & _ & Htarget & _).
  rewrite (lookup_below_file _ _ _ _ Hq) in Htarget; [done|].
  intros ->. by rewrite app_nil_r in Hstrict.
Qed.

Lemma exec_plans_blocked pls target data fs q :
  Store target data ∈ pls →
  q `prefix_of` target → q ≠ target → is_file (lookup q fs) →
  (exec_plans pls fs).1 ≠ Ok ().
Proof.
  intros Hin Hq Hstrict. revert fs.
  induction pls as [|pl pls IH]; intros fs Hfile; [by apply elem_of_nil in Hin|].
  rewrite exec_plans_cons.
  destruct (exec_plan pl fs) as [[[]|e] fs0] eqn:Hplan; [|done].
  apply elem_of_cons in Hin as [<-|Hin].
  - pose proof (exec_store_blocked target data fs q Hq Hstrict Hfile) as Hfails.
    by rewrite Hplan in Hfails.
  - apply IH; [done|]. by eapply exec_plan_keeps_file.
Qed.

(** X14. The writer never turns a regular file into a directory: when an
    entry of the document is to be written below a path that is a regular
    file before the run, the run ends with exit code 1, and the path is
    still a regular file. *)
Theorem entry_below_a_file_fails parse cwd jsonFilePath outputDir files file
    name c q w :
  accepted (input parse (disk w) (Path.resolve cwd jsonFilePath)) = Some files →
  file ∈ files →
  Js.get file "name" = Ok (Some (VStr name)) → name ≠ "" →
  Js.get file "content" = Ok (Some c) →
  q `prefix_of` Path.segments (Path.join (Path.resolve cwd outputDir) name) →
  q ≠ Path.segments (Path.join (Path.resolve cwd outputDir) name) →
  is_file (lookup q (disk w)) →
  (generateProject parse cwd jsonFilePath outputDir w).1 = Exited 1 ∧
  is_file (lookup q (disk (generateProject parse cwd jsonFilePath outputDir w).2)).
Proof.
  intros Hin Hfile Hname Hne Hcontent Hq Hstrict Hthere.
  destruct (generateProject_accepted parse cwd jsonFilePath outputDir _ w Hin)
    as (r & Hrun & ->).
  destruct (classify_named (Path.resolve cwd outputDir) _ _ _ Hname Hne Hcontent)
    as (data & Hplan).
  destruct (exec_run_inv _ _ _ _ _ Hrun) as [(e & -> & Hsame & _)|(fs0 & Hroot & Hplans)];
    [by rewrite Hsame|].
  assert (is_file (lookup q fs0)) as Hfs0.
  { destruct Hroot as [[_ ->]|(_ & _ & Hmkdir)]; [done|].
    destruct Hthere as [content Hthere]. exists content.
    eapply mkdirp_keeps; [by apply mkdir_mkdirp|done]. }
  split.
  - destruct r as [[]|e]; [|done].
    destruct (exec_plans_blocked (map (classify (Path.resolve cwd outputDir)) files)
                (Path.segments (Path.join (Path.resolve cwd outputDir) name)) data fs0 q);
      [|done..|by rewrite Hplans].
    apply list_elem_of_fmap. eauto.
  - by eapply exec_plans_keeps_file.
Qed.

Lemma entry_below_a_file_fails_witness :
  let es := [("a/b/c.txt", "y")] in
  let parse := parse_documents [es] in
  let w := {| disk := with_document (document_text es) {[ "out" := Dir {[ "a" := File "x" ]} ]};
              console := [] |} in
  (generateProject parse [] "in.json" "out" w).1 = Exited 1 ∧
  is_file (lookup ["out"; "a"] (disk (generateProject parse [] "in.json" "out" w).2)).
Proof.
  intros es parse w.
  apply (entry_below_a_file_fails parse [] "in.json" "out" [entry "a/b/c.txt" "y"]
           (entry "a/b/c.txt" "y") "a/b/c.txt" (VStr "y") ["out"; "a"] w).
  - by vm_compute.
  - set_solver.
  - reflexivity.
  - done.
  - reflexivity.
  - by exists ["b"; "c.txt"].
  - by vm_compute.
  - by exists "x".
Defined.

(** ** The writer's console and exit code *)

Lemma generate_returns parse cwd jsonFilePath outputDir w w' :
  generate parse cwd jsonFilePath outputDir w = (Ok (), w') →
  last (console w') = Some GenerationComplete.
Proof.
  unfold generate. io_unfold. simpl. rewrite read_json_input. simpl.
  destruct (input parse (disk w) _) as [|e|msg|projectData]; simpl; try done.
  destruct (Js.get projectData "project_files") as [project_files|e]; simpl; [|done].
  destruct (negb (truthy project_files) || negb (isArray project_files)); [done|].
  simpl. destruct (Fs.existsSync (disk w) (Path.resolve cwd outputDir)); simpl.
  - destruct (forEach (process_file _) _ _) as [[[]|e] w1]; simpl; [|done].
    intros [= <-]. simpl. apply last_snoc.
  - destruct (Fs.mkdirSync _ (disk w)) as [[[]|e] fs1]; simpl; [|done].
    destruct (forEach (process_file _) _ _) as [[[]|e] w1]; simpl; [|done].
    intros [= <-]. simpl. apply last_snoc.
Qed.

(** X15. The exit code of the writer can be read off the console: the
    script ends with code 0 after [Project generation complete], or with
    code 1 after the usage message or one of the two reports of the
    [catch] block; nothing is written to the console after them. *)
Theorem exit_code_matches_console parse cwd argv2 argv3 w :
  let out := Writer.main parse cwd argv2 argv3 w in
  out.1 = 0%Z ∧ last (console out.2) = Some GenerationComplete ∨
  out.1 = 1%Z ∧
    (last (console out.2) = Some WriterUsage ∨
     ∃ msg, last (console out.2) = Some (InvalidJson msg) ∨
            last (console out.2) = Some (ErrorOccurred msg)).
Proof.
  unfold Writer.main. fold (default_dir argv3).
  destruct argv2 as [jsonFilePath|];
    [|right; split; [done|left; apply last_snoc]].
  case_bool_decide; [right; split; [done|left; apply last_snoc]|].
  unfold generateProject.
  destruct (generate _ _ _ _ w) as [[[]|e] w1] eqn:Hrun; simpl.
  - left. split; [done|]. by eapply generate_returns.
  - right. split; [done|]. right. rewrite last_snoc.
    destruct e as [msg|msg|msg]; exists msg; eauto.
Qed.

Lemma accepts_throws p e : accepts p = Throw e → is_syntax_error e = false.
Proof.
  unfold accepts. destruct (existsb has_nul p); [by intros [= <-]|].
  destruct (4096 <=? _)%N; [by intros [= <-]|done].
Qed.

Lemma mkdir_throws p fs e : mkdir p fs = Throw e → is_syntax_error e = false.
Proof.
  revert fs e. induction p as [|x [|y rest] IH]; intros fs e.
  - simpl. by intros [= <-].
  - destruct fs as [|entries| | | |]; simpl; try by intros [= <-].
    destruct (short x); [|by intros [= <-]].
    destruct (entries !! x); by intros [= <-].
  - destruct fs as [|entries| | | |]; try (simpl; by intros [= <-]).
    destruct (short x) eqn:Hshort; [|rewrite mkdir_long by done; by intros [= <-]].
    change (mkdir (x :: y :: rest) (Dir entries))
      with (if short x then
              match entries !! x with
              | Some child =>
                  child' ← mkdir (y :: rest) child; Ok (Dir (<[x := child']> entries))
              | None => Throw (Error "ENOENT: no such file or directory, mkdir")
              end
            else Throw (Error "ENAMETOOLONG: name too long, mkdir")).
    rewrite Hshort.
    destruct (entries !! x) as [child|]; [|by intros [= <-]].
    destruct (mkdir (y :: rest) child) as [child'|e'] eqn:Hchild; simpl; [done|].
    intros [= <-]. by eapply IH.
Qed.

Lemma mkdirp_throws p fs e : mkdirp p fs = Throw e → is_syntax_error e = false.
Proof.
  revert fs e. induction p as [|x rest IH]; intros fs e.
  - destruct fs; simpl; by intros [= <-].
  - destruct fs as [|entries| | | |]; simpl; try by intros [= <-].
    destruct (short x); [|by intros [= <-]].
    destruct (mkdirp rest _) as [child'|e'] eqn:Hchild; simpl; [done|].
    intros [= <-]. by eapply IH.
Qed.

Lemma writeFile_throws p data fs e :
  writeFile p data fs = Throw e → is_syntax_error e = false.
Proof.
  revert fs e. induction p as [|x [|y rest] IH]; intros fs e.
  - simpl. by intros [= <-].
  - destruct fs as [|entries| | | |]; simpl; try by intros [= <-].
    destruct (short x); [|by intros [= <-]].
    destruct (entries !! x) as [[]|]; by intros [= <-].
  - destruct fs as [|entries| | | |]; try (simpl; by intros [= <-]).
    destruct (short x) eqn:Hshort; [|rewrite writeFile_long by done; by intros [= <-]].
    change (writeFile (x :: y :: rest) data (Dir entries))
      with (if short x then
              match entries !! x with
              | Some child =>
                  child' ← writeFile (y :: rest) data child;
                  Ok (Dir (<[x := child']> entries))
              | None => Throw (Error "ENOENT: no such file or directory, open")
              end
            else Throw (Error "ENAMETOOLONG: name too long, open")).
    rewrite Hshort.
    destruct (entries !! x) as [child|]; [|by intros [= <-]].
    destruct (writeFile (y :: rest) data child) as [child'|e'] eqn:Hchild; simpl; [done|].
    intros [= <-]. by eapply IH.
Qed.

Lemma atomic_throws p op fs e fs' :
  (∀ e, op fs = Throw e → is_syntax_error e = false) →
  atomic p op fs = (Throw e, fs') → is_syntax_error e = false.
Proof.
  intros Hop. unfold atomic.
  destruct (accepts p) as [[]|e0] eqn:Hacc; simpl.
  - destruct (op fs) as [fs1|e1] eqn:Hrun; [done|]. intros [= <- _]. by apply Hop.
  - intros [= <- _]. by eapply accepts_throws.
Qed.

Lemma mkdirpSync_throws p fs e fs' :
  mkdirpSync p fs = (Throw e, fs') → is_syntax_error e = false.
Proof.
  unfold mkdirpSync. destruct (accepts p) as [[]|e0] eqn:Hacc.
  - destruct (mkdirp p fs) as [fs1|e1] eqn:Hrun; [done|].
    intros [= <- _]. by eapply mkdirp_throws.
  - intros [= <- _]. by eapply accepts_throws.
Qed.

Lemma classify_throws projectRoot file :
  match classify projectRoot file with
  | Abort e | Store _ (Throw e) => is_syntax_error e = false
  | _ => True
  end.
Proof.
  unfold classify, payload.
  destruct file as [| | | | | |props]; simpl; try done.
  destruct (truthy (props !! "name")); simpl; [|done].
  destruct (props !! "content") as [content|]; [|done].
  destruct (Js.text (props !! "name")); [|done].
  destruct (Js.text (Some content)); [|done]. simpl. by destruct (bool_decide _).
Qed.

Lemma exec_plan_throws projectRoot file fs e fs' :
  exec_plan (classify projectRoot file) fs = (Throw e, fs') → is_syntax_error e = false.
Proof.
  pose proof (classify_throws projectRoot file) as Hkind.
  destruct (classify projectRoot file) as [|e'|target data]; simpl; [done|by intros [= <- _]|].
  destruct (prepare target fs) as [[[]|e1] fs1] eqn:Hprep.
  - destruct data as [s|e']; [|by intros [= <- _]].
    apply atomic_throws. intros e2. apply writeFile_throws.
  - intros [= <- _]. unfold prepare in Hprep.
    destruct (Fs.existsSync fs _); [done|]. by eapply mkdirpSync_throws.
Qed.

Lemma exec_run_throws projectRoot files fs e fs' :
  exec_run projectRoot files fs = (Throw e, fs') → is_syntax_error e = false.
Proof.
  unfold exec_run.
  destruct (if Fs.existsSync fs projectRoot then _ else _) as [[[]|e'] fs0] eqn:Hroot.
  - clear Hroot. revert fs0. induction files as [|file files IH]; intros fs0; [done|].
    simpl. destruct (exec_plan _ fs0) as [[[]|e'] fs1] eqn:Hplan; [by apply IH|].
    intros [= <- _]. by eapply exec_plan_throws.
  - intros [= <- _]. destruct (Fs.existsSync fs projectRoot); [done|].
    revert Hroot. apply atomic_throws. intros e0. apply mkdir_throws.
Qed.

Lemma readSync_throws p fs e : Fs.readSync p fs = Throw e → is_syntax_error e = false.
Proof.
  unfold Fs.readSync. destruct (accepts p) as [[]|e0] eqn:Hacc; simpl.
  - destruct (lookup p fs) as [[]|]; simpl; by intros [= <-].
  - intros [= <-]. by eapply accepts_throws.
Qed.

(** What [input] calls unreadable is no [SyntaxError]. *)
Lemma input_unreadable parse fs p e :
  input parse fs p = Unreadable e → is_syntax_error e = false.
Proof.
  unfold input. destruct (Fs.existsSync fs p); [|done].
  destruct (Fs.readSync p fs) as [rawData|e0] eqn:Hread.
  - destruct (parse rawData) as [v|[]]; by intros [= <-].
  - intros [= <-]. by eapply readSync_throws.
Qed.

Lemma generate_throws parse cwd jsonFilePath outputDir w e w' :
  generate parse cwd jsonFilePath outputDir w = (Throw e, w') →
  is_syntax_error e = true →
  input parse (disk w) (Path.resolve cwd jsonFilePath) = Garbled (message e).
Proof.
  intros Hrun Hkind.
  destruct (accepted (input parse (disk w) (Path.resolve cwd jsonFilePath)))
    as [files|] eqn:Hin.
  - pose proof (generate_accepted parse cwd jsonFilePath outputDir files w Hin) as Hdisk.
    unfold outcome in Hdisk. rewrite Hrun in Hdisk. simpl in Hdisk. symmetry in Hdisk.
    apply exec_run_throws in Hdisk. congruence.
  - revert Hrun. unfold generate. io_unfold. simpl. rewrite read_json_input. simpl.
    destruct (input parse (disk w) _) as [|e'|msg|projectData] eqn:Hinput; simpl.
    + intros [= <- _]. done.
    + intros [= <- _]. apply input_unreadable in Hinput. congruence.
    + by intros [= <- _].
    + simpl in Hin.
      destruct (Js.get projectData "project_files") as [project_files|e'] eqn:Hget; simpl;
        [|intros [= <- _]; destruct projectData; by simplify_eq/=].
      rewrite validation. destruct project_files as [[]|]; try done;
        intros [= <- _]; done.
Qed.

(** X16. The report [Invalid JSON in the input file] is kept for the input
    text: the last line of the console is that report, with the message
    [msg], exactly when [JSON.parse] has failed on the text of the input
    file with the [SyntaxError] of message [msg]; no failure of the
    validation, of an entry or of the disk is reported as invalid JSON. *)
Theorem invalid_json_is_reported_for_the_input parse cwd jsonFilePath outputDir w msg :
  last (console (generateProject parse cwd jsonFilePath outputDir w).2)
    = Some (InvalidJson msg)
  ↔ input parse (disk w) (Path.resolve cwd jsonFilePath) = Garbled msg.
Proof.
  split.
  - unfold generateProject.
    destruct (generate _ _ _ _ w) as [[[]|e] w1] eqn:Hrun; simpl.
    + by rewrite (generate_returns _ _ _ _ _ _ Hrun).
    + rewrite last_snoc. intros [= Hreport].
      destruct e as [msg'| |]; try done. injection Hreport as ->.
      by apply (generate_throws _ _ _ _ _ _ _ Hrun).
  - intros Hin. unfold generateProject, generate. io_unfold. simpl.
    rewrite read_json_input. simpl. rewrite Hin. simpl. by rewrite last_snoc.
Qed.

(** ** The reader script *)

Lemma read_dummy_project : read_node dummy_project = dummy_reading.
Proof. by vm_compute. Qed.

(** Saving the JSON changes nothing but the file saved, and never throws. *)
Lemma save_result (json : string) (sp : path) w :
  let save :=
    catch (writeFileSync {| Path.segments := sp; Path.trailing := false |} json;;
           log SavedJson)
          (λ writeError, log (SaveFailed (message writeError))) in
  ∃ l, (save w).1 = Ok () ∧ console (save w).2 = console w ++ [l] ∧
       (∀ r, ¬ r `prefix_of` sp → lookup r (disk (save w).2) = lookup r (disk w)) ∧
       (l = SavedJson ∧ lookup sp (disk (save w).2) = Some (File json) ∨
        ∃ msg, l = SaveFailed msg).
Proof.
  intros save. unfold save. io_unfold. simpl.
  destruct (Fs.writeSync sp json (disk w)) as [[[]|e] fs1] eqn:Hwrite; simpl.
  - apply atomic_Ok_inv in Hwrite as [_ Hwrite].
    exists SavedJson. repeat split; [|left; split; [done|]].
    + intros r Hr. by eapply writeFile_frame.
    + by eapply writeFile_target.
  - apply atomic_Throw_inv in Hwrite as ->.
    exists (SaveFailed (message e)). repeat split; eauto.
Qed.

(** The script after a scaffold that completes: the second reading is
    printed and saved. *)
Lemma scan_after_scaffold stringify typed cwd dirname targetPath p w w1 :
  hand cwd targetPath = Plain p →
  createDummyProject typed (Plain p) w = (Ok (), w1) →
  scan stringify typed cwd dirname targetPath w =
    catch (writeFileSync (under dirname ["project-structure.json"])
             (stringify (readDirectoryStructure (disk w1) p));;
           log SavedJson)
          (λ writeError, log (SaveFailed (message writeError)))
      {| disk := disk w1;
         console := console w1 ++ [GeneratedJson (readDirectoryStructure (disk w1) p)] |}.
Proof.
  intros Hhand Hrun. unfold scan. rewrite Hhand.
  cbv [read inspect]. unfold mbind at 1 2 3 4. cbv [io_bind]. rewrite Hrun.
  by cbv [log].
Qed.

(** X17. The reader script prints its own scaffold, whatever the directory
    held.  On a disk that is a tree, for every argument that is relative
    or absolute and normalised, whose parent directory exists, that is no
    link that cannot be followed, under which no directory is without
    permissions, whose scaffold paths are names the calls take, and that
    is not above the file the script saves: the script ends with code 0,
    the directory holds the four files of [createDummyProject] and
    nothing of what it held before, the JSON printed is the reading of
    those four files, and everything beside the directory and the file
    saved is as it was.  The JSON is saved in the directory of the
    script; a failure to save it only changes the last line. *)
Theorem script_prints_its_own_scaffold stringify typed cwd dirname targetPath p w :
  targetPath ≠ "" →
  hand cwd targetPath = Plain p →
  p ≠ [] → fits p = true →
  is_dir (lookup (removelast p) (disk w)) →
  (∀ msg, lookup p (disk w) ≠ Some (NoStat msg)) →
  (∀ n, lookup p (disk w) = Some n → removable n = true) →
  ¬ p `prefix_of` save_path dirname →
  let out := ReadProject.main stringify typed cwd dirname (Some targetPath) w in
  out.1 = 0%Z ∧
  lookup p (disk out.2) = Some dummy_project ∧
  (∀ r, ¬ p `prefix_of` r → ¬ r `prefix_of` p → ¬ r `prefix_of` save_path dirname →
        lookup r (disk out.2) = lookup r (disk w)) ∧
  ∃ l, console out.2 = console w ++ [DummyCreated; GeneratedJson dummy_reading; l] ∧
       (l = SavedJson ∧
        lookup (save_path dirname) (disk out.2) = Some (File (stringify dummy_reading)) ∨
        ∃ msg, l = SaveFailed msg).
Proof.
  intros Hne Hhand Hpath Hfits Hdir Hlink Hrm Hsave.
  destruct (scaffold_result typed _ w Hpath Hfits Hdir Hlink Hrm)
    as (w1 & Hrun & Hroot & Hconsole & Hframe).
  unfold ReadProject.main. rewrite bool_decide_false by done.
  rewrite (scan_after_scaffold stringify typed cwd dirname targetPath p w w1 Hhand Hrun).
  unfold readDirectoryStructure. rewrite Hroot, read_dummy_project.
  set (w2 := {| disk := disk w1; console := console w1 ++ [GeneratedJson dummy_reading] |}).
  destruct (save_result (stringify dummy_reading) (save_path dirname) w2)
    as (l & Hok & Hlines & Hbeside & Hsaved).
  unfold under. fold (save_path dirname).
  destruct (catch _ _ w2) as [[[]|e] w3]; [|done]. simpl in *.
  split; [done|]. split; [|split].
  - by rewrite Hbeside, Hroot.
  - intros r H1 H2 H3. rewrite Hbeside by done. by apply Hframe.
  - exists l. split; [|done]. by rewrite Hlines, Hconsole, <- !app_assoc.
Qed.

Lemma script_prints_its_own_scaffold_witness :
  let w := {| disk := Dir {[ "proj" := Dir {[ "keep.txt" := File "data" ]};
                            "other" := File "o";
                            "tools" := Dir ∅ ]};
              console := [] |} in
  let out := ReadProject.main stringify_any lexical_calls [] ["tools"] (Some "proj") w in
  out.1 = 0%Z ∧
  lookup ["proj"] (disk out.2) = Some dummy_project ∧
  (∀ r, ¬ ["proj"] `prefix_of` r → ¬ r `prefix_of` ["proj"] →
        ¬ r `prefix_of` save_path ["tools"] →
        lookup r (disk out.2) = lookup r (disk w)) ∧
  ∃ l, console out.2 = console w ++ [DummyCreated; GeneratedJson dummy_reading; l] ∧
       (l = SavedJson ∧
        lookup (save_path ["tools"]) (disk out.2)
          = Some (File (stringify_any dummy_reading)) ∨
        ∃ msg, l = SaveFailed msg).
Proof.
  intros w.
  apply (script_prints_its_own_scaffold stringify_any lexical_calls [] ["tools"]
           "proj" ["proj"] w).
  - done.
  - by vm_compute.
  - done.
  - by vm_compute.
  - simpl. by eexists.
  - intros msg. by vm_compute.
  - intros n Hn. vm_compute in Hn. injection Hn as <-. by vm_compute.
  - intros [k Hk]. discriminate Hk.
Defined.

Lemma mkdirp_blocked p fs q n :
  q `prefix_of` p → lookup q fs = Some n → stat n ≠ Ok IsDirectory →
  ∃ e, mkdirp p fs = Throw e.
Proof.
  intros Hq Hn Hstat. destruct (mkdirp p fs) as [fs'|e] eqn:Hmkdirp; [|by eauto].
  destruct Hstat. by eapply mkdirp_way.
Qed.

Lemma lookup_blocked q r fs n :
  lookup q fs = Some n → (∀ entries, n ≠ Dir entries) → r ≠ [] → lookup (q ++ r) fs = None.
Proof.
  intros Hn Hdir Hr. rewrite lookup_app, Hn. simpl.
  destruct r as [|x r]; [done|]. destruct n; try done. by destruct (Hdir entries).
Qed.

Lemma lookup_above r r' fs n :
  lookup (r ++ r') fs = Some n → r' ≠ [] → is_dir (lookup r fs).
Proof.
  rewrite lookup_app. destruct (lookup r fs) as [[]|]; simpl; try done;
    destruct r'; try done. intros _ _. by eexists.
Qed.

(** Where an entry above [p] is no directory, the recursive [mkdirSync]
    of [p] throws and makes nothing. *)
Lemma mkdirpSync_blocked p fs q n :
  q `prefix_of` p → q ≠ p → lookup q fs = Some n → stat n ≠ Ok IsDirectory →
  ∃ e, mkdirpSync p fs = (Throw e, fs).
Proof.
  intros Hq Hstrict Hn Hstat. unfold mkdirpSync.
  destruct (accepts p) as [[]|e0]; [|by eauto].
  destruct (mkdirp_blocked _ _ _ _ Hq Hn Hstat) as (e & ->). exists e. f_equal.
  unfold made. destruct (mkdirp (short_prefix p) fs) as [fs'|e'] eqn:Hmk; [|done].
  destruct (prefix_weak_total _ _ _ Hq (short_prefix_prefix p)) as [Hqr|[r' Hr]].
  - destruct Hstat. by eapply mkdirp_way.
  - destruct (decide (r' = [])) as [->|Hr'].
    { rewrite app_nil_r in Hr. subst q. destruct Hstat. eapply mkdirp_way; [done| |done].
      done. }
    rewrite Hr in Hn. destruct (lookup_above _ _ _ _ Hn Hr') as [entries Hdir].
    rewrite (mkdirp_existing _ _ _ (short_prefix_short p) Hdir) in Hmk by done.
    by simplify_eq.
Qed.

(** X18. The scaffold is made with a recursive [mkdirSync], which fails
    where a component of the path is no directory: for an argument that
    is relative or absolute and normalised, when an entry above the
    directory given is anything but a directory, nobody catches the
    exception, and the script ends with code 1 and the disk as it was,
    before the JSON is printed or saved. *)
Theorem script_fails_below_a_file stringify typed cwd dirname targetPath p w q n :
  targetPath ≠ "" →
  hand cwd targetPath = Plain p →
  q `prefix_of` p → q ≠ p →
  lookup q (disk w) = Some n → stat n ≠ Ok IsDirectory →
  ∃ e, ReadProject.main stringify typed cwd dirname (Some targetPath) w =
         (1%Z, {| disk := disk w; console := console w ++ [Uncaught e] |}).
Proof.
  intros Hne Hhand Hq Hstrict Hn Hstat.
  destruct (mkdirpSync_blocked _ _ _ _ Hq Hstrict Hn Hstat) as (e & Hmkdirp). exists e.
  destruct Hq as [r Hp].
  assert (lookup p (disk w) = None) as Hnone.
  { rewrite Hp. eapply lookup_blocked; [done| |].
    - intros entries ->. by destruct Hstat.
    - intros ->. by rewrite app_nil_r in Hp. }
  unfold ReadProject.main, scan, createDummyProject.
  rewrite bool_decide_false, Hhand by done.
  io_unfold. unfold Fs.existsSync. simpl. rewrite Hnone, andb_false_r. simpl.
  by rewrite Hmkdirp.
Qed.

Lemma script_fails_below_a_file_witness :
  let w := {| disk := Dir {[ "notes.txt" := File "n" ]}; console := [] |} in
  ∃ e, ReadProject.main stringify_any lexical_calls [] [] (Some "notes.txt/proj") w =
         (1%Z, {| disk := disk w; console := console w ++ [Uncaught e] |}).
Proof.
  intros w.
  apply (script_fails_below_a_file stringify_any lexical_calls [] [] "notes.txt/proj"
           ["notes.txt"; "proj"] w ["notes.txt"] (File "n")).
  - done.
  - by vm_compute.
  - by exists ["proj"].
  - done.
  - reflexivity.
  - done.
Defined.
